(** * link-ai: chat pipeline, token accounting and login

    A shallow embedding of
    - [src/unnamed/part_009] (chatService: [sendMessageSchema],
      [getChatHistory], [getDefaultModel], [initOpenAIClient], [sendMessage]),
    - [src/unnamed/part_002] (tiktoken helpers: [getEncoder], [countTokens],
      [disposeEncoders]),
    - [src/src/services/authService.ts] ([login]) with
      [src/src/config/index.ts] ([config.jwt]).

    JavaScript strings are lists of UTF-16 code units; the database is an
    explicit record threaded through a small state-and-exception monad; the
    third-party collaborators (the OpenAI SDK, the tiktoken encoder, bcrypt,
    jsonwebtoken) are given by their observable results. *)

From Stdlib Require Import ZArith QArith Qround List String Ascii Bool Lia Sorted Permutation.
Import ListNotations.
Open Scope Z_scope.
Open Scope list_scope.

(* ================================================================== *)
(** ** JavaScript strings *)

(** A JS string: its UTF-16 code units. *)
Definition jstr := list N.

(** String literals of the source (all ASCII). *)
Definition js (s : string) : jstr :=
  map (fun a => N.of_nat (nat_of_ascii a)) (list_ascii_of_string s).

Definition jstr_eqb (a b : jstr) : bool :=
  if list_eq_dec N.eq_dec a b then true else false.

(** JS truthiness of a string: [""] is falsy. *)
Definition truthy (s : jstr) : bool :=
  match s with [] => false | _ => true end.

(** [String.prototype.trim]: WhiteSpace and LineTerminator code units. *)
Definition is_js_ws (c : N) : bool :=
  existsb (N.eqb c)
    [9; 10; 11; 12; 13; 32; 160; 5760; 8232; 8233; 8239; 8287; 12288; 65279]%N
  || (N.leb 8192 c && N.leb c 8202).

Fixpoint drop_ws (s : jstr) : jstr :=
  match s with
  | [] => []
  | c :: r => if is_js_ws c then drop_ws r else s
  end.

Definition js_trim (s : jstr) : jstr := rev (drop_ws (rev (drop_ws s))).

(** [s.length]: the number of code units. *)
Definition js_length (s : jstr) : N := N.of_nat (List.length s).

(** [s.slice(0, n)] for [n >= 0]. *)
Definition js_slice0 (s : jstr) (n : nat) : jstr := firstn n s.

(** [xs.join(sep)]. *)
Fixpoint js_join (sep : jstr) (xs : list jstr) : jstr :=
  match xs with
  | [] => []
  | [x] => x
  | x :: r => x ++ sep ++ js_join sep r
  end.

(* ================================================================== *)
(** ** Input validation: [sendMessageSchema] *)

(** [SendMessageParams] as the caller hands it in. *)
Record SendMessageParams := {
  p_content : jstr;
  p_chatId : option jstr;
  p_stream : option bool
}.

(** The parsed object: [content] trimmed, [stream] defaulted to [true]. *)
Record ParsedParams := {
  pp_content : jstr;
  pp_chatId : option jstr;
  pp_stream : bool
}.

(** A zod issue: the path of the offending field and its message. *)
Record ZodIssue := { zi_path : list jstr; zi_message : jstr }.

(** [z.string().trim().min(1, ..).max(10000, ..)] on [content]: the checks run
    on the trimmed value and zod reports every failing check. *)
Definition content_issues (raw : jstr) : list ZodIssue :=
  let v := js_trim raw in
  (if N.ltb (js_length v) 1
   then [{| zi_path := [js "content"]; zi_message := js "min" |}] else [])
  ++ (if N.ltb 10000 (js_length v)
      then [{| zi_path := [js "content"]; zi_message := js "max" |}] else []).

(** [sendMessageSchema.parse(params)]: [inl issues] is a thrown [ZodError]. *)
Definition parse_sendMessage (p : SendMessageParams)
  : list ZodIssue + ParsedParams :=
  match content_issues (p_content p) with
  | [] => inr {| pp_content := js_trim (p_content p);
                 pp_chatId := p_chatId p;
                 pp_stream := match p_stream p with Some b => b | None => true end |}
  | iss => inl iss
  end.

(* ================================================================== *)
(** ** Token accounting: [src/unnamed/part_002] *)

Module Tiktoken.
Section Encoders.

(** The tiktoken library: an encoder object, [tiktoken.encoding_for_model]
    ([None]: it throws) and [encoder.encode] ([None]: it throws). The
    installed tiktoken's [encoding_for_model] accepts model names only and
    throws on 'cl100k_base', the one name [getEncoder] passes: that is the
    case [encoding_for_model encodingName = None], which the facts below
    cover alongside the case where it builds an encoder. *)
Variable Encoder : Type.
Variable encoding_for_model : string -> option Encoder.
Variable encode : Encoder -> jstr -> option (list N).

(** [encoderCache]: the module-level [Map<string, Tiktoken>], the only
    process state of the module. *)
Definition EncoderCache := list (string * Encoder).

Fixpoint map_get (k : string) (m : EncoderCache) : option Encoder :=
  match m with
  | [] => None
  | (k', v) :: r => if String.eqb k k' then Some v else map_get k r
  end.

Definition map_has (k : string) (m : EncoderCache) : bool :=
  match map_get k m with Some _ => true | None => false end.

(** [Map.prototype.set]: overwrite in place, or append a new key. *)
Fixpoint map_set (k : string) (v : Encoder) (m : EncoderCache) : EncoderCache :=
  match m with
  | [] => [(k, v)]
  | (k', v') :: r => if String.eqb k k' then (k, v) :: r else (k', v') :: map_set k v r
  end.

Definition encodingName : string := "cl100k_base".

(** [getEncoder()]: [None] is a thrown exception, in which case the cache has
    not been written. *)
Definition getEncoder (cache : EncoderCache) : option Encoder * EncoderCache :=
  let cache' :=
    if map_has encodingName cache then Some cache
    else match encoding_for_model encodingName with
         | Some e => Some (map_set encodingName e cache)
         | None => None
         end in
  match cache' with
  | Some c => (map_get encodingName c, c)
  | None => (None, cache)
  end.

(** [countTokens(text)]: any exception is caught and yields [0]. *)
Definition countTokens (cache : EncoderCache) (text : jstr) : Z * EncoderCache :=
  match getEncoder cache with
  | (Some enc, c) =>
      match encode enc text with
      | Some toks => (Z.of_nat (List.length toks), c)
      | None => (0%Z, c)
      end
  | (None, c) => (0%Z, c)
  end.

(** [disposeEncoders()]: free every encoder and clear the map. *)
Definition disposeEncoders (cache : EncoderCache) : EncoderCache := [].

(** The operations of the module that touch the cache ([countMessageTokens]
    calls [getEncoder] the same way). *)
Inductive Op :=
| OpCountTokens (text : jstr)
| OpCountMessageTokens
| OpDispose.

Definition run_op (c : EncoderCache) (o : Op) : EncoderCache :=
  match o with
  | OpCountTokens t => snd (countTokens c t)
  | OpCountMessageTokens => snd (getEncoder c)
  | OpDispose => disposeEncoders c
  end.

(** The cache after a history of operations, starting from a fresh process. *)
Definition run_ops (ops : list Op) : EncoderCache := fold_left run_op ops [].

(** What a call returns when the encoder is built from scratch. *)
Definition countTokens_fresh (text : jstr) : Z := fst (countTokens [] text).

(** A message of [countMessageTokens]: [{ role, content }]. *)
Record TokMessage := { tm_role : jstr; tm_content : jstr }.

Definition im_end : jstr := js "<|im_end|>".

(** [`<|im_start|>${msg.role}\n${msg.content}<|im_end|>`]. *)
Definition message_str (m : TokMessage) : jstr :=
  js "<|im_start|>" ++ tm_role m ++ [10%N] ++ tm_content m ++ im_end.

(** The [for] loop of [countMessageTokens]; [None]: [encode] threw. *)
Fixpoint sum_message_tokens (enc : Encoder) (ms : list TokMessage) (total : Z) : option Z :=
  match ms with
  | [] => Some total
  | m :: r =>
      match encode enc (message_str m) with
      | Some toks => sum_message_tokens enc r (total + Z.of_nat (List.length toks))
      | None => None
      end
  end.

(** [countMessageTokens(messages)]: unlike [countTokens] nothing is caught,
    so [None] is a thrown exception. *)
Definition countMessageTokens (cache : EncoderCache) (messages : list TokMessage)
  : option Z * EncoderCache :=
  match getEncoder cache with
  | (Some enc, c) =>
      (match sum_message_tokens enc messages 0 with
       | Some total =>
           match encode enc im_end with
           | Some toks => Some (total + Z.of_nat (List.length toks))
           | None => None
           end
       | None => None
       end, c)
  | (None, c) => (None, c)
  end.

End Encoders.
End Tiktoken.

(* ================================================================== *)
(** ** Chat pipeline: [src/unnamed/part_009] *)

Module Chat.

(** *** Persistence: the rows the chat service reads and writes *)

(** Row identifiers ([cuid()] strings). *)
Definition Id := jstr.

(** [@default(cuid())]: a fresh identifier for each value of the counter. *)
Definition cuid (n : N) : Id := [99%N; n].

Record AIModel := {
  am_id : Id;
  am_name : jstr;
  am_modelId : jstr;
  am_provider : jstr;
  am_baseUrl : option jstr;
  am_apiKey : option jstr;
  am_enabled : bool
}.

Record ChatRow := {
  ch_id : Id;
  ch_userId : Id;
  ch_title : jstr;
  ch_modelId : option Id;
  ch_modelName : option jstr;
  ch_updatedAt : Z
}.

Record MessageRow := {
  msg_id : Id;
  msg_chatId : Id;
  msg_role : jstr;
  msg_content : jstr;
  msg_reasoning : option jstr;
  msg_modelName : option jstr;
  msg_modelId : option jstr;
  msg_duration : option Q;
  msg_promptTokens : option Z;
  msg_completionTokens : option Z;
  msg_totalTokens : option Z;
  msg_createdAt : Z
}.

(** The database. [db_seq] feeds [cuid()]; [db_clock] is the [now()] that
    [@default(now())] stamps on [createdAt], advancing with every insert. *)
Record DB := {
  db_models : list AIModel;
  db_chats : list ChatRow;
  db_messages : list MessageRow;
  db_seq : N;
  db_clock : Z
}.

Definition set_chats (db : DB) (cs : list ChatRow) : DB :=
  {| db_models := db_models db; db_chats := cs; db_messages := db_messages db;
     db_seq := db_seq db; db_clock := db_clock db |}.

Definition set_messages (db : DB) (ms : list MessageRow) : DB :=
  {| db_models := db_models db; db_chats := db_chats db; db_messages := ms;
     db_seq := db_seq db; db_clock := db_clock db |}.

Definition bump (db : DB) : DB :=
  {| db_models := db_models db; db_chats := db_chats db; db_messages := db_messages db;
     db_seq := N.succ (db_seq db); db_clock := Z.succ (db_clock db) |}.

(** Rows of one chat, in table order. *)
Definition chat_messages (db : DB) (chatId : Id) : list MessageRow :=
  filter (fun m => jstr_eqb (msg_chatId m) chatId) (db_messages db).

Definition chat_exists (db : DB) (chatId : Id) : bool :=
  existsb (fun c => jstr_eqb (ch_id c) chatId) (db_chats db).

(** [prisma.chat.findFirst({ where: { id, userId } })]. *)
Definition chat_findFirst (db : DB) (id userId : Id) : option ChatRow :=
  find (fun c => jstr_eqb (ch_id c) id && jstr_eqb (ch_userId c) userId) (db_chats db).

(** [prisma.aIModel.findFirst({ where: { id, enabled: true } })]. *)
Definition model_findFirst_id (db : DB) (id : Id) : option AIModel :=
  find (fun m => jstr_eqb (am_id m) id && am_enabled m) (db_models db).

(** [prisma.aIModel.findFirst({ where: { enabled: true } })]. *)
Definition model_findFirst_enabled (db : DB) : option AIModel :=
  find am_enabled (db_models db).

(** [orderBy: { createdAt: 'desc' }]: a stable insertion sort. *)
Fixpoint insert_desc (m : MessageRow) (l : list MessageRow) : list MessageRow :=
  match l with
  | [] => [m]
  | x :: r => if Z.ltb (msg_createdAt x) (msg_createdAt m) then m :: l
              else x :: insert_desc m r
  end.

Fixpoint sort_desc (l : list MessageRow) : list MessageRow :=
  match l with
  | [] => []
  | x :: r => insert_desc x (sort_desc r)
  end.

(** *** The upstream provider (OpenAI SDK) *)

(** [CompletionUsage]. *)
Record Usage := { prompt_tokens : Z; completion_tokens : Z; total_tokens : Z }.

(** [choice.delta]: [content] and the provider-specific [reasoning_content]. *)
Record Delta := { delta_content : option jstr; delta_reasoning : option jstr }.

(** A [ChatCompletionChunk]: [choices[0]] (with its optional [delta]) and
    [usage]. *)
Record Chunk := {
  chunk_choice0 : option (option Delta);
  chunk_usage : option Usage
}.

(** A non-streamed [ChatCompletion]: [choices[0]?.message] and [usage]. *)
Record CompletionMessage := { cmsg_content : option jstr; cmsg_reasoning : option jstr }.
Record Completion := {
  comp_message0 : option CompletionMessage;
  comp_usage : option Usage
}.

(** What the SDK throws: an [OpenAI.APIError] (with its optional HTTP
    [status]) or anything else. *)
Inductive UpstreamError :=
| APIError (status : option Z) (message : jstr)
| OtherError.

(** A request message [{ role, content }]. *)
Record OpenAIMessage := { om_role : jstr; om_content : jstr }.

(** The arguments of [openai.chat.completions.create]. *)
Record CompletionRequest := {
  rq_baseUrl : jstr;
  rq_apiKey : jstr;
  rq_model : jstr;
  rq_messages : list OpenAIMessage;
  rq_stream : bool;
  rq_temperature : Q;
  rq_max_tokens : Z
}.

(** The outside world of one call: the provider's answer in either mode (a
    stream is the chunks delivered before it ends, normally or by a throw),
    the clock readings, and whether the two best-effort writes reach the
    database. *)
Record Env := {
  e_stream : list Chunk * option UpstreamError;
  e_completion : UpstreamError + Completion;
  e_t0 : Z;            (* Date.now() before the call *)
  e_t1 : Z;            (* Date.now() after the call *)
  e_now : Z;           (* new Date() in the final transaction *)
  e_delete_ok : bool;  (* prisma.message.delete reaches the database *)
  e_tx_ok : bool       (* prisma.$transaction reaches the database *)
}.

(** *** The service *)

Inductive StreamEvent :=
| EvContent (content : jstr)
| EvDone
| EvError (message : jstr).

Inductive ServiceError :=
| ZodError (issues : list ZodIssue)
| NotFoundError (resource : jstr)
| ChatError (message : jstr) (statusCode : Z)
| PrismaError.

Record AIUsage := { promptTokens : Z; completionTokens : Z; totalTokens : Z }.

Record AIResponse := {
  r_content : jstr;
  r_reasoning : option jstr;
  r_modelId : jstr;
  r_modelName : jstr;
  r_duration : Q;
  r_usage : AIUsage
}.

(** Everything a call can change: the database, the events handed to
    [onChunk], the requests sent upstream and the error log. *)
Record World := {
  w_db : DB;
  w_events : list StreamEvent;
  w_requests : list CompletionRequest;
  w_log : list jstr
}.

(** The service's async code: state passing with exceptions. *)
Definition M (A : Type) := World -> (ServiceError + A) * World.

Definition ret {A} (a : A) : M A := fun w => (inr a, w).
Definition throw {A} (e : ServiceError) : M A := fun w => (inl e, w).
Definition bind {A B} (m : M A) (k : A -> M B) : M B :=
  fun w => match m w with
           | (inl e, w') => (inl e, w')
           | (inr a, w') => k a w'
           end.

Notation "x <- m ;; k" := (bind m (fun x => k))
  (at level 61, m at next level, right associativity).
Notation "m ;;; k" := (bind m (fun _ => k))
  (at level 61, right associativity).

Definition get_db : M DB := fun w => (inr (w_db w), w).
Definition put_db (db : DB) : M unit :=
  fun w => (inr tt, {| w_db := db; w_events := w_events w;
                       w_requests := w_requests w; w_log := w_log w |}).
Definition log_error (tag : jstr) : M unit :=
  fun w => (inr tt, {| w_db := w_db w; w_events := w_events w;
                       w_requests := w_requests w; w_log := w_log w ++ [tag] |}).
Definition record_request (rq : CompletionRequest) : M unit :=
  fun w => (inr tt, {| w_db := w_db w; w_events := w_events w;
                       w_requests := w_requests w ++ [rq]; w_log := w_log w |}).

(** [onChunk?.(ev)]: delivered only when a callback was passed. *)
Definition emit (onChunk : bool) (ev : StreamEvent) : M unit :=
  fun w => (inr tt, {| w_db := w_db w;
                       w_events := if onChunk then w_events w ++ [ev] else w_events w;
                       w_requests := w_requests w; w_log := w_log w |}).

(** *** Database operations of the service *)

(** A new message row, stamped with [cuid()] and [now()]. *)
Definition new_message (db : DB) (chatId : Id) (role content : jstr)
    (reasoning modelName modelId : option jstr) (duration : option Q)
    (p c t : option Z) : MessageRow :=
  {| msg_id := cuid (db_seq db); msg_chatId := chatId; msg_role := role;
     msg_content := content; msg_reasoning := reasoning;
     msg_modelName := modelName; msg_modelId := modelId; msg_duration := duration;
     msg_promptTokens := p; msg_completionTokens := c; msg_totalTokens := t;
     msg_createdAt := db_clock db |}.

(** [prisma.message.create]: fails on a dangling [chatId] (foreign key). *)
Definition message_insert (db : DB) (row : MessageRow) : option DB :=
  if chat_exists db (msg_chatId row)
  then Some (bump (set_messages db (db_messages db ++ [row])))
  else None.

(** [prisma.message.delete({ where: { id } })]: fails when no row has [id]. *)
Definition message_delete (db : DB) (id : Id) : option DB :=
  if existsb (fun m => jstr_eqb (msg_id m) id) (db_messages db)
  then Some (set_messages db (filter (fun m => negb (jstr_eqb (msg_id m) id)) (db_messages db)))
  else None.

(** [prisma.chat.update({ where: { id }, data: { updatedAt } })]. *)
Definition chat_touch (db : DB) (id : Id) (now : Z) : option DB :=
  if chat_exists db id
  then Some (set_chats db (map (fun c =>
          if jstr_eqb (ch_id c) id
          then {| ch_id := ch_id c; ch_userId := ch_userId c; ch_title := ch_title c;
                  ch_modelId := ch_modelId c; ch_modelName := ch_modelName c;
                  ch_updatedAt := now |}
          else c) (db_chats db)))
  else None.

(** [prisma.$transaction([create, update])]: both writes or neither. *)
Definition finalize_tx (db : DB) (row : MessageRow) (chatId : Id) (now : Z) : option DB :=
  match message_insert db row with
  | Some db1 => chat_touch db1 chatId now
  | None => None
  end.

(** *** Upstream accumulation *)

Record Acc := {
  acc_content : jstr;          (* fullContent *)
  acc_reasoning : option jstr; (* reasoning *)
  acc_usage : AIUsage          (* usage *)
}.

Definition usage0 : AIUsage := {| promptTokens := 0; completionTokens := 0; totalTokens := 0 |}.
Definition acc0 : Acc := {| acc_content := []; acc_reasoning := None; acc_usage := usage0 |}.

Definition usage_of (u : Usage) : AIUsage :=
  {| promptTokens := prompt_tokens u; completionTokens := completion_tokens u;
     totalTokens := total_tokens u |}.

Definition or_empty (o : option jstr) : jstr :=
  match o with Some s => s | None => [] end.

(** One iteration of [for await (const chunk of stream)]. *)
Definition on_stream_chunk (onChunk : bool) (acc : Acc) (chunk : Chunk) : M Acc :=
  match chunk_choice0 chunk with
  | None => ret acc                                   (* if (!choice) continue *)
  | Some delta =>
      let deltaContent :=
        match delta with Some d => or_empty (delta_content d) | None => [] end in
      let deltaReasoning :=
        match delta with Some d => delta_reasoning d | None => None end in
      (if truthy deltaContent then emit onChunk (EvContent deltaContent) else ret tt) ;;;
      ret {| acc_content :=
               if truthy deltaContent then acc_content acc ++ deltaContent
               else acc_content acc;
             acc_reasoning :=
               match deltaReasoning with
               | Some r => if truthy r then Some (or_empty (acc_reasoning acc) ++ r)
                           else acc_reasoning acc
               | None => acc_reasoning acc
               end;
             acc_usage :=
               match chunk_usage chunk with
               | Some u => usage_of u
               | None => acc_usage acc
               end |}
  end.

Fixpoint stream_loop (onChunk : bool) (chunks : list Chunk) (acc : Acc) : M Acc :=
  match chunks with
  | [] => ret acc
  | c :: r => a <- on_stream_chunk onChunk acc c ;; stream_loop onChunk r a
  end.

(** The body of the [try] block; [inl] is what it throws. *)
Definition call_streaming (env : Env) (onChunk : bool) (rq : CompletionRequest)
  : M (UpstreamError + Acc) :=
  record_request rq ;;;
  acc <- stream_loop onChunk (fst (e_stream env)) acc0 ;;
  match snd (e_stream env) with
  | Some err => ret (inl err)
  | None => emit onChunk EvDone ;;; ret (inr acc)
  end.

Definition call_buffered (env : Env) (onChunk : bool) (rq : CompletionRequest)
  : M (UpstreamError + Acc) :=
  record_request rq ;;;
  match e_completion env with
  | inl err => ret (inl err)
  | inr completion =>
      let fullContent :=
        match comp_message0 completion with Some m => or_empty (cmsg_content m) | None => [] end in
      let reasoning :=
        match comp_message0 completion with Some m => cmsg_reasoning m | None => None end in
      let usage :=
        match comp_usage completion with Some u => usage_of u | None => usage0 end in
      (if onChunk && truthy fullContent
       then emit onChunk (EvContent fullContent) ;;; emit onChunk EvDone
       else ret tt) ;;;
      ret (inr {| acc_content := fullContent; acc_reasoning := reasoning;
                  acc_usage := usage |})
  end.

(** *** [sendMessage] *)

Section Service.

(** [countTokens] as the chat service sees it: a function of the text
    (its cache independence is [Tiktoken.countTokens_deterministic]). *)
Variable countTokens : jstr -> Z.

Definition getDefaultModel : M AIModel :=
  db <- get_db ;;
  match model_findFirst_enabled db with
  | Some m => ret m
  | None => throw (ChatError (js "no enabled model") 400)
  end.

(** [initOpenAIClient]: [!baseUrl || !apiKey] is a [ChatError]. *)
Definition initOpenAIClient (m : AIModel) : M (jstr * jstr) :=
  match am_baseUrl m, am_apiKey m with
  | Some b, Some k =>
      if truthy b && truthy k then ret (b, k)
      else throw (ChatError (js "incomplete model config") 400)
  | _, _ => throw (ChatError (js "incomplete model config") 400)
  end.

Definition messagesToOpenAIFormat (ms : list OpenAIMessage) : list OpenAIMessage :=
  map (fun m => {| om_role := om_role m; om_content := om_content m |}) ms.

(** [getChatHistory(chatId, limit)]: newest [limit] rows, then reversed. *)
Definition getChatHistory (chatId : Id) (limit : nat) : M (list OpenAIMessage) :=
  db <- get_db ;;
  let rows := firstn limit (sort_desc (chat_messages db chatId)) in
  ret (map (fun m => {| om_role := msg_role m; om_content := msg_content m |}) (rev rows)).

(** [prisma.chat.create] for a new conversation. *)
Definition chat_create (userId : Id) (title : jstr) (m : AIModel) : M Id :=
  db <- get_db ;;
  let id := cuid (db_seq db) in
  put_db (bump (set_chats db (db_chats db ++
    [{| ch_id := id; ch_userId := userId; ch_title := title;
        ch_modelId := Some (am_id m); ch_modelName := Some (am_name m);
        ch_updatedAt := db_clock db |}]))) ;;;
  ret id.

(** [prisma.message.create] for the user's turn. *)
Definition user_message_create (chatId : Id) (content : jstr) : M Id :=
  db <- get_db ;;
  let row := new_message db chatId (js "USER") content None None None None None None None in
  match message_insert db row with
  | Some db' => put_db db' ;;; ret (msg_id row)
  | None => throw PrismaError
  end.

(** Chat resolution, model resolution and history (steps 1 and 3). *)
Definition resolve (userId : Id) (content : jstr) (specifiedChatId : option jstr)
  : M (Id * AIModel * list OpenAIMessage) :=
  let new_chat :=
    m <- getDefaultModel ;;
    let title := js_slice0 content 50
                 ++ (if N.ltb 50 (js_length content) then js "..." else []) in
    cid <- chat_create userId title m ;;
    ret (cid, m, []) in
  match specifiedChatId with
  | Some cid =>
      if truthy cid then
        db <- get_db ;;
        match chat_findFirst db cid userId with
        | None => throw (NotFoundError (js "chat"))
        | Some chat =>
            m <- match ch_modelId chat with
                 | Some mid =>
                     if truthy mid then
                       match model_findFirst_id db mid with
                       | Some m => ret m
                       | None => getDefaultModel
                       end
                     else getDefaultModel
                 | None => getDefaultModel
                 end ;;
            hist <- getChatHistory cid 10 ;;
            ret (cid, m, hist)
        end
      else new_chat
  | None => new_chat
  end.

(** The [catch] block: best-effort delete of the user's message, then a
    [ChatError]. *)
Definition on_upstream_error (env : Env) (userMessageId : Id) (err : UpstreamError)
  : M AIResponse :=
  log_error (js "ai call failed") ;;;
  db <- get_db ;;
  (if e_delete_ok env then
     match message_delete db userMessageId with
     | Some db' => put_db db'
     | None => ret tt                                 (* .catch(() => {}) *)
     end
   else ret tt) ;;;
  match err with
  | APIError status message =>
      throw (ChatError (js "AI service error: " ++ message)
                       (match status with Some s => s | None => 500 end))
  | OtherError => throw (ChatError (js "AI service temporarily unavailable") 503)
  end.

(** [`${msg.role}: ${msg.content}`]. *)
Definition prompt_line (m : OpenAIMessage) : jstr :=
  om_role m ++ js ": " ++ om_content m.

(** Step 8: the local usage when the provider's total is [0]. *)
Definition usage_fallback (allMessages : list OpenAIMessage) (fullContent : jstr)
    (reasoning : option jstr) (usage : AIUsage) : AIUsage :=
  if Z.eqb (totalTokens usage) 0 && Nat.ltb 0 (List.length allMessages) then
    let promptTexts := map prompt_line (firstn (List.length allMessages - 1) allMessages) in
    let p := countTokens (js_join [10%N] promptTexts) in
    let c := countTokens (fullContent ++ or_empty reasoning) in
    {| promptTokens := p; completionTokens := c; totalTokens := p + c |}
  else usage.

Definition duration_of (env : Env) : Q := Qdiv (inject_Z (e_t1 env - e_t0 env)) (inject_Z 1000).

(** Step 9: the assistant row and the chat's [updatedAt], in one
    transaction; a failure is only logged. *)
Definition persist_reply (env : Env) (chatId : Id) (m : AIModel) (fullContent : jstr)
    (reasoning : option jstr) (usage : AIUsage) : M unit :=
  db <- get_db ;;
  let row := new_message db chatId (js "ASSISTANT") fullContent reasoning
               (Some (am_name m)) (Some (am_modelId m)) (Some (duration_of env))
               (Some (promptTokens usage)) (Some (completionTokens usage))
               (Some (totalTokens usage)) in
  match (if e_tx_ok env then finalize_tx db row chatId (e_now env) else None) with
  | Some db' => put_db db'
  | None => log_error (js "save failed")
  end.

Definition sendMessage (env : Env) (userId : Id) (params : SendMessageParams)
    (onChunk : bool) : M AIResponse :=
  match parse_sendMessage params with
  | inl issues => throw (ZodError issues)
  | inr pp =>
      let content := pp_content pp in
      r <- resolve userId content (pp_chatId pp) ;;
      let '(chatId, modelConfig, existingMessages) := r in
      client <- initOpenAIClient modelConfig ;;
      let allMessages := messagesToOpenAIFormat existingMessages
                         ++ [{| om_role := js "user"; om_content := content |}] in
      userMessageId <- user_message_create chatId content ;;
      let rq := {| rq_baseUrl := fst client; rq_apiKey := snd client;
                   rq_model := am_modelId modelConfig; rq_messages := allMessages;
                   rq_stream := pp_stream pp; rq_temperature := 7 # 10;
                   rq_max_tokens := 4096 |} in
      outcome <- (if pp_stream pp then call_streaming env onChunk rq
                  else call_buffered env onChunk rq) ;;
      match outcome with
      | inl err => on_upstream_error env userMessageId err
      | inr acc =>
          let usage := usage_fallback allMessages (acc_content acc) (acc_reasoning acc)
                         (acc_usage acc) in
          persist_reply env chatId modelConfig (acc_content acc) (acc_reasoning acc) usage ;;;
          ret {| r_content := acc_content acc; r_reasoning := acc_reasoning acc;
                 r_modelId := am_modelId modelConfig; r_modelName := am_name modelConfig;
                 r_duration := duration_of env; r_usage := usage |}
      end
  end.

End Service.

End Chat.

(* ================================================================== *)
(** ** Login: [src/src/services/authService.ts], [src/src/config/index.ts] *)

Module Auth.

Definition Id := jstr.

(** A [User] row (the fields [login] reads, and the last-login fields of the
    data model). *)
Record UserRow := {
  u_id : Id;
  u_email : jstr;
  u_password : jstr;          (* bcrypt hash *)
  u_name : option jstr;
  u_lastLoginAt : option Z;
  u_lastLoginIp : option jstr
}.

(** [process.env]. *)
Definition ProcessEnv := list (string * jstr).

Fixpoint env_lookup (name : string) (pe : ProcessEnv) : option jstr :=
  match pe with
  | [] => None
  | (k, v) :: r => if String.eqb k name then Some v else env_lookup name r
  end.

(** [getEnv(name)]: a missing or empty variable is [''] . *)
Definition getEnv (pe : ProcessEnv) (name : string) : jstr :=
  match env_lookup name pe with
  | Some v => if truthy v then v else []
  | None => []
  end.

(** [config.jwt]. *)
Record JwtConfig := { jwt_secret : jstr; jwt_expiresIn : jstr }.

Definition config_jwt (pe : ProcessEnv) : JwtConfig :=
  {| jwt_secret := getEnv pe "JWT_SECRET"; jwt_expiresIn := js "7d" |}.

(** JSON values of a token payload. *)
Inductive JSONValue :=
| JStr (s : jstr)
| JNull.

Definition json_of_option (o : option jstr) : JSONValue :=
  match o with Some s => JStr s | None => JNull end.

(** [jwt.sign(payload, secret, { expiresIn })] with a non-empty secret: the
    signed token determined by its three arguments. *)
Record Token := {
  tok_payload : list (jstr * JSONValue);
  tok_secret : jstr;
  tok_expiresIn : jstr
}.

Definition jwt_sign (payload : list (jstr * JSONValue)) (secret expiresIn : jstr) : Token :=
  {| tok_payload := payload; tok_secret := secret; tok_expiresIn := expiresIn |}.

(** The user object [login] returns. *)
Record PublicUser := { pu_id : Id; pu_email : jstr; pu_name : option jstr }.

Record LoginResult := { lr_token : Token; lr_user : PublicUser }.

(** What [login] throws: an [Error] with [statusCode = 401], or the [Error]
    of [jwt.sign], which has no [statusCode]. *)
Record AuthFailure := { af_message : jstr; af_statusCode : option Z }.

Definition msg_login_no_user : jstr := [0x7528; 0x6237; 0x4E0D; 0x5B58; 0x5728]%N. (* '用户不存在' *)
Definition msg_login_bad_password : jstr := [0x5BC6; 0x7801; 0x9519; 0x8BEF]%N.    (* '密码错误' *)

(** [jsonwebtoken]'s [sign] throws this when the secret is empty. *)
Definition msg_sign_no_secret : jstr := js "secretOrPrivateKey must have a value".

Section Login.

(** [bcrypt.compare(password, hash)]. *)
Variable bcrypt_compare : jstr -> jstr -> bool.

(** [prisma.user.findUnique({ where: { email } })]. *)
Definition user_findUnique (users : list UserRow) (email : jstr) : option UserRow :=
  find (fun u => jstr_eqb (u_email u) email) users.

(** [login(email, password)]: the user table is passed through, since the
    function writes nothing. *)
Definition login (pe : ProcessEnv) (users : list UserRow) (email password : jstr)
  : (AuthFailure + LoginResult) * list UserRow :=
  match user_findUnique users email with
  | None => (inl {| af_message := msg_login_no_user; af_statusCode := Some 401 |}, users)
  | Some user =>
      if bcrypt_compare password (u_password user) then
        if truthy (jwt_secret (config_jwt pe)) then
          let token := jwt_sign [(js "userId", JStr (u_id user));
                                 (js "name", json_of_option (u_name user))]
                                (jwt_secret (config_jwt pe))
                                (jwt_expiresIn (config_jwt pe)) in
          (inr {| lr_token := token;
                  lr_user := {| pu_id := u_id user; pu_email := u_email user;
                                pu_name := u_name user |} |}, users)
        else (inl {| af_message := msg_sign_no_secret; af_statusCode := None |}, users)
      else (inl {| af_message := msg_login_bad_password; af_statusCode := Some 401 |}, users)
  end.

End Login.

(** The payload the token verifier reads back ([JWTPayload] of the auth
    middleware: [userId], [name], [email]). *)
Definition payload_field (t : Token) (k : jstr) : option JSONValue :=
  match find (fun kv => jstr_eqb (fst kv) k) (tok_payload t) with
  | Some kv => Some (snd kv)
  | None => None
  end.

End Auth.

(* ================================================================== *)
(** ** Chat management services: [src/unnamed/part_009] *)

Module ChatCrud.
Import Chat.

(** Fixed texts of the service, as UTF-16 code units. *)
Definition default_title : jstr := [0x65B0; 0x5BF9; 0x8BDD]%N.     (* '新对话' *)
Definition chat_resource : jstr := [0x5BF9; 0x8BDD]%N.              (* '对话' *)
Definition msg_title_empty : jstr :=                                (* '标题不能为空' *)
  [0x6807; 0x9898; 0x4E0D; 0x80FD; 0x4E3A; 0x7A7A]%N.
Definition msg_title_long : jstr :=                                 (* '标题不能超过255个字符' *)
  [0x6807; 0x9898; 0x4E0D; 0x80FD; 0x8D85; 0x8FC7]%N ++ js "255" ++ [0x4E2A; 0x5B57; 0x7B26]%N.
Definition msg_model_unavailable : jstr :=                          (* '指定的模型不存在或已禁用' *)
  [0x6307; 0x5B9A; 0x7684; 0x6A21; 0x578B; 0x4E0D; 0x5B58; 0x5728; 0x6216; 0x5DF2;
   0x7981; 0x7528]%N.

(** *** [createChat] *)

(** [CreateChatParams] as the caller hands it in: [title] and [modelId] when
    present. *)
Record CreateChatParams := {
  cc_title : option jstr;
  cc_modelId : option jstr
}.

(** [z.string().trim().min(1, ..).max(255, ..)] on [title]. *)
Definition title_issues (raw : jstr) : list ZodIssue :=
  let v := js_trim raw in
  (if N.ltb (js_length v) 1
   then [{| zi_path := [js "title"]; zi_message := msg_title_empty |}] else [])
  ++ (if N.ltb 255 (js_length v)
      then [{| zi_path := [js "title"]; zi_message := msg_title_long |}] else []).

(** [createChatSchema.parse(params)]: an absent [title] is the default
    ([.optional().default('新对话')]); [modelId] passes through. *)
Definition parse_createChat (p : CreateChatParams) : list ZodIssue + (jstr * option jstr) :=
  match cc_title p with
  | None => inr (default_title, cc_modelId p)
  | Some t =>
      match title_issues t with
      | [] => inr (js_trim t, cc_modelId p)
      | iss => inl iss
      end
  end.

(** What [createChat] returns. *)
Record CreatedChat := {
  cr_id : Id;
  cr_title : jstr;
  cr_model_id : Id;
  cr_model_name : jstr;
  cr_model_modelId : jstr;
  cr_createdAt : Z
}.

Definition createChat (userId : Id) (params : CreateChatParams) : M CreatedChat :=
  match parse_createChat params with
  | inl issues => throw (ZodError issues)
  | inr (title, specifiedModelId) =>
      modelConfig <-
        match specifiedModelId with
        | Some mid =>
            if truthy mid then
              db <- get_db ;;
              match model_findFirst_id db mid with
              | Some m => ret m
              | None => throw (ChatError msg_model_unavailable 400)
              end
            else getDefaultModel
        | None => getDefaultModel
        end ;;
      db <- get_db ;;
      id <- chat_create userId title modelConfig ;;
      ret {| cr_id := id; cr_title := title; cr_model_id := am_id modelConfig;
             cr_model_name := am_name modelConfig; cr_model_modelId := am_modelId modelConfig;
             cr_createdAt := db_clock db |}
  end.

(** *** [getChat] *)

(** The chat row with its messages ([orderBy: { createdAt: 'desc' }]). *)
Record ChatDetail := { cd_chat : ChatRow; cd_messages : list MessageRow }.

Definition getChat (userId chatId : Id) : M ChatDetail :=
  db <- get_db ;;
  match chat_findFirst db chatId userId with
  | None => throw (NotFoundError chat_resource)
  | Some chat => ret {| cd_chat := chat; cd_messages := sort_desc (chat_messages db (ch_id chat)) |}
  end.

(** *** [deleteChat] *)

Section Delete.

(** [prisma.chat.delete({ where: { id } })]: its effect on the rows is fixed
    by the relation's referential actions in the Prisma schema, which is not
    part of the sources; [None] is a thrown Prisma error. *)
Variable chat_delete : DB -> Id -> option DB.

Definition deleteChat (userId chatId : Id) : M bool :=
  db <- get_db ;;
  match chat_findFirst db chatId userId with
  | None => throw (NotFoundError chat_resource)
  | Some _ =>
      match chat_delete db chatId with
      | Some db' => put_db db' ;;; ret true
      | None => throw PrismaError
      end
  end.

End Delete.

(** *** [getChatList] *)

(** A JavaScript number: a finite one (a rational, as every finite double
    is), [NaN], or an infinity ([true] for [Infinity], [false] for
    [-Infinity]). *)
Inductive JsNumber := JsFinite (q : Q) | JsNaN | JsInfinity (positive : bool).

(** The query parameters after [z.coerce.number()] has turned each present
    string into a number with [Number(...)] ([Number('abc')] is [NaN],
    [Number('Infinity')] an infinity). *)
Record ChatListParams := {
  gp_page : option JsNumber;
  gp_pageSize : option JsNumber
}.

Definition Q_is_int (q : Q) : bool := Z.eqb (Z.modulo (Qnum q) (Zpos (Qden q))) 0.

(** zod 3's default messages of the checks used here. *)
Definition zod_msg_nan : jstr := js "Expected number, received nan".
Definition zod_msg_int : jstr := js "Expected integer, received float".
Definition zod_msg_min1 : jstr := js "Number must be greater than or equal to 1".
Definition zod_msg_max100 : jstr := js "Number must be less than or equal to 100".

(** [z.coerce.number().int().min(1)] and, with [max = Some 100],
    [.max(100)]: [NaN] fails the type check and nothing else is checked;
    otherwise every failing check is reported, in the order [int], [min],
    [max] ([Number.isInteger] is false on the infinities). *)
Definition number_issues (field : string) (max : option Z) (n : JsNumber) : list ZodIssue :=
  let issue m := {| zi_path := [js field]; zi_message := m |} in
  match n with
  | JsNaN => [issue zod_msg_nan]
  | JsFinite q =>
      (if Q_is_int q then [] else [issue zod_msg_int])
      ++ (if Qle_bool 1 q then [] else [issue zod_msg_min1])
      ++ (match max with
          | Some m => if Qle_bool q (inject_Z m) then [] else [issue zod_msg_max100]
          | None => []
          end)
  | JsInfinity pos =>
      [issue zod_msg_int]
      ++ (if pos then [] else [issue zod_msg_min1])
      ++ (match max with
          | Some _ => if pos then [issue zod_msg_max100] else []
          | None => []
          end)
  end.

(** [.default(1)] and [.default(20)] apply to absent values. *)
Definition chatList_page (p : ChatListParams) : JsNumber :=
  match gp_page p with Some n => n | None => JsFinite 1 end.

Definition chatList_pageSize (p : ChatListParams) : JsNumber :=
  match gp_pageSize p with Some n => n | None => JsFinite 20 end.

(** [getChatListSchema.parse(params)]. Without an issue both numbers are
    finite integers; the last branch is not reached. *)
Definition parse_chatList (p : ChatListParams) : list ZodIssue + (Z * Z) :=
  match number_issues "page" None (chatList_page p)
        ++ number_issues "pageSize" (Some 100) (chatList_pageSize p) with
  | [] =>
      match chatList_page p, chatList_pageSize p with
      | JsFinite page, JsFinite pageSize => inr (Qfloor page, Qfloor pageSize)
      | _, _ => inl []
      end
  | iss => inl iss
  end.

(** [orderBy: { updatedAt: 'desc' }], as a stable insertion sort. The
    database orders chats with equal [updatedAt] in an order of its own,
    which this sort fixes one way; facts about the order below assume the
    user's chats have distinct [updatedAt]. *)
Fixpoint insert_chat_desc (c : ChatRow) (l : list ChatRow) : list ChatRow :=
  match l with
  | [] => [c]
  | x :: r => if Z.ltb (ch_updatedAt x) (ch_updatedAt c) then c :: l
              else x :: insert_chat_desc c r
  end.

Fixpoint sort_chats_desc (l : list ChatRow) : list ChatRow :=
  match l with
  | [] => []
  | x :: r => insert_chat_desc x (sort_chats_desc r)
  end.

(** [where: { userId }]. *)
Definition user_chats (db : DB) (userId : Id) : list ChatRow :=
  filter (fun c => jstr_eqb (ch_userId c) userId) (db_chats db).

(** [getChatListQuery(userId, page, pageSize)] run by [prisma.chat.findMany]. *)
Definition getChatListQuery (db : DB) (userId : Id) (page pageSize : Z) : list ChatRow :=
  firstn (Z.to_nat pageSize)
    (skipn (Z.to_nat ((page - 1) * pageSize)) (sort_chats_desc (user_chats db userId))).

(** [messages[0]] of the query: [role], [content], [createdAt]. *)
Record LastMessage := { lm_role : jstr; lm_content : jstr; lm_createdAt : Z }.

(** An entry of [formatChatList] (the chat's [createdAt] is not modelled). *)
Record ChatListItem := {
  li_id : Id;
  li_title : jstr;
  li_messageCount : Z;
  li_lastMessage : option LastMessage;
  li_updatedAt : Z
}.

Definition formatChat (db : DB) (c : ChatRow) : ChatListItem :=
  {| li_id := ch_id c; li_title := ch_title c;
     li_messageCount := Z.of_nat (List.length (chat_messages db (ch_id c)));
     li_lastMessage :=
       match sort_desc (chat_messages db (ch_id c)) with
       | m :: _ => Some {| lm_role := msg_role m; lm_content := msg_content m;
                           lm_createdAt := msg_createdAt m |}
       | [] => None
       end;
     li_updatedAt := ch_updatedAt c |}.

Definition formatChatList (db : DB) (chats : list ChatRow) : list ChatListItem :=
  map (formatChat db) chats.

Record ChatList := {
  cl_list : list ChatListItem;
  cl_page : Z;
  cl_pageSize : Z;
  cl_total : Z;
  cl_totalPages : Z
}.

Definition getChatList (userId : Id) (params : ChatListParams) : M ChatList :=
  match parse_chatList params with
  | inl issues => throw (ZodError issues)
  | inr (page, pageSize) =>
      db <- get_db ;;
      let chats := getChatListQuery db userId page pageSize in
      let total := Z.of_nat (List.length (user_chats db userId)) in
      ret {| cl_list := formatChatList db chats; cl_page := page; cl_pageSize := pageSize;
             cl_total := total;
             cl_totalPages := Qceiling (inject_Z total / inject_Z pageSize) |}
  end.

End ChatCrud.

(* ================================================================== *)
(** ** The chat controller: [src/src/services/authService.ts] *)

Module Http.
Import Chat ChatCrud.

(** Fixed texts of the controller, as UTF-16 code units. *)
Definition validation_failed : jstr :=                      (* '参数校验失败: ' *)
  [0x53C2; 0x6570; 0x6821; 0x9A8C; 0x5931; 0x8D25]%N ++ js ": ".
Definition not_exists : jstr := [0x4E0D; 0x5B58; 0x5728]%N.  (* '不存在' *)
Definition server_error : jstr :=                           (* '服务器错误' *)
  [0x670D; 0x52A1; 0x5668; 0x9519; 0x8BEF]%N.
Definition not_logged_in : jstr := [0x672A; 0x767B; 0x5F55]%N. (* '未登录' *)

(** *** [handleError] *)

(** [reply.code(status).send({ code, message })]. *)
Record HttpReply := { hr_status : Z; hr_code : Z; hr_message : jstr }.

(** [`${issue.path.join('.')}: ${issue.message}`]. *)
Definition issue_line (i : ZodIssue) : jstr :=
  js_join (js ".") (zi_path i) ++ js ": " ++ zi_message i.

(** [NotFoundError] carries [`${resource}不存在`] and [404]; [ChatError] its
    own [statusCode]. *)
Definition handleError (e : ServiceError) : HttpReply :=
  match e with
  | ZodError issues =>
      {| hr_status := 400; hr_code := 400;
         hr_message := validation_failed ++ js_join (js "; ") (map issue_line issues) |}
  | NotFoundError resource => {| hr_status := 404; hr_code := 404; hr_message := resource ++ not_exists |}
  | ChatError message statusCode =>
      {| hr_status := statusCode; hr_code := statusCode; hr_message := message |}
  | PrismaError => {| hr_status := 500; hr_code := 500; hr_message := server_error |}
  end.

(** *** The JSON routes *)

(** What a route sends: its data with the success status, or an error reply. *)
Inductive Response (A : Type) :=
| Data (status : Z) (data : A)
| Failure (reply : HttpReply).
Arguments Data {A} status data.
Arguments Failure {A} reply.

Definition unauthorized : HttpReply :=
  {| hr_status := 401; hr_code := 401; hr_message := not_logged_in |}.

(** The shape every JSON route of [ChatController] shares: [if (!userId)]
    answers 401, the service call's exception goes to [handleError]. *)
Definition controller {A} (userId : option Id) (okStatus : Z) (call : Id -> M A) (w : World)
  : Response A * World :=
  match userId with
  | Some u =>
      if truthy u then
        match call u w with
        | (inr a, w') => (Data okStatus a, w')
        | (inl e, w') => (Failure (handleError e), w')
        end
      else (Failure unauthorized, w)
  | None => (Failure unauthorized, w)
  end.

(** [GET /api/chat/], [GET /api/chat/:chatId], [POST /api/chat/] (201) and
    [DELETE /api/chat/:chatId]. *)
Definition route_list (userId : option Id) (q : ChatListParams) :=
  controller userId 200 (fun u => getChatList u q).
Definition route_detail (userId : option Id) (chatId : Id) :=
  controller userId 200 (fun u => getChat u chatId).
Definition route_create (userId : option Id) (body : CreateChatParams) :=
  controller userId 201 (fun u => createChat u body).
Definition route_delete (chat_delete : DB -> Id -> option DB) (userId : option Id) (chatId : Id) :=
  controller userId 200 (fun u => deleteChat chat_delete u chatId).

(** *** [toSSE] and [JSON.stringify] of strings *)

(** [UnicodeEscape]: [\u] and four lowercase hexadecimal digits. *)
Definition hex_digit (d : N) : N := if N.ltb d 10 then 48 + d else 87 + d.

Definition hex4 (c : N) : jstr :=
  [hex_digit (c / 16 / 16 / 16 mod 16); hex_digit (c / 16 / 16 mod 16);
   hex_digit (c / 16 mod 16); hex_digit (c mod 16)].

Definition unicode_escape (c : N) : jstr := [92; 117]%N ++ hex4 c.

Definition is_leading (c : N) : bool := N.leb 0xD800 c && N.leb c 0xDBFF.
Definition is_trailing (c : N) : bool := N.leb 0xDC00 c && N.leb c 0xDFFF.

(** The escapes of [QuoteJSONString] for a code point that is not a
    surrogate: the short escapes of its table, [\u] for the other control
    characters, the character itself otherwise. *)
Definition escape_unit (c : N) : jstr :=
  if N.eqb c 8 then [92; 98]%N
  else if N.eqb c 9 then [92; 116]%N
  else if N.eqb c 10 then [92; 110]%N
  else if N.eqb c 12 then [92; 102]%N
  else if N.eqb c 13 then [92; 114]%N
  else if N.eqb c 34 then [92; 34]%N
  else if N.eqb c 92 then [92; 92]%N
  else if N.ltb c 32 then unicode_escape c
  else [c].

(** [QuoteJSONString] over the code points of the string: a surrogate pair is
    copied, a lone surrogate is escaped. *)
Fixpoint quote_units (s : jstr) : jstr :=
  match s with
  | [] => []
  | c :: r =>
      if is_leading c then
        match r with
        | d :: r' => if is_trailing d then c :: d :: quote_units r'
                     else unicode_escape c ++ quote_units r
        | [] => unicode_escape c
        end
      else if is_trailing c then unicode_escape c ++ quote_units r
      else escape_unit c ++ quote_units r
  end.

(** [JSON.stringify(s)] for a string [s]. *)
Definition json_quote (s : jstr) : jstr := [34%N] ++ quote_units s ++ [34%N].

(** [JSON.stringify({ type, content })] for two strings. *)
Definition json_type_content (type content : jstr) : jstr :=
  js "{" ++ json_quote (js "type") ++ js ":" ++ json_quote type ++ js ","
  ++ json_quote (js "content") ++ js ":" ++ json_quote content ++ js "}".

Definition lf2 : jstr := [10; 10]%N.

Definition toSSE (data : StreamEvent) : jstr :=
  match data with
  | EvDone => js "data: [DONE]" ++ lf2
  | EvError message => js "data: " ++ json_type_content (js "error") message ++ lf2
  | EvContent content => js "data: " ++ json_type_content (js "content") content ++ lf2
  end.

End Http.

(* ================================================================== *)
(** ** The reading side of the event stream (RFC 8259 strings) *)

Module SseClient.
Import Chat Http.

Definition hex_val (c : N) : option N :=
  if N.leb 48 c && N.leb c 57 then Some (c - 48)%N
  else if N.leb 97 c && N.leb c 102 then Some (c - 87)%N
  else if N.leb 65 c && N.leb c 70 then Some (c - 55)%N
  else None.

(** The character a two-character escape stands for. *)
Definition short_escape (e : N) : option N :=
  if N.eqb e 34 then Some 34%N
  else if N.eqb e 92 then Some 92%N
  else if N.eqb e 47 then Some 47%N
  else if N.eqb e 98 then Some 8%N
  else if N.eqb e 102 then Some 12%N
  else if N.eqb e 110 then Some 10%N
  else if N.eqb e 114 then Some 13%N
  else if N.eqb e 116 then Some 9%N
  else None.

Definition cons_fst (c : N) (o : option (jstr * jstr)) : option (jstr * jstr) :=
  match o with Some (s, rest) => Some (c :: s, rest) | None => None end.

(** The characters of a JSON string after its opening quote, up to the
    closing quote: the decoded string and what follows. *)
Fixpoint string_chars (s : jstr) : option (jstr * jstr) :=
  match s with
  | [] => None
  | c :: r =>
      if N.eqb c 34 then Some ([], r)
      else if N.eqb c 92 then
        match r with
        | e :: r1 =>
            if N.eqb e 117 then
              match r1 with
              | a :: b :: c' :: d :: r2 =>
                  match hex_val a, hex_val b, hex_val c', hex_val d with
                  | Some va, Some vb, Some vc, Some vd =>
                      cons_fst (((va * 16 + vb) * 16 + vc) * 16 + vd)%N (string_chars r2)
                  | _, _, _, _ => None
                  end
              | _ => None
              end
            else match short_escape e with
                 | Some v => cons_fst v (string_chars r1)
                 | None => None
                 end
        | [] => None
        end
      else if N.ltb c 32 then None
      else cons_fst c (string_chars r)
  end.

Definition parse_string (s : jstr) : option (jstr * jstr) :=
  match s with
  | c :: r => if N.eqb c 34 then string_chars r else None
  | [] => None
  end.

Fixpoint strip_prefix (p s : jstr) : option jstr :=
  match p, s with
  | [], _ => Some s
  | a :: p', b :: s' => if N.eqb a b then strip_prefix p' s' else None
  | _ :: _, [] => None
  end.

(** A frame [data: {"type":<type>,"content":<string>}] followed by a blank
    line: the string it carries. *)
Definition read_frame (type : jstr) (frame : jstr) : option jstr :=
  match strip_prefix (js "data: " ++ js "{" ++ json_quote (js "type") ++ js ":"
                      ++ json_quote type ++ js "," ++ json_quote (js "content") ++ js ":") frame with
  | Some rest =>
      match parse_string rest with
      | Some (v, tail) => if jstr_eqb tail (js "}" ++ lf2) then Some v else None
      | None => None
      end
  | None => None
  end.

End SseClient.

(* ================================================================== *)
(** ** The streaming route: [src/src/services/authService.ts] *)

Module SseRoute.
Import Chat Http.

(** What [POST /api/chat/message] leaves on the connection: a JSON error
    reply before the stream opens, a stream of frames closed by
    [reply.raw.end()], or frames followed by [handleError]'s reply. *)
Inductive SseOutcome :=
| SseRejected (reply : HttpReply)
| SseEnded (frames : list jstr)
| SseReplied (frames : list jstr) (reply : HttpReply).

Section Route.

(** The token counter [sendMessage] uses. *)
Variable countTokens : jstr -> Z.
(** [JSON.stringify(result)] of an [AIResponse] (numbers, [null]s and the
    nested usage object as JSON writes them). *)
Variable stringify_response : AIResponse -> jstr.
(** [reply.sent] in the [catch] block, once [reply.raw.write] has opened the
    stream (it depends on the Fastify version). *)
Variable reply_sent : bool.

(** [`data: ${JSON.stringify({ type: 'meta', data: result })}\n\n`]. *)
Definition meta_frame (r : AIResponse) : jstr :=
  js "data: " ++ js "{" ++ json_quote (js "type") ++ js ":" ++ json_quote (js "meta") ++ js ","
  ++ json_quote (js "data") ++ js ":" ++ stringify_response r ++ js "}" ++ lf2.

(** The events [onChunk] received during a call: those appended to the
    world's event list. *)
Definition new_events (w w' : World) : list StreamEvent :=
  skipn (List.length (w_events w)) (w_events w').

(** [ChatController.sendMessage]: the opening empty content frame, one
    [toSSE(chunk)] per callback, then the meta frame; in the [catch] block an
    error frame ([ChatError]'s message, otherwise '服务器错误') when
    [reply.sent], and [handleError] otherwise. *)
Definition route_sendMessage (env : Env) (userId : option Id) (params : SendMessageParams)
    (w : World) : SseOutcome * World :=
  match userId with
  | Some u =>
      if truthy u then
        let opening := toSSE (EvContent []) in
        match sendMessage countTokens env u params true w with
        | (inr r, w') => (SseEnded (opening :: map toSSE (new_events w w') ++ [meta_frame r]), w')
        | (inl e, w') =>
            let frames := opening :: map toSSE (new_events w w') in
            if reply_sent then
              let message := match e with ChatError m _ => m | _ => server_error end in
              (SseEnded (frames ++ [toSSE (EvError message)]), w')
            else (SseReplied frames (handleError e), w')
        end
      else (SseRejected unauthorized, w)
  | None => (SseRejected unauthorized, w)
  end.

End Route.

(** A client of the stream: the concatenated strings of the frames
    [data: {"type":"content","content":...}], other frames skipped. *)
Definition frames_content (frames : list jstr) : jstr :=
  List.concat (map (fun f => match SseClient.read_frame (js "content") f with
                             | Some s => s
                             | None => []
                             end) frames).

End SseRoute.

(* ================================================================== *)
(** ** The authentication middleware: [src/src/middleware/auth.ts] *)

Module AuthMiddleware.
Import Auth.

(** [String.prototype.split(sep)] for a one-unit separator: [''.split(' ')]
    is [['']], and adjacent separators give empty parts. *)
Fixpoint js_split (sep : N) (s : jstr) : list jstr :=
  match s with
  | [] => [[]]
  | c :: r =>
      let parts := js_split sep r in
      if N.eqb c sep then [] :: parts
      else match parts with
           | p :: ps => (c :: p) :: ps
           | [] => [[c]]
           end
  end.

(** [BusinessError(message, statusCode)]: [code] keeps its default 400. *)
Record BusinessError := { be_message : jstr; be_statusCode : Z; be_code : Z }.

Definition business_error (message : jstr) (statusCode : Z) : BusinessError :=
  {| be_message := message; be_statusCode := statusCode; be_code := 400 |}.

(** The messages of [authenticate], as UTF-16 code units. *)
Definition msg_no_token : jstr :=                 (* '未提供认证令牌' *)
  [0x672A; 0x63D0; 0x4F9B; 0x8BA4; 0x8BC1; 0x4EE4; 0x724C]%N.
Definition msg_bad_format : jstr :=               (* '认证令牌格式无效，请使用 Bearer 格式' *)
  [0x8BA4; 0x8BC1; 0x4EE4; 0x724C; 0x683C; 0x5F0F; 0x65E0; 0x6548; 0xFF0C;
   0x8BF7; 0x4F7F; 0x7528]%N ++ js " Bearer " ++ [0x683C; 0x5F0F]%N.
Definition msg_empty_token : jstr :=              (* '认证令牌不能为空' *)
  [0x8BA4; 0x8BC1; 0x4EE4; 0x724C; 0x4E0D; 0x80FD; 0x4E3A; 0x7A7A]%N.
Definition msg_jwt_config : jstr :=               (* 'JWT 配置错误' *)
  js "JWT " ++ [0x914D; 0x7F6E; 0x9519; 0x8BEF]%N.
Definition msg_expired : jstr :=                  (* '认证令牌已过期，请重新登录' *)
  [0x8BA4; 0x8BC1; 0x4EE4; 0x724C; 0x5DF2; 0x8FC7; 0x671F; 0xFF0C;
   0x8BF7; 0x91CD; 0x65B0; 0x767B; 0x5F55]%N.
Definition msg_invalid : jstr :=                  (* '认证令牌无效' *)
  [0x8BA4; 0x8BC1; 0x4EE4; 0x724C; 0x65E0; 0x6548]%N.
Definition msg_auth_failed : jstr :=              (* '认证失败' *)
  [0x8BA4; 0x8BC1; 0x5931; 0x8D25]%N.

(** What [jwt.verify(token, secret)] does: the decoded token, or one of the
    errors [authenticate] tells apart. *)
Inductive VerifyOutcome :=
| Verified (t : Token)
| TokenExpiredError
| JsonWebTokenError
| OtherVerifyError.

(** [request.user]: the three fields read off the payload ([None]:
    [undefined]). *)
Record RequestUser := {
  ru_userId : option JSONValue;
  ru_name : option JSONValue;
  ru_email : option JSONValue
}.

Section Authenticate.

Variable jwt_verify : jstr -> jstr -> VerifyOutcome.

(** The [try] block of [authenticate]: the secret check, [jwt.verify] and
    the mapping of its errors. *)
Definition verify_token (pe : ProcessEnv) (token : jstr) : BusinessError + RequestUser :=
  let secret := jwt_secret (config_jwt pe) in
  if negb (truthy secret) then inl (business_error msg_jwt_config 500)
  else
    match jwt_verify token secret with
    | Verified payload =>
        inr {| ru_userId := payload_field payload (js "userId");
               ru_name := payload_field payload (js "name");
               ru_email := payload_field payload (js "email") |}
    | TokenExpiredError => inl (business_error msg_expired 401)
    | JsonWebTokenError => inl (business_error msg_invalid 401)
    | OtherVerifyError => inl (business_error msg_auth_failed 401)
    end.

(** [authenticate(request)]: [inl] is the [BusinessError] it throws, [inr]
    the [request.user] it sets. *)
Definition authenticate (pe : ProcessEnv) (authorization : option jstr)
  : BusinessError + RequestUser :=
  match authorization with
  | None => inl (business_error msg_no_token 401)
  | Some authHeader =>
      if negb (truthy authHeader) then inl (business_error msg_no_token 401)
      else
        match js_split 32 authHeader with
        | [p0; token] =>
            if negb (jstr_eqb p0 (js "Bearer")) then inl (business_error msg_bad_format 401)
            else if negb (truthy token) then inl (business_error msg_empty_token 401)
            else verify_token pe token
        | _ => inl (business_error msg_bad_format 401)
        end
  end.

End Authenticate.
End AuthMiddleware.

(* ================================================================== *)
(** ** Passwords: [src/unnamed/part_008] and the user routes *)

Module UserPassword.
Import Auth Http.

(** The replies of [UserController.changePassword], as UTF-16 code units. *)
Definition msg_passwords_required : jstr :=       (* '旧密码和新密码不能为空' *)
  [0x65E7; 0x5BC6; 0x7801; 0x548C; 0x65B0; 0x5BC6; 0x7801; 0x4E0D; 0x80FD; 0x4E3A; 0x7A7A]%N.
Definition msg_wrong_old_password : jstr :=       (* '原密码错误' *)
  [0x539F; 0x5BC6; 0x7801; 0x9519; 0x8BEF]%N.
Definition msg_password_changed : jstr :=         (* '密码修改成功' *)
  [0x5BC6; 0x7801; 0x4FEE; 0x6539; 0x6210; 0x529F]%N.

(** [request.body ?? {}] of [POST /api/user/password] ([None]: absent). *)
Record PasswordBody := { pb_oldPassword : option jstr; pb_newPassword : option jstr }.

Section Password.

(** [bcrypt.compare(password, hash)] and [bcrypt.hash(password, 10)], the
    latter with the random salt it draws made an argument. *)
Variable bcrypt_compare : jstr -> jstr -> bool.
Variable bcrypt_hash : jstr -> jstr -> jstr.

(** [prisma.user.findUnique({ where: { id } })]. *)
Definition user_findUnique_id (users : list UserRow) (id : Id) : option UserRow :=
  find (fun u => jstr_eqb (u_id u) id) users.

(** [verifyPassword(userId, password)]: [false] for an unknown user. *)
Definition verifyPassword (users : list UserRow) (userId password : jstr) : bool :=
  match user_findUnique_id users userId with
  | None => false
  | Some user => bcrypt_compare password (u_password user)
  end.

Definition set_password (u : UserRow) (hashed : jstr) : UserRow :=
  {| u_id := u_id u; u_email := u_email u; u_password := hashed; u_name := u_name u;
     u_lastLoginAt := u_lastLoginAt u; u_lastLoginIp := u_lastLoginIp u |}.

(** [prisma.user.update({ where: { id }, data: { password } })]: [None] is
    the error it throws when no row has that id. *)
Definition user_update_password (users : list UserRow) (id hashed : jstr)
  : option (list UserRow) :=
  if existsb (fun u => jstr_eqb (u_id u) id) users
  then Some (map (fun u => if jstr_eqb (u_id u) id then set_password u hashed else u) users)
  else None.

(** [changePassword(userId, newPassword)]. *)
Definition changePassword (users : list UserRow) (userId newPassword salt : jstr)
  : option (list UserRow) :=
  user_update_password users userId (bcrypt_hash newPassword salt).

Definition reply (status code : Z) (message : jstr) : HttpReply :=
  {| hr_status := status; hr_code := code; hr_message := message |}.

(** [UserController.changePassword]: the reply and the user table after it
    ([handleError] answers a thrown Prisma error with 500). *)
Definition route_changePassword (userId : option Id) (body : PasswordBody) (salt : jstr)
    (users : list UserRow) : HttpReply * list UserRow :=
  match userId with
  | Some u =>
      if truthy u then
        match pb_oldPassword body, pb_newPassword body with
        | Some oldPassword, Some newPassword =>
            if truthy oldPassword && truthy newPassword then
              if verifyPassword users u oldPassword then
                match changePassword users u newPassword salt with
                | Some users' => (reply 200 0 msg_password_changed, users')
                | None => (reply 500 500 server_error, users)
                end
              else (reply 400 400 msg_wrong_old_password, users)
            else (reply 400 400 msg_passwords_required, users)
        | _, _ => (reply 400 400 msg_passwords_required, users)
        end
      else (unauthorized, users)
  | None => (unauthorized, users)
  end.

End Password.
End UserPassword.

(* ================================================================== *)
(** ** User statistics: [src/unnamed/part_008] *)

Module UserStatsM.
Import Chat ChatCrud AuthMiddleware.

(** The token totals of a [User] row that [getUserStats] selects. *)
Record UserTotals := {
  ut_id : Id;
  ut_totalPromptTokens : Z;
  ut_totalCompletionTokens : Z;
  ut_totalTokens : Z
}.

Record UserStats := {
  us_totalChats : Z;
  us_totalMessages : Z;
  us_promptTokens : Z;
  us_completionTokens : Z;
  us_totalTokens : Z
}.

Definition msg_user_not_found : jstr := [0x7528; 0x6237; 0x4E0D; 0x5B58; 0x5728]%N. (* '用户不存在' *)

(** [prisma.message.count({ where: { chat: { userId } } })]: the messages
    whose chat belongs to the user. *)
Definition message_of_user (db : DB) (userId : Id) (m : MessageRow) : bool :=
  match find (fun c => jstr_eqb (ch_id c) (msg_chatId m)) (db_chats db) with
  | Some c => jstr_eqb (ch_userId c) userId
  | None => false
  end.

(** [getUserStats(userId)]: the three queries of its [Promise.all], then the
    [BusinessError] for an unknown user. *)
Definition getUserStats (users : list UserTotals) (db : DB) (userId : Id)
  : BusinessError + UserStats :=
  let user := find (fun u => jstr_eqb (ut_id u) userId) users in
  let totalChats := Z.of_nat (List.length (filter (fun c => jstr_eqb (ch_userId c) userId) (db_chats db))) in
  let totalMessages := Z.of_nat (List.length (filter (message_of_user db userId) (db_messages db))) in
  match user with
  | None => inl (business_error msg_user_not_found 404)
  | Some u =>
      inr {| us_totalChats := totalChats; us_totalMessages := totalMessages;
             us_promptTokens := ut_totalPromptTokens u;
             us_completionTokens := ut_totalCompletionTokens u;
             us_totalTokens := ut_totalTokens u |}
  end.

End UserStatsM.

(* ================================================================== *)
(** ** Sample data for concrete runs *)

Module Samples.
Import Chat.

(** A tokenizer standing in for cl100k_base in concrete runs. *)
Definition count_units (s : jstr) : Z := Z.of_nat (List.length s).

Definition model1 : AIModel :=
  {| am_id := js "m1"; am_name := js "GPT-4o"; am_modelId := js "gpt-4o";
     am_provider := js "openai"; am_baseUrl := Some (js "https://api");
     am_apiKey := Some (js "sk"); am_enabled := true |}.

Definition db_empty : DB :=
  {| db_models := [model1]; db_chats := []; db_messages := []; db_seq := 0; db_clock := 0 |}.

Definition world_of (db : DB) : World :=
  {| w_db := db; w_events := []; w_requests := []; w_log := [] |}.

Definition text_chunk (s : string) (u : option Usage) : Chunk :=
  {| chunk_choice0 := Some (Some {| delta_content := Some (js s); delta_reasoning := None |});
     chunk_usage := u |}.

Definition env_of (stream : list Chunk * option UpstreamError)
    (completion : UpstreamError + Completion) : Env :=
  {| e_stream := stream; e_completion := completion; e_t0 := 1000; e_t1 := 2500;
     e_now := 77; e_delete_ok := true; e_tx_ok := true |}.

Definition user1 : jstr := js "u1".

Definition params_new (content : jstr) (stream : option bool) : SendMessageParams :=
  {| p_content := content; p_chatId := None; p_stream := stream |}.

(** Observations on a stream, as the claims speak of them. *)

(** [choice.delta?.content ?? ''] of a chunk ([''] without a choice). *)
Definition chunk_delta_content (c : Chunk) : jstr :=
  match chunk_choice0 c with
  | Some (Some d) => or_empty (delta_content d)
  | _ => []
  end.

(** The non-empty content deltas, in arrival order. *)
Definition content_deltas (cs : list Chunk) : list jstr :=
  filter truthy (map chunk_delta_content cs).

(** The usage of the last chunk that carries one. *)
Definition last_usage (cs : list Chunk) : option Usage :=
  fold_left (fun acc c => match chunk_usage c with Some u => Some u | None => acc end) cs None.

(** The reasoning text a stream carries ([None] when it carries none). *)
Definition chunk_delta_reasoning (c : Chunk) : jstr :=
  match chunk_choice0 c with
  | Some (Some d) => or_empty (delta_reasoning d)
  | _ => []
  end.

Definition stream_reasoning (cs : list Chunk) : option jstr :=
  match filter truthy (map chunk_delta_reasoning cs) with
  | [] => None
  | rs => Some (List.concat rs)
  end.

(** A world with events appended. *)
Definition add_events (w : World) (evs : list StreamEvent) : World :=
  {| w_db := w_db w; w_events := w_events w ++ evs; w_requests := w_requests w;
     w_log := w_log w |}.

(** A step that neither emits events nor calls the provider. *)
Definition quiet {A} (m : M A) : Prop :=
  forall w, w_events (snd (m w)) = w_events w /\ w_requests (snd (m w)) = w_requests w.

(** A reported usage triple. *)
Definition usage_rep (p c t : Z) : Usage :=
  {| prompt_tokens := p; completion_tokens := c; total_tokens := t |}.

(** Two streams: usage reported on the last text chunk, with a non-zero and
    with a zero total. *)
Definition stream_hello : list Chunk :=
  [text_chunk "he" None; text_chunk "llo" (Some (usage_rep 3 4 7))].

Definition stream_zero_total : list Chunk :=
  [text_chunk "hi" (Some (usage_rep 3 4 0))].

(** A stream and a single completion carry the same response: the same
    reply text, the same reasoning text and the same usage. *)
Definition same_response (cs : list Chunk) (comp : Completion) : Prop :=
  List.concat (content_deltas cs)
    = match comp_message0 comp with Some m => or_empty (cmsg_content m) | None => [] end
  /\ List.concat (filter truthy (map chunk_delta_reasoning cs))
    = match comp_message0 comp with Some m => or_empty (cmsg_reasoning m) | None => [] end
  /\ last_usage cs = comp_usage comp.

Definition params_mode (content : jstr) (chatId : option jstr) (stream : bool)
  : SendMessageParams :=
  {| p_content := content; p_chatId := chatId; p_stream := Some stream |}.

(** Single completions: the reply of [stream_hello], and an empty reply. *)
Definition completion_of (content : string) (u : option Usage) : Completion :=
  {| comp_message0 := Some {| cmsg_content := Some (js content); cmsg_reasoning := None |};
     comp_usage := u |}.

(** The usage the streaming loop keeps: that of the last chunk carrying both
    a choice and a usage ([if (!choice) continue] skips the rest of a
    chunk, its usage included). *)
Fixpoint choice_usage (cs : list Chunk) : option Usage :=
  match cs with
  | [] => None
  | c :: r =>
      match choice_usage r with
      | Some u => Some u
      | None => match chunk_choice0 c, chunk_usage c with
                | Some _, Some u => Some u
                | _, _ => None
                end
      end
  end.

(** The usage the service reads from the provider's answer in either mode
    ([usage0] when it read none). *)
Definition usage_read (env : Env) (stream : bool) : AIUsage :=
  match (if stream then choice_usage (fst (e_stream env))
         else match e_completion env with inr c => comp_usage c | inl _ => None end) with
  | Some u => usage_of u
  | None => usage0
  end.

(** A usage-only chunk ([choices: []]), as providers send last when asked to
    report usage on a stream. *)
Definition usage_only_chunk (u : Usage) : Chunk :=
  {| chunk_choice0 := None; chunk_usage := Some u |}.

Definition stream_usage_last : list Chunk :=
  [text_chunk "he" None; text_chunk "llo" None; usage_only_chunk (usage_rep 3 4 7)].

(** A stream whose reply is empty. *)
Definition stream_empty_reply : list Chunk := [text_chunk "" (Some (usage_rep 3 0 3))].

(** An identifier [cuid()] has already handed out. *)
Definition issued (db : DB) (id : Id) : Prop := exists k, id = cuid k /\ (k < db_seq db)%N.

(** Every message row's id and chat id were issued by [cuid()]. *)
Definition ids_issued (db : DB) : Prop :=
  Forall (fun m => issued db (msg_id m) /\ issued db (msg_chatId m)) (db_messages db).

(** The failure the provider reported for one call, if any: the error that
    ended the stream, or the rejected completion. *)
Definition upstream_failure (env : Env) (stream : bool) : option UpstreamError :=
  if stream then snd (e_stream env)
  else match e_completion env with inl err => Some err | inr _ => None end.

(** A stream cut off by an [APIError] that carries no HTTP status, as the
    SDK throws on a lost connection. *)
Definition env_conn_lost : Env :=
  env_of ([text_chunk "he" None], Some (APIError None (js "Connection error."))) (inl OtherError).

(** The same outside world, with the final transaction reaching the
    database or not. *)
Definition with_tx (env : Env) (ok : bool) : Env :=
  {| e_stream := e_stream env; e_completion := e_completion env; e_t0 := e_t0 env;
     e_t1 := e_t1 env; e_now := e_now env; e_delete_ok := e_delete_ok env; e_tx_ok := ok |}.

(** A message row as a [{ role, content }] pair. *)
Definition row_pair (m : MessageRow) : OpenAIMessage :=
  {| om_role := msg_role m; om_content := msg_content m |}.

(** Rows in table order are in creation order, and all were created before
    the clock's current reading. *)
Definition rows_in_order (db : DB) : Prop :=
  StronglySorted (fun a b => msg_createdAt a < msg_createdAt b) (db_messages db)
  /\ Forall (fun m => msg_createdAt m < db_clock db) (db_messages db).

(** A database holding one empty chat of [user1]. *)
Definition chat1 : ChatRow :=
  {| ch_id := cuid 0; ch_userId := user1; ch_title := js "hi"; ch_modelId := Some (js "m1");
     ch_modelName := Some (js "GPT-4o"); ch_updatedAt := 0 |}.

Definition db_chat1 : DB :=
  {| db_models := [model1]; db_chats := [chat1]; db_messages := []; db_seq := 1; db_clock := 1 |}.

(** Login fixtures: one account, a secret, and a password check standing in
    for bcrypt that accepts [pw] against the stored hash. *)
Definition user_a : Auth.UserRow :=
  {| Auth.u_id := js "u1"; Auth.u_email := js "a@x.com"; Auth.u_password := js "$2b$hash";
     Auth.u_name := Some (js "Ann"); Auth.u_lastLoginAt := None; Auth.u_lastLoginIp := None |}.

Definition env_secret : Auth.ProcessEnv := [("JWT_SECRET"%string, js "s3cret")].

Definition bcrypt_match (password hash : jstr) : bool :=
  jstr_eqb hash (js "$2b$hash") && jstr_eqb password (js "pw").

End Samples.

(** More sample data for concrete runs of the routes and services. *)
Module Fixtures.
Import Chat ChatCrud Auth AuthMiddleware UserStatsM Samples.

Definition chats_issued (db : DB) : Prop := Forall (fun c => issued db (ch_id c)) (db_chats db).
Definition chat_delete_rows (db : DB) (id : Id) : option DB :=
  Some (set_messages (set_chats db (filter (fun c => negb (jstr_eqb (ch_id c) id)) (db_chats db)))
                     (filter (fun m => negb (jstr_eqb (msg_chatId m) id)) (db_messages db))).

Definition db_two_msgs : DB :=
  {| db_models := [model1]; db_chats := [chat1];
     db_messages :=
       [new_message db_chat1 (cuid 0) (js "USER") (js "hi") None None None None None None None;
        new_message (bump db_chat1) (cuid 0) (js "ASSISTANT") (js "hello") None None None None None None None];
     db_seq := 3; db_clock := 3 |}.

Definition page_items (userId : Id) (ps : Z) (w : World) (p : Z) : list ChatListItem :=
  match fst (getChatList userId {| gp_page := Some (JsFinite (inject_Z p)); gp_pageSize := Some (JsFinite (inject_Z ps)) |} w) with
  | inr r => cl_list r
  | inl _ => []
  end.

(** A chat row of [owner] with id [cuid n], last updated at [t]. *)
Definition chat_at (n : N) (owner : jstr) (t : Z) : ChatRow :=
  {| ch_id := cuid n; ch_userId := owner; ch_title := js "t"; ch_modelId := Some (js "m1");
     ch_modelName := Some (js "GPT-4o"); ch_updatedAt := t |}.
(** Three chats of [user1], updated at 5, 9 and 7, and one of [u2]. *)
Definition db_three_chats : DB :=
  {| db_models := [model1];
     db_chats := [chat_at 0 user1 5; chat_at 1 user1 9; chat_at 2 (js "u2") 8; chat_at 3 user1 7];
     db_messages :=
       [new_message db_empty (cuid 1) (js "USER") (js "a") None None None None None None None;
        new_message db_empty (cuid 2) (js "USER") (js "b") None None None None None None None;
        new_message db_empty (cuid 1) (js "ASSISTANT") (js "c") None None None None None None None;
        new_message db_empty (cuid 7) (js "USER") (js "d") None None None None None None None];
     db_seq := 8; db_clock := 10 |}.

Definition token_a : Token :=
  jwt_sign [(js "userId", JStr (js "u1")); (js "name", JStr (js "Ann"))] (js "s3cret") (js "7d").

Definition jwt_verify_a (s secret : jstr) : VerifyOutcome :=
  if jstr_eqb s (js "h.p.s") && jstr_eqb secret (js "s3cret") then Verified token_a
  else JsonWebTokenError.

Definition totals_u1 : UserTotals :=
  {| ut_id := user1; ut_totalPromptTokens := 12; ut_totalCompletionTokens := 30; ut_totalTokens := 42 |}.

End Fixtures.

(* ================================================================== *)
(** * Proofs *)

Lemma jstr_eqb_eq a b : jstr_eqb a b = true <-> a = b.
Proof. unfold jstr_eqb; destruct (list_eq_dec N.eq_dec a b); split; congruence. Qed.

Lemma jstr_eqb_refl a : jstr_eqb a a = true.
Proof. apply jstr_eqb_eq; reflexivity. Qed.

(** ** Token accounting *)

Module TiktokenFacts.
Import Tiktoken.
Section Facts.

Context {Encoder : Type} (efm : string -> option Encoder)
        (encode : Encoder -> jstr -> option (list N)).

Local Abbreviation getEnc := (getEncoder Encoder efm).
Local Abbreviation count := (countTokens Encoder efm encode).
Local Abbreviation run := (run_ops Encoder efm encode).

(** The cache only ever holds the encoder the library builds for its key. *)
Definition cache_ok (c : EncoderCache Encoder) : Prop :=
  forall e, map_get Encoder encodingName c = Some e -> efm encodingName = Some e.

Lemma map_get_set_eq k v (m : EncoderCache Encoder) :
  map_get Encoder k (map_set Encoder k v m) = Some v.
Proof.
  induction m as [|[k' v'] r IH]; simpl.
  - rewrite String.eqb_refl; reflexivity.
  - destruct (String.eqb k k') eqn:E; simpl.
    + rewrite String.eqb_refl; reflexivity.
    + rewrite E; exact IH.
Qed.

Lemma getEncoder_cases c :
  snd (getEnc c) = c
  \/ exists e, efm encodingName = Some e
               /\ snd (getEnc c) = map_set Encoder encodingName e c.
Proof.
  unfold getEncoder, map_has.
  destruct (map_get Encoder encodingName c); simpl; [ now left |].
  destruct (efm encodingName) eqn:F; simpl; [ right; now exists e | now left ].
Qed.

Lemma getEncoder_ok c : cache_ok c -> cache_ok (snd (getEnc c)).
Proof.
  intros H. destruct (getEncoder_cases c) as [E | [e [F E]]]; rewrite E; [ exact H |].
  unfold cache_ok; intros e'; rewrite map_get_set_eq; congruence.
Qed.

Lemma getEncoder_result c :
  cache_ok c -> fst (getEnc c) = efm encodingName.
Proof.
  unfold cache_ok, getEncoder, map_has; intros H.
  destruct (map_get Encoder encodingName c) eqn:G; simpl.
  - rewrite G; symmetry; now apply H.
  - destruct (efm encodingName) eqn:F; simpl; [ apply map_get_set_eq | reflexivity ].
Qed.

Lemma getEncoder_idem c :
  snd (getEnc (snd (getEnc c))) = snd (getEnc c).
Proof.
  destruct (getEncoder_cases c) as [E | [e [F E]]]; rewrite E; [ exact E |].
  unfold getEncoder, map_has; rewrite map_get_set_eq; reflexivity.
Qed.

Lemma countTokens_cache c t : snd (count c t) = snd (getEnc c).
Proof.
  unfold countTokens. destruct (getEnc c) as [[enc|] c'].
  - destruct (encode enc t); reflexivity.
  - reflexivity.
Qed.

Lemma countTokens_value c t :
  cache_ok c ->
  fst (count c t) = match efm encodingName with
                    | Some enc => match encode enc t with
                                  | Some toks => Z.of_nat (List.length toks)
                                  | None => 0%Z
                                  end
                    | None => 0%Z
                    end.
Proof.
  intros H. pose proof (getEncoder_result c H) as R.
  unfold countTokens. destruct (getEnc c) as [oe c'] eqn:G. simpl in R. subst oe.
  destruct (efm encodingName) as [enc|]; [ destruct (encode enc t) |]; reflexivity.
Qed.

Lemma run_op_ok c o : cache_ok c -> cache_ok (run_op Encoder efm encode c o).
Proof.
  intros H; destruct o; simpl.
  - rewrite countTokens_cache; now apply getEncoder_ok.
  - now apply getEncoder_ok.
  - unfold cache_ok; simpl; discriminate.
Qed.

Lemma run_ops_ok ops : cache_ok (run ops).
Proof.
  unfold run_ops.
  assert (H0 : cache_ok []) by (unfold cache_ok; simpl; discriminate).
  revert H0. generalize (@nil (string * Encoder)).
  induction ops as [|o r IH]; simpl; intros c Hc; [ exact Hc | apply IH, run_op_ok, Hc ].
Qed.

(** C9: [countTokens] is deterministic. Whatever operations ran before in
    this process ([ops1], [ops2]; [[]] is a fresh process), a call on the same
    text returns the same number, the number a fresh process computes with
    the [cl100k_base] encoding; the only state a call changes is the encoder
    cache, which [getEncoder] fills once and then reuses unchanged. *)
Theorem countTokens_deterministic (ops1 ops2 : list Op) (text : jstr) :
  fst (count (run ops1) text) = fst (count (run ops2) text)
  /\ fst (count (run ops1) text) = countTokens_fresh Encoder efm encode text
  /\ snd (count (run ops1) text) = snd (getEnc (run ops1))
  /\ snd (getEnc (snd (getEnc (run ops1)))) = snd (getEnc (run ops1)).
Proof.
  unfold countTokens_fresh.
  assert (H0 : cache_ok []) by (unfold cache_ok; simpl; discriminate).
  rewrite (countTokens_value (run ops1) text (run_ops_ok ops1)),
          (countTokens_value (run ops2) text (run_ops_ok ops2)),
          (countTokens_value [] text H0).
  repeat split; [ apply countTokens_cache | apply getEncoder_idem ].
Qed.

End Facts.
End TiktokenFacts.

(** ** Input validation *)

Module ValidationFacts.
Import Chat Samples.

Lemma content_issues_content_path raw :
  Forall (fun i => zi_path i = [js "content"]) (content_issues raw).
Proof.
  unfold content_issues.
  destruct (N.ltb (js_length (js_trim raw)) 1), (N.ltb 10000 (js_length (js_trim raw)));
    repeat constructor.
Qed.

Lemma content_issues_nonempty raw :
  (js_trim raw = [] \/ (10000 < js_length (js_trim raw))%N) ->
  content_issues raw <> [].
Proof.
  unfold content_issues; intros [E | L].
  - rewrite E; simpl; discriminate.
  - apply N.ltb_lt in L; rewrite L.
    destruct (N.ltb (js_length (js_trim raw)) 1); simpl; discriminate.
Qed.

(** C5 (as the code has it): content whose trimmed value is empty or longer
    than 10,000 code units fails with a [ZodError] whose issues all name
    [content], and the world (database, events, requests, log) is left as it
    was. *)
Theorem sendMessage_rejects_invalid_content (countTokens : jstr -> Z) (env : Env)
    (userId : Id) (params : SendMessageParams) (onChunk : bool) (w : World) :
  (js_trim (p_content params) = [] \/ (10000 < js_length (js_trim (p_content params)))%N) ->
  exists issues,
    sendMessage countTokens env userId params onChunk w = (inl (ZodError issues), w)
    /\ issues <> []
    /\ Forall (fun i => zi_path i = [js "content"]) issues.
Proof.
  intros H. exists (content_issues (p_content params)).
  split; [| split; [ now apply content_issues_nonempty | apply content_issues_content_path ]].
  unfold sendMessage, parse_sendMessage.
  pose proof (content_issues_nonempty _ H) as NE.
  destruct (content_issues (p_content params)) eqn:E; [ contradiction | reflexivity ].
Qed.

Lemma sendMessage_rejects_invalid_content_witness :
  js_trim (js "  ") = []
  /\ exists issues,
       sendMessage count_units (env_of ([], None) (inl OtherError)) user1
         (params_new (js "  ") None) true (world_of db_empty)
       = (inl (ZodError issues), world_of db_empty)
       /\ issues <> []
       /\ Forall (fun i => zi_path i = [js "content"]) issues.
Proof.
  split; [ reflexivity |].
  apply (sendMessage_rejects_invalid_content count_units (env_of ([], None) (inl OtherError))
           user1 (params_new (js "  ") None) true (world_of db_empty)).
  left; reflexivity.
Defined.

(** C5 as stated bounds the raw length: a content of 10,001 code units whose
    last one is a space passes validation, and the call succeeds. *)
Lemma sendMessage_accepts_long_untrimmed_content :
  js_length (repeat 97%N 10000 ++ [32%N]) = 10001%N
  /\ exists r w',
       sendMessage count_units (env_of ([text_chunk "ok" None], None) (inl OtherError)) user1
         (params_new (repeat 97%N 10000 ++ [32%N]) None) true (world_of db_empty)
       = (inr r, w').
Proof.
  split; [ vm_compute; reflexivity |].
  eexists; eexists; vm_compute; reflexivity.
Qed.

End ValidationFacts.

(** ** The chat pipeline *)

Module PipelineFacts.
Import Chat Samples.

Lemma bind_inr {A B} (m : M A) (k : A -> M B) w a w1 :
  m w = (inr a, w1) -> bind m k w = k a w1.
Proof. unfold bind; intros E; rewrite E; reflexivity. Qed.

Lemma bind_inl {A B} (m : M A) (k : A -> M B) w e w1 :
  m w = (inl e, w1) -> bind m k w = (inl e, w1).
Proof. unfold bind; intros E; rewrite E; reflexivity. Qed.

Lemma add_events_nil w : add_events w [] = w.
Proof. destruct w; unfold add_events; simpl; rewrite app_nil_r; reflexivity. Qed.

Lemma add_events_app w e1 e2 : add_events (add_events w e1) e2 = add_events w (e1 ++ e2).
Proof. destruct w; unfold add_events; simpl; rewrite app_assoc; reflexivity. Qed.

Lemma emit_add cb ev w : emit cb ev w = (inr tt, add_events w (if cb then [ev] else [])).
Proof. destruct w, cb; unfold emit, add_events; simpl; [ reflexivity | rewrite app_nil_r; reflexivity ]. Qed.

Lemma fold_usage_from (cs : list Chunk) (o : option Usage) :
  fold_left (fun acc c => match chunk_usage c with Some u => Some u | None => acc end) cs o
  = match last_usage cs with Some u => Some u | None => o end.
Proof.
  unfold last_usage. revert o.
  induction cs as [|c r IH]; intros o; simpl; [ reflexivity |].
  rewrite (IH (match chunk_usage c with Some u => Some u | None => o end)),
          (IH (match chunk_usage c with Some u => Some u | None => None end)).
  destruct (fold_left _ r None), (chunk_usage c); reflexivity.
Qed.

(** What the streaming loop accumulates and emits. *)
Lemma stream_loop_spec cb cs acc w :
  exists acc',
    stream_loop cb cs acc w
      = (inr acc', add_events w (if cb then map EvContent (content_deltas cs) else []))
    /\ acc_content acc' = acc_content acc ++ List.concat (content_deltas cs)
    /\ or_empty (acc_reasoning acc')
       = or_empty (acc_reasoning acc) ++ List.concat (filter truthy (map chunk_delta_reasoning cs))
    /\ (Forall (fun c => chunk_choice0 c <> None) cs ->
        acc_usage acc' = match last_usage cs with
                         | Some u => usage_of u
                         | None => acc_usage acc
                         end).
Proof.
  revert acc w.
  induction cs as [|c r IH]; intros acc w.
  - exists acc; simpl; destruct cb; rewrite add_events_nil, !app_nil_r;
    repeat split; auto.
  - assert (Step : exists acc1,
              on_stream_chunk cb acc c w
                = (inr acc1, add_events w (if cb && truthy (chunk_delta_content c)
                                           then [EvContent (chunk_delta_content c)] else []))
              /\ acc_content acc1 = acc_content acc
                  ++ (if truthy (chunk_delta_content c) then chunk_delta_content c else [])
              /\ or_empty (acc_reasoning acc1) = or_empty (acc_reasoning acc)
                  ++ (if truthy (chunk_delta_reasoning c) then chunk_delta_reasoning c else [])
              /\ (chunk_choice0 c <> None ->
                  acc_usage acc1 = match chunk_usage c with
                                   | Some u => usage_of u
                                   | None => acc_usage acc
                                   end)).
    { unfold on_stream_chunk, chunk_delta_content, chunk_delta_reasoning.
      destruct (chunk_choice0 c) as [od|].
      2:{ exists acc; simpl; rewrite andb_false_r, add_events_nil, !app_nil_r.
          repeat split; auto; intros H; contradiction. }
      set (dc := match od with Some d => or_empty (delta_content d) | None => [] end).
      set (dr := match od with Some d => delta_reasoning d | None => None end).
      assert (Edc : (match od with Some d => or_empty (delta_content d) | None => [] end) = dc) by reflexivity.
      assert (Edr : (match od with Some d => or_empty (delta_reasoning d) | None => [] end) = or_empty dr)
        by (destruct od; reflexivity).
      rewrite Edr.
      destruct (truthy dc) eqn:T.
      + eexists; split.
        * simpl. rewrite (bind_inr _ _ _ tt _ (emit_add cb (EvContent dc) w)); unfold ret.
          destruct cb; reflexivity.
        * simpl; split; [ reflexivity |]; split; [| intros _; reflexivity ].
          destruct dr as [x|]; simpl; [| rewrite app_nil_r; reflexivity ].
          destruct (truthy x); simpl; [ reflexivity | rewrite app_nil_r; reflexivity ].
      + eexists; split.
        * unfold bind, ret; simpl; rewrite andb_false_r, add_events_nil; reflexivity.
        * simpl; split; [ rewrite app_nil_r; reflexivity |]; split; [| intros _; reflexivity ].
          destruct dr as [x|]; simpl; [| rewrite app_nil_r; reflexivity ].
          destruct (truthy x); simpl; [ reflexivity | rewrite app_nil_r; reflexivity ]. }
    destruct Step as [acc1 [E1 [C1 [R1 U1]]]].
    destruct (IH acc1 (add_events w (if cb && truthy (chunk_delta_content c)
                                      then [EvContent (chunk_delta_content c)] else [])))
      as [acc' [E2 [C2 [R2 U2]]]].
    exists acc'. simpl. rewrite (bind_inr _ _ _ _ _ E1), E2, add_events_app.
    unfold content_deltas in *. simpl.
    split; [ f_equal; destruct cb, (truthy (chunk_delta_content c)); reflexivity |].
    split; [ rewrite C2, C1, <- app_assoc; destruct (truthy (chunk_delta_content c));
             simpl; reflexivity |].
    split; [ rewrite R2, R1, <- app_assoc; destruct (truthy (chunk_delta_reasoning c));
             simpl; reflexivity |].
    intros F; inversion F as [|? ? Hc Hr]; subst.
    assert (L : last_usage (c :: r)
                = match last_usage r with Some u => Some u | None => chunk_usage c end).
    { unfold last_usage at 1; simpl; rewrite fold_usage_from.
      destruct (chunk_usage c); reflexivity. }
    rewrite L, (U2 Hr), (U1 Hc).
    destruct (last_usage r), (chunk_usage c); reflexivity.
Qed.

Lemma on_stream_chunk_usage cb acc c w :
  exists acc1 w1, on_stream_chunk cb acc c w = (inr acc1, w1)
    /\ acc_usage acc1 = match chunk_choice0 c, chunk_usage c with
                        | Some _, Some u => usage_of u
                        | _, _ => acc_usage acc
                        end.
Proof.
  unfold on_stream_chunk. destruct (chunk_choice0 c) as [od|].
  - cbv zeta. unfold bind.
    match goal with |- context [ if ?b then emit _ _ else ret tt ] => destruct b end;
      (eexists _, _; split; [ reflexivity | simpl; destruct (chunk_usage c); reflexivity ]).
  - eexists _, _; split; reflexivity.
Qed.

Lemma stream_loop_usage cb cs acc w acc' w' :
  stream_loop cb cs acc w = (inr acc', w') ->
  acc_usage acc' = match choice_usage cs with Some u => usage_of u | None => acc_usage acc end.
Proof.
  revert acc w. induction cs as [| c r IH]; intros acc w.
  - simpl; unfold ret; intros H; injection H as <- _; reflexivity.
  - cbn [stream_loop]. destruct (on_stream_chunk_usage cb acc c w) as (acc1 & w1 & E & U).
    rewrite (bind_inr _ _ _ _ _ E). intros H. rewrite (IH _ _ H).
    cbn [choice_usage]. destruct (choice_usage r); [ reflexivity |].
    rewrite U. destruct (chunk_choice0 c), (chunk_usage c); reflexivity.
Qed.

Lemma call_streaming_usage env cb rq w acc w2 :
  call_streaming env cb rq w = (inr (inr acc), w2) ->
  acc_usage acc = match choice_usage (fst (e_stream env)) with
                  | Some u => usage_of u
                  | None => usage0
                  end.
Proof.
  unfold call_streaming. intros H.
  rewrite (bind_inr _ _ _ tt _ (eq_refl : record_request rq w = (inr tt, _))) in H.
  destruct (stream_loop_spec cb (fst (e_stream env)) acc0
              {| w_db := w_db w; w_events := w_events w; w_requests := w_requests w ++ [rq];
                 w_log := w_log w |}) as [acc' [E _]].
  rewrite (bind_inr _ _ _ _ _ E) in H.
  destruct (snd (e_stream env)) as [err|]; [ discriminate |].
  rewrite (bind_inr _ _ _ tt _ (emit_add cb EvDone _)) in H.
  unfold ret in H; injection H as <- _.
  rewrite (stream_loop_usage _ _ _ _ _ _ E). reflexivity.
Qed.

Lemma choice_usage_last cs :
  Forall (fun c => chunk_choice0 c = None -> chunk_usage c = None) cs ->
  choice_usage cs = last_usage cs.
Proof.
  induction 1 as [| c r Hc _ IH]; [ reflexivity |].
  cbn [choice_usage]. rewrite IH.
  assert (L : last_usage (c :: r)
              = match last_usage r with Some u => Some u | None => chunk_usage c end).
  { unfold last_usage at 1; simpl; rewrite fold_usage_from. destruct (chunk_usage c); reflexivity. }
  rewrite L. destruct (last_usage r); [ reflexivity |].
  destruct (chunk_choice0 c); [ destruct (chunk_usage c); reflexivity | rewrite Hc; reflexivity ].
Qed.

Lemma quiet_ret {A} (a : A) : quiet (ret a).
Proof. intros w; split; reflexivity. Qed.

Lemma quiet_throw {A} e : quiet (@throw A e).
Proof. intros w; split; reflexivity. Qed.

Lemma quiet_get_db : quiet get_db.
Proof. intros w; split; reflexivity. Qed.

Lemma quiet_put_db db : quiet (put_db db).
Proof. intros w; split; reflexivity. Qed.

Lemma quiet_log_error t : quiet (log_error t).
Proof. intros w; split; reflexivity. Qed.

Lemma quiet_bind {A B} (m : M A) (k : A -> M B) :
  quiet m -> (forall a, quiet (k a)) -> quiet (bind m k).
Proof.
  intros Hm Hk w; unfold bind.
  specialize (Hm w). destruct (m w) as [[e|a] w1]; simpl in *; [ exact Hm |].
  destruct Hm as [E1 R1]. specialize (Hk a w1). destruct (k a w1) as [o w2]; simpl in *.
  destruct Hk as [E2 R2]. split; congruence.
Qed.

Ltac solve_quiet :=
  repeat first
    [ apply quiet_ret | apply quiet_throw | apply quiet_get_db | apply quiet_put_db
    | apply quiet_log_error
    | apply quiet_bind; [| intros ?]
    | match goal with
      | |- quiet (match ?x with _ => _ end) => destruct x
      | |- quiet (if ?b then _ else _) => destruct b
      end
    | progress cbv beta iota zeta ].

Lemma quiet_resolve userId content cid : quiet (resolve userId content cid).
Proof.
  unfold resolve, getDefaultModel, chat_create, getChatHistory.
  solve_quiet.
Qed.

Lemma quiet_init m : quiet (initOpenAIClient m).
Proof. unfold initOpenAIClient; solve_quiet. Qed.

Lemma quiet_user_message chatId content : quiet (user_message_create chatId content).
Proof. unfold user_message_create; solve_quiet. Qed.

Lemma quiet_persist env chatId m c rs u : quiet (persist_reply env chatId m c rs u).
Proof. unfold persist_reply; solve_quiet. Qed.

Lemma persist_reply_ok env chatId m c rs u w :
  fst (persist_reply env chatId m c rs u w) = inr tt.
Proof.
  unfold persist_reply, bind, get_db; simpl.
  destruct (if e_tx_ok env then _ else None); reflexivity.
Qed.

(** A successful [sendMessage] runs its steps in order. *)
Lemma sendMessage_success ct env userId params cb w r w' :
  sendMessage ct env userId params cb w = (inr r, w') ->
  exists pp chatId m hist w0 client w1 uid w1' acc w2,
    parse_sendMessage params = inr pp
    /\ resolve userId (pp_content pp) (pp_chatId pp) w = (inr (chatId, m, hist), w0)
    /\ initOpenAIClient m w0 = (inr client, w1)
    /\ user_message_create chatId (pp_content pp) w1 = (inr uid, w1')
    /\ (if pp_stream pp
        then call_streaming env cb
               {| rq_baseUrl := fst client; rq_apiKey := snd client;
                  rq_model := am_modelId m;
                  rq_messages := messagesToOpenAIFormat hist
                                 ++ [{| om_role := js "user"; om_content := pp_content pp |}];
                  rq_stream := pp_stream pp; rq_temperature := 7 # 10;
                  rq_max_tokens := 4096 |}
        else call_buffered env cb
               {| rq_baseUrl := fst client; rq_apiKey := snd client;
                  rq_model := am_modelId m;
                  rq_messages := messagesToOpenAIFormat hist
                                 ++ [{| om_role := js "user"; om_content := pp_content pp |}];
                  rq_stream := pp_stream pp; rq_temperature := 7 # 10;
                  rq_max_tokens := 4096 |}) w1' = (inr (inr acc), w2)
    /\ persist_reply env chatId m (acc_content acc) (acc_reasoning acc)
         (usage_fallback ct (messagesToOpenAIFormat hist
                               ++ [{| om_role := js "user"; om_content := pp_content pp |}])
            (acc_content acc) (acc_reasoning acc) (acc_usage acc)) w2 = (inr tt, w')
    /\ r = {| r_content := acc_content acc; r_reasoning := acc_reasoning acc;
              r_modelId := am_modelId m; r_modelName := am_name m;
              r_duration := duration_of env;
              r_usage := usage_fallback ct (messagesToOpenAIFormat hist
                               ++ [{| om_role := js "user"; om_content := pp_content pp |}])
                           (acc_content acc) (acc_reasoning acc) (acc_usage acc) |}.
Proof.
  unfold sendMessage; intros H.
  destruct (parse_sendMessage params) as [iss|pp] eqn:P; [ discriminate |].
  destruct (resolve userId (pp_content pp) (pp_chatId pp) w) as [[e|[[chatId m] hist]] w0] eqn:R;
    [ rewrite (bind_inl _ _ _ _ _ R) in H; discriminate |].
  rewrite (bind_inr _ _ _ _ _ R) in H; cbv beta iota zeta in H.
  destruct (initOpenAIClient m w0) as [[e|client] w1] eqn:I;
    [ rewrite (bind_inl _ _ _ _ _ I) in H; discriminate |].
  rewrite (bind_inr _ _ _ _ _ I) in H; cbv beta iota zeta in H.
  destruct (user_message_create chatId (pp_content pp) w1) as [[e|uid] w1'] eqn:U;
    [ rewrite (bind_inl _ _ _ _ _ U) in H; discriminate |].
  rewrite (bind_inr _ _ _ _ _ U) in H; cbv beta iota zeta in H.
  match type of H with
  | bind ?call _ w1' = _ => destruct (call w1') as [[e|[err|acc]] w2] eqn:C
  end.
  - rewrite (bind_inl _ _ _ _ _ C) in H; discriminate.
  - rewrite (bind_inr _ _ _ _ _ C) in H; cbv beta iota zeta in H.
    unfold on_upstream_error, bind, log_error, get_db in H; simpl in H.
    destruct (if e_delete_ok env then _ else ret tt); simpl in H.
    destruct s; [ destruct err; discriminate | destruct err; discriminate ].
  - rewrite (bind_inr _ _ _ _ _ C) in H; cbv beta iota zeta in H.
    match type of H with
    | bind ?pr _ w2 = _ => destruct (pr w2) as [o w3] eqn:PR
    end.
    pose proof (f_equal fst PR) as O; rewrite persist_reply_ok in O; simpl in O; subst o.
    rewrite (bind_inr _ _ _ _ _ PR) in H; unfold ret in H; injection H as <- <-.
    exists pp, chatId, m, hist, w0, client, w1, uid, w1', acc, w2.
    repeat split; assumption.
Qed.

Lemma parse_stream p pp :
  parse_sendMessage p = inr pp ->
  pp_content pp = js_trim (p_content p) /\ pp_chatId pp = p_chatId p
  /\ pp_stream pp = match p_stream p with Some b => b | None => true end.
Proof.
  unfold parse_sendMessage; destruct (content_issues (p_content p)); [| discriminate ].
  intros E; injection E as <-; repeat split.
Qed.

Lemma usage_fallback_reported ct ms c rs u :
  totalTokens u <> 0 -> usage_fallback ct ms c rs u = u.
Proof.
  intros H; unfold usage_fallback. apply Z.eqb_neq in H; rewrite H; reflexivity.
Qed.

Lemma usage_fallback_local ct ms m c rs u :
  totalTokens u = 0 ->
  usage_fallback ct (ms ++ [m]) c rs u
  = {| promptTokens := ct (js_join [10%N] (map prompt_line ms));
       completionTokens := ct (c ++ or_empty rs);
       totalTokens := ct (js_join [10%N] (map prompt_line ms)) + ct (c ++ or_empty rs) |}.
Proof.
  intros H; unfold usage_fallback. rewrite H; simpl.
  rewrite length_app; simpl.
  replace (Nat.ltb 0 (List.length ms + 1)) with true by (symmetry; apply Nat.ltb_lt; lia).
  replace (List.length ms + 1 - 1)%nat with (List.length ms) by lia.
  rewrite firstn_app, firstn_all, Nat.sub_diag; simpl; rewrite app_nil_r; reflexivity.
Qed.

(** How the streaming branch runs, when it returns. *)
Lemma call_streaming_ok env cb rq w acc w2 :
  call_streaming env cb rq w = (inr (inr acc), w2) ->
  snd (e_stream env) = None
  /\ acc_content acc = List.concat (content_deltas (fst (e_stream env)))
  /\ or_empty (acc_reasoning acc)
     = List.concat (filter truthy (map chunk_delta_reasoning (fst (e_stream env))))
  /\ (Forall (fun c => chunk_choice0 c <> None) (fst (e_stream env)) ->
      acc_usage acc = match last_usage (fst (e_stream env)) with
                      | Some u => usage_of u
                      | None => usage0
                      end)
  /\ w_events w2 = w_events w ++ (if cb then map EvContent (content_deltas (fst (e_stream env)))
                                            ++ [EvDone] else [])
  /\ w_requests w2 = w_requests w ++ [rq].
Proof.
  unfold call_streaming. intros H.
  rewrite (bind_inr _ _ _ tt _ (eq_refl : record_request rq w = (inr tt, _))) in H.
  destruct (stream_loop_spec cb (fst (e_stream env)) acc0
              {| w_db := w_db w; w_events := w_events w; w_requests := w_requests w ++ [rq];
                 w_log := w_log w |}) as [acc' [E [C [R U]]]].
  rewrite (bind_inr _ _ _ _ _ E) in H.
  destruct (snd (e_stream env)) as [err|]; [ discriminate |].
  rewrite (bind_inr _ _ _ tt _ (emit_add cb EvDone _)) in H.
  unfold ret in H; injection H as <- <-.
  split; [ reflexivity |]. split; [ exact C |]. split; [ exact R |]. split; [ exact U |].
  simpl; split; [ destruct cb; simpl; rewrite ?app_assoc, ?app_nil_r; reflexivity | reflexivity ].
Qed.

(** C1 (as the code has it): in streaming mode with a callback, a
    successful call has read the stream to its normal end and sent one
    request; the returned content is the concatenation of the non-empty
    content deltas in arrival order; the events delivered are exactly those
    deltas, in order, then one [done]; the usage is that of the last chunk
    carrying both a choice and a usage when its total is non-zero, and
    otherwise the triple counted locally with the service's tokenizer (prompt
    lines of the request's messages before the new turn, the reply followed
    by the reasoning, and their sum). *)
Theorem sendMessage_streaming_reply ct env userId params w r w' :
  p_stream params <> Some false ->
  sendMessage ct env userId params true w = (inr r, w') ->
  snd (e_stream env) = None
  /\ r_content r = List.concat (content_deltas (fst (e_stream env)))
  /\ w_events w' = w_events w ++ map EvContent (content_deltas (fst (e_stream env))) ++ [EvDone]
  /\ exists rq,
       w_requests w' = w_requests w ++ [rq]
       /\ (forall u, choice_usage (fst (e_stream env)) = Some u -> total_tokens u <> 0 ->
                     r_usage r = usage_of u)
       /\ ((forall u, choice_usage (fst (e_stream env)) = Some u -> total_tokens u = 0) ->
           r_usage r =
             {| promptTokens := ct (js_join [10%N] (map prompt_line (removelast (rq_messages rq))));
                completionTokens := ct (r_content r ++ or_empty (r_reasoning r));
                totalTokens := ct (js_join [10%N] (map prompt_line (removelast (rq_messages rq))))
                               + ct (r_content r ++ or_empty (r_reasoning r)) |}).
Proof.
  intros Hs H.
  destruct (sendMessage_success _ _ _ _ _ _ _ _ H)
    as (pp & chatId & m & hist & w0 & client & w1 & uid & w1' & acc & w2 &
        P & R & I & U & C & PR & ->).
  destruct (parse_stream _ _ P) as (_ & _ & S).
  assert (T : pp_stream pp = true) by (rewrite S; destruct (p_stream params) as [[]|]; congruence).
  rewrite T in C.
  destruct (call_streaming_ok _ _ _ _ _ _ C) as (Hend & Cc & _ & _ & Ce & Cr).
  pose proof (call_streaming_usage _ _ _ _ _ _ C) as Cu.
  pose proof (quiet_resolve userId (pp_content pp) (pp_chatId pp) w) as Q1; rewrite R in Q1.
  pose proof (quiet_init m w0) as Q2; rewrite I in Q2.
  pose proof (quiet_user_message chatId (pp_content pp) w1) as Q3; rewrite U in Q3.
  match type of PR with persist_reply _ _ _ _ _ ?us _ = _ =>
    pose proof (quiet_persist env chatId m (acc_content acc) (acc_reasoning acc) us w2) as Q4 end.
  rewrite PR in Q4. simpl in Q1, Q2, Q3, Q4.
  destruct Q1 as [Q1e Q1r], Q2 as [Q2e Q2r], Q3 as [Q3e Q3r], Q4 as [Q4e Q4r].
  split; [ exact Hend |]. split; [ exact Cc |].
  split; [ rewrite Q4e, Ce, Q3e, Q2e, Q1e; reflexivity |].
  eexists. split; [ rewrite Q4r, Cr, Q3r, Q2r, Q1r; reflexivity |].
  cbn [r_usage r_content r_reasoning rq_messages]. rewrite removelast_last.
  split.
  - intros u Lu Tu. rewrite usage_fallback_reported; rewrite Cu, Lu; [ reflexivity | exact Tu ].
  - intros Z0. apply usage_fallback_local.
    rewrite Cu. destruct (choice_usage (fst (e_stream env))) as [u|] eqn:Lu;
      [ exact (Z0 u eq_refl) | reflexivity ].
Qed.

Lemma sendMessage_streaming_reply_witness :
  exists r w',
    sendMessage count_units (env_of (stream_hello, None) (inl OtherError)) user1
      (params_new (js "hi") None) true (world_of db_empty) = (inr r, w')
    /\ snd (e_stream (env_of (stream_hello, None) (inl OtherError))) = None
    /\ r_content r = List.concat (content_deltas stream_hello)
    /\ w_events w' = [] ++ map EvContent (content_deltas stream_hello) ++ [EvDone]
    /\ exists rq,
         w_requests w' = [] ++ [rq]
         /\ (forall u, choice_usage stream_hello = Some u -> total_tokens u <> 0 ->
                       r_usage r = usage_of u)
         /\ ((forall u, choice_usage stream_hello = Some u -> total_tokens u = 0) ->
             r_usage r =
               {| promptTokens := count_units (js_join [10%N] (map prompt_line (removelast (rq_messages rq))));
                  completionTokens := count_units (r_content r ++ or_empty (r_reasoning r));
                  totalTokens := count_units (js_join [10%N] (map prompt_line (removelast (rq_messages rq))))
                                 + count_units (r_content r ++ or_empty (r_reasoning r)) |}).
Proof.
  destruct (sendMessage count_units (env_of (stream_hello, None) (inl OtherError)) user1
              (params_new (js "hi") None) true (world_of db_empty)) as [[e|r] w'] eqn:E.
  - vm_compute in E; discriminate.
  - exists r, w'. split; [ reflexivity |].
    apply (sendMessage_streaming_reply count_units (env_of (stream_hello, None) (inl OtherError))
             user1 (params_new (js "hi") None) (world_of db_empty) r w').
    + discriminate.
    + exact E.
Defined.

(** C1 as stated fails twice: the usage of a final usage-only chunk (no
    choice) is ignored, and a last usage with a total of [0] is replaced by
    the local count. *)
Lemma sendMessage_streaming_usage_not_last :
  exists r w' r2 w2',
    sendMessage count_units (env_of (stream_usage_last, None) (inl OtherError)) user1
      (params_new (js "hi") None) true (world_of db_empty) = (inr r, w')
    /\ last_usage stream_usage_last = Some (usage_rep 3 4 7)
    /\ r_usage r <> usage_of (usage_rep 3 4 7)
    /\ sendMessage count_units (env_of (stream_zero_total, None) (inl OtherError)) user1
         (params_new (js "hi") None) true (world_of db_empty) = (inr r2, w2')
    /\ last_usage stream_zero_total = Some (usage_rep 3 4 0)
    /\ r_usage r2 <> usage_of (usage_rep 3 4 0).
Proof.
  do 4 eexists. split; [ vm_compute; reflexivity |]. split; [ reflexivity |].
  split; [ vm_compute; discriminate |].
  split; [ vm_compute; reflexivity |]. split; [ reflexivity | vm_compute; discriminate ].
Qed.

(** How the single-shot branch runs, when it returns. *)
Lemma call_buffered_ok env cb rq w acc w2 comp :
  e_completion env = inr comp ->
  call_buffered env cb rq w = (inr (inr acc), w2) ->
  acc_content acc
    = match comp_message0 comp with Some m => or_empty (cmsg_content m) | None => [] end
  /\ or_empty (acc_reasoning acc)
    = match comp_message0 comp with Some m => or_empty (cmsg_reasoning m) | None => [] end
  /\ acc_usage acc = match comp_usage comp with Some u => usage_of u | None => usage0 end
  /\ w_events w2 = w_events w ++ (if cb && truthy (acc_content acc)
                                  then [EvContent (acc_content acc); EvDone] else [])
  /\ w_requests w2 = w_requests w ++ [rq].
Proof.
  intros Ec. unfold call_buffered. intros H.
  rewrite (bind_inr _ _ _ tt _ (eq_refl : record_request rq w = (inr tt, _))) in H.
  rewrite Ec in H.
  set (fc := match comp_message0 comp with Some m => or_empty (cmsg_content m) | None => [] end) in *.
  destruct (cb && truthy fc) eqn:T.
  - apply andb_true_iff in T as [-> T].
    rewrite (bind_inr _ _ _ tt _ (eq_refl : (emit true (EvContent fc) ;;; emit true EvDone) _
                                            = (inr tt, _))) in H.
    unfold ret in H; injection H as <- <-; simpl.
    rewrite T. repeat split; [ destruct (comp_message0 comp); reflexivity | rewrite <- app_assoc; reflexivity ].
  - rewrite (bind_inr _ _ _ tt _ (eq_refl : ret tt _ = (inr tt, _))) in H.
    unfold ret in H; injection H as <- <-; simpl.
    rewrite T, app_nil_r. repeat split; destruct (comp_message0 comp); reflexivity.
Qed.

Lemma usage_fallback_or_empty ct ms c rs1 rs2 u :
  or_empty rs1 = or_empty rs2 -> usage_fallback ct ms c rs1 u = usage_fallback ct ms c rs2 u.
Proof. intros E; unfold usage_fallback; rewrite E; reflexivity. Qed.

(** C2 (as the code has it): for the same upstream response, delivered as a
    stream in which no usage arrives on a chunk without a choice or as one
    completion, the streaming and non-streaming calls (same user, content,
    chat and starting state) return the same content and the same usage;
    the non-streaming call hands the callback one content event with the
    full reply followed by one [done] when the reply is non-empty, and no
    event when it is empty. *)
Theorem sendMessage_modes_agree ct envS envB userId content chatId comp w rS wS rB wB :
  Forall (fun c => chunk_choice0 c = None -> chunk_usage c = None) (fst (e_stream envS)) ->
  e_completion envB = inr comp ->
  same_response (fst (e_stream envS)) comp ->
  sendMessage ct envS userId (params_mode content chatId true) true w = (inr rS, wS) ->
  sendMessage ct envB userId (params_mode content chatId false) true w = (inr rB, wB) ->
  r_content rS = r_content rB
  /\ r_usage rS = r_usage rB
  /\ w_events wB = w_events w ++ (if truthy (r_content rB)
                                  then [EvContent (r_content rB); EvDone] else []).
Proof.
  intros Hc Ec [Sc [Sr Su]] HS HB.
  destruct (sendMessage_success _ _ _ _ _ _ _ _ HS)
    as (ppS & chS & mS & hS & w0S & clS & w1S & uS & w1S' & accS & w2S & PS & RS & IS & US & CS & PRS & ->).
  destruct (sendMessage_success _ _ _ _ _ _ _ _ HB)
    as (ppB & chB & mB & hB & w0B & clB & w1B & uB & w1B' & accB & w2B & PB & RB & IB & UB & CB & PRB & ->).
  destruct (parse_stream _ _ PS) as (CtS & ChS & StS).
  destruct (parse_stream _ _ PB) as (CtB & ChB & StB).
  simpl in CtS, ChS, StS, CtB, ChB, StB.
  rewrite StS in CS. rewrite StB in CB.
  rewrite CtS, ChS in RS. rewrite CtB, ChB in RB.
  rewrite RS in RB. injection RB as <- <- <- <-.
  rewrite CtS in *. rewrite CtB in *.
  destruct (call_streaming_ok _ _ _ _ _ _ CS) as (_ & CcS & CrS & _ & _ & _).
  pose proof (call_streaming_usage _ _ _ _ _ _ CS) as CuS.
  destruct (call_buffered_ok _ _ _ _ _ _ _ Ec CB) as (CcB & CrB & CuB & CeB & _).
  rewrite (choice_usage_last _ Hc) in CuS.
  pose proof (proj1 (quiet_resolve userId (js_trim content) chatId w)) as Q1; rewrite RS in Q1.
  pose proof (proj1 (quiet_init mS w0S)) as Q2; rewrite IB in Q2.
  pose proof (proj1 (quiet_user_message chS (js_trim content) w1B)) as Q3; rewrite UB in Q3.
  match type of PRB with persist_reply _ _ _ _ _ ?us _ = _ =>
    pose proof (proj1 (quiet_persist envB chS mS (acc_content accB) (acc_reasoning accB) us w2B)) as Q4 end.
  rewrite PRB in Q4. simpl in Q1, Q2, Q3, Q4.
  assert (Ec' : acc_content accS = acc_content accB) by (rewrite CcS, CcB; exact Sc).
  assert (Er' : or_empty (acc_reasoning accS) = or_empty (acc_reasoning accB))
    by (rewrite CrS, CrB; exact Sr).
  assert (Eu' : acc_usage accS = acc_usage accB) by (rewrite CuS, CuB, Su; reflexivity).
  simpl. split; [ exact Ec' |]. split.
  - rewrite Ec', Eu'. apply usage_fallback_or_empty; exact Er'.
  - rewrite Q4, CeB, Q3, Q2, Q1; reflexivity.
Qed.

(** C2 as stated fails: for an empty reply the streaming call hands the
    callback [done] while the non-streaming call hands it nothing, and for a
    stream whose usage arrives on a final usage-only chunk the two calls
    return different usage. *)
Lemma sendMessage_modes_distinguishable :
  exists rS wS rB wB rS2 wS2 rB2 wB2,
    same_response stream_empty_reply (completion_of "" (Some (usage_rep 3 0 3)))
    /\ sendMessage count_units (env_of (stream_empty_reply, None) (inl OtherError)) user1
         (params_mode (js "hi") None true) true (world_of db_empty) = (inr rS, wS)
    /\ sendMessage count_units
         (env_of ([], None) (inr (completion_of "" (Some (usage_rep 3 0 3))))) user1
         (params_mode (js "hi") None false) true (world_of db_empty) = (inr rB, wB)
    /\ r_content rS = r_content rB
    /\ w_events wS = [EvDone]
    /\ w_events wB = []
    /\ same_response stream_usage_last (completion_of "hello" (Some (usage_rep 3 4 7)))
    /\ sendMessage count_units (env_of (stream_usage_last, None) (inl OtherError)) user1
         (params_mode (js "hi") None true) true (world_of db_empty) = (inr rS2, wS2)
    /\ sendMessage count_units
         (env_of ([], None) (inr (completion_of "hello" (Some (usage_rep 3 4 7))))) user1
         (params_mode (js "hi") None false) true (world_of db_empty) = (inr rB2, wB2)
    /\ r_usage rS2 <> r_usage rB2.
Proof.
  do 8 eexists.
  split; [ split; [ reflexivity | split; reflexivity ] |].
  split; [ vm_compute; reflexivity |]. split; [ vm_compute; reflexivity |].
  split; [ reflexivity |]. split; [ reflexivity |]. split; [ reflexivity |].
  split; [ split; [ reflexivity | split; reflexivity ] |].
  split; [ vm_compute; reflexivity |]. split; [ vm_compute; reflexivity |].
  vm_compute; discriminate.
Qed.

Lemma sendMessage_modes_agree_witness :
  exists rS wS rB wB,
    sendMessage count_units (env_of (stream_hello, None) (inl OtherError)) user1
      (params_mode (js "hi") None true) true (world_of db_empty) = (inr rS, wS)
    /\ sendMessage count_units
         (env_of ([], None) (inr (completion_of "hello" (Some (usage_rep 3 4 7))))) user1
         (params_mode (js "hi") None false) true (world_of db_empty) = (inr rB, wB)
    /\ r_content rS = r_content rB
    /\ r_usage rS = r_usage rB
    /\ w_events wB = [] ++ (if truthy (r_content rB)
                            then [EvContent (r_content rB); EvDone] else []).
Proof.
  destruct (sendMessage count_units (env_of (stream_hello, None) (inl OtherError)) user1
              (params_mode (js "hi") None true) true (world_of db_empty)) as [[e|rS] wS] eqn:ES;
    [ vm_compute in ES; discriminate |].
  destruct (sendMessage count_units
              (env_of ([], None) (inr (completion_of "hello" (Some (usage_rep 3 4 7))))) user1
              (params_mode (js "hi") None false) true (world_of db_empty)) as [[e|rB] wB] eqn:EB;
    [ vm_compute in EB; discriminate |].
  exists rS, wS, rB, wB. split; [ reflexivity |]. split; [ reflexivity |].
  apply (sendMessage_modes_agree count_units (env_of (stream_hello, None) (inl OtherError))
           (env_of ([], None) (inr (completion_of "hello" (Some (usage_rep 3 4 7)))))
           user1 (js "hi") None (completion_of "hello" (Some (usage_rep 3 4 7)))
           (world_of db_empty) rS wS rB wB).
  - repeat (apply Forall_cons; [ discriminate |]); apply Forall_nil.
  - reflexivity.
  - split; [ reflexivity | split; reflexivity ].
  - exact ES.
  - exact EB.
Defined.

Lemma call_buffered_completion env cb rq w acc w2 :
  call_buffered env cb rq w = (inr (inr acc), w2) ->
  exists comp, e_completion env = inr comp.
Proof.
  unfold call_buffered, bind, record_request; simpl.
  destruct (e_completion env) as [err|comp]; [ discriminate | eauto ].
Qed.

(** Either branch, when it returns a reply, has sent one request and read
    the usage [usage_read] gives. *)
Lemma call_ok_usage env cb (s : bool) rq w acc w2 :
  (if s then call_streaming env cb rq else call_buffered env cb rq) w = (inr (inr acc), w2) ->
  acc_usage acc = usage_read env s /\ w_requests w2 = w_requests w ++ [rq].
Proof.
  intros C. destruct s.
  - destruct (call_streaming_ok _ _ _ _ _ _ C) as (_ & _ & _ & _ & _ & Cr).
    split; [ rewrite (call_streaming_usage _ _ _ _ _ _ C); reflexivity | exact Cr ].
  - destruct (call_buffered_completion _ _ _ _ _ _ C) as [comp Ec].
    destruct (call_buffered_ok _ _ _ _ _ _ _ Ec C) as (_ & _ & Cu & _ & Cr).
    split; [ unfold usage_read; rewrite Ec, Cu; reflexivity | exact Cr ].
Qed.

(** C4 (as the code has it): a successful call sends one request; when the
    usage the service read from the provider has a total of [0] (or it read
    none), the returned usage is computed locally with the service's
    tokenizer, prompt tokens over the request's messages except the new
    user turn (one [role: content] line each, joined by newlines) and
    completion tokens over the reply followed by the reasoning, with total
    the sum; when that total is non-zero, the usage read is returned as it
    is. *)
Theorem sendMessage_usage_fallback ct env userId params cb w r w' :
  sendMessage ct env userId params cb w = (inr r, w') ->
  exists rq,
    w_requests w' = w_requests w ++ [rq]
    /\ (totalTokens (usage_read env (rq_stream rq)) <> 0 ->
        r_usage r = usage_read env (rq_stream rq))
    /\ (totalTokens (usage_read env (rq_stream rq)) = 0 ->
        r_usage r =
          {| promptTokens := ct (js_join [10%N] (map prompt_line (removelast (rq_messages rq))));
             completionTokens := ct (r_content r ++ or_empty (r_reasoning r));
             totalTokens := ct (js_join [10%N] (map prompt_line (removelast (rq_messages rq))))
                            + ct (r_content r ++ or_empty (r_reasoning r)) |}).
Proof.
  intros H.
  destruct (sendMessage_success _ _ _ _ _ _ _ _ H)
    as (pp & chatId & m & hist & w0 & client & w1 & uid & w1' & acc & w2 &
        P & R & I & U & C & PR & ->).
  destruct (call_ok_usage _ _ _ _ _ _ _ C) as [Cu Cr].
  pose proof (proj2 (quiet_resolve userId (pp_content pp) (pp_chatId pp) w)) as Q1; rewrite R in Q1.
  pose proof (proj2 (quiet_init m w0)) as Q2; rewrite I in Q2.
  pose proof (proj2 (quiet_user_message chatId (pp_content pp) w1)) as Q3; rewrite U in Q3.
  match type of PR with persist_reply _ _ _ _ _ ?us _ = _ =>
    pose proof (proj2 (quiet_persist env chatId m (acc_content acc) (acc_reasoning acc) us w2)) as Q4 end.
  rewrite PR in Q4. simpl in Q1, Q2, Q3, Q4.
  eexists. split; [ rewrite Q4, Cr, Q3, Q2, Q1; reflexivity |].
  simpl. rewrite removelast_last, <- Cu. split.
  - apply usage_fallback_reported.
  - apply usage_fallback_local.
Qed.

Lemma sendMessage_usage_fallback_witness :
  exists r w',
    sendMessage count_units (env_of (stream_usage_last, None) (inl OtherError)) user1
      (params_new (js "hi") None) true (world_of db_empty) = (inr r, w')
    /\ exists rq,
      w_requests w' = [] ++ [rq]
      /\ (totalTokens (usage_read (env_of (stream_usage_last, None) (inl OtherError))
                                  (rq_stream rq)) <> 0 ->
          r_usage r = usage_read (env_of (stream_usage_last, None) (inl OtherError))
                                 (rq_stream rq))
      /\ (totalTokens (usage_read (env_of (stream_usage_last, None) (inl OtherError))
                                  (rq_stream rq)) = 0 ->
          r_usage r =
            {| promptTokens := count_units (js_join [10%N]
                                 (map prompt_line (removelast (rq_messages rq))));
               completionTokens := count_units (r_content r ++ or_empty (r_reasoning r));
               totalTokens := count_units (js_join [10%N]
                                 (map prompt_line (removelast (rq_messages rq))))
                              + count_units (r_content r ++ or_empty (r_reasoning r)) |}).
Proof.
  destruct (sendMessage count_units (env_of (stream_usage_last, None) (inl OtherError)) user1
              (params_new (js "hi") None) true (world_of db_empty)) as [[e|r] w'] eqn:E;
    [ vm_compute in E; discriminate |].
  exists r, w'. split; [ reflexivity |].
  exact (sendMessage_usage_fallback count_units (env_of (stream_usage_last, None) (inl OtherError))
           user1 (params_new (js "hi") None) true (world_of db_empty) r w' E).
Defined.

(** C4 as stated fails: a first message with no usage reported gets
    [promptTokens] counted over no text at all, although the request carried
    the user's turn; and reported counters of [0] with a total of [5] are
    kept as reported. *)
Lemma sendMessage_usage_fallback_gaps :
  exists r w' r2 w2',
    sendMessage count_units (env_of ([text_chunk "hello" None], None) (inl OtherError)) user1
      (params_new (js "hi") None) true (world_of db_empty) = (inr r, w')
    /\ w_requests w' <> []
    /\ map om_content (flat_map rq_messages (w_requests w')) = [js "hi"]
    /\ promptTokens (r_usage r) = count_units []
    /\ sendMessage count_units
         (env_of ([], None) (inr (completion_of "hello" (Some (usage_rep 0 0 5))))) user1
         (params_mode (js "hi") None false) true (world_of db_empty) = (inr r2, w2')
    /\ r_usage r2 = usage_of (usage_rep 0 0 5).
Proof.
  do 4 eexists. split; [ vm_compute; reflexivity |].
  split; [ vm_compute; discriminate |]. split; [ vm_compute; reflexivity |].
  split; [ vm_compute; reflexivity |].
  split; [ vm_compute; reflexivity | reflexivity ].
Qed.
(** ** The failure path *)

Lemma cuid_eqb k n : jstr_eqb (cuid k) (cuid n) = N.eqb k n.
Proof.
  destruct (N.eqb k n) eqn:E.
  - apply N.eqb_eq in E; subst; apply jstr_eqb_refl.
  - apply N.eqb_neq in E. destruct (jstr_eqb (cuid k) (cuid n)) eqn:J; [| reflexivity ].
    apply jstr_eqb_eq in J; injection J; intros; contradiction.
Qed.

(** A step that keeps the message rows and does not move [cuid()] back. *)
Definition keeps_rows {A} (m : M A) : Prop :=
  forall w, db_messages (w_db (snd (m w))) = db_messages (w_db w)
            /\ (db_seq (w_db w) <= db_seq (w_db (snd (m w))))%N
            /\ db_clock (w_db w) <= db_clock (w_db (snd (m w))).

Lemma keeps_bind {A B} (m : M A) (k : A -> M B) :
  keeps_rows m -> (forall a, keeps_rows (k a)) -> keeps_rows (bind m k).
Proof.
  intros Hm Hk w; unfold bind.
  specialize (Hm w). destruct (m w) as [[e|a] w1]; simpl in *; [ exact Hm |].
  destruct Hm as [E1 [R1 C1]]. specialize (Hk a w1). destruct (k a w1) as [o w2]; simpl in *.
  destruct Hk as [E2 [R2 C2]]. split; [ congruence | split; lia ].
Qed.

Lemma keeps_ret {A} (a : A) : keeps_rows (ret a).
Proof. intros w; simpl; split; [ reflexivity | split; lia ]. Qed.

Lemma keeps_throw {A} e : keeps_rows (@throw A e).
Proof. intros w; simpl; split; [ reflexivity | split; lia ]. Qed.

Lemma keeps_get_db : keeps_rows get_db.
Proof. intros w; simpl; split; [ reflexivity | split; lia ]. Qed.

Lemma keeps_chat_create userId title m : keeps_rows (chat_create userId title m).
Proof. intros w; simpl; split; [ reflexivity | split; lia ]. Qed.

Lemma resolve_db userId content cid w o w0 :
  resolve userId content cid w = (o, w0) ->
  db_messages (w_db w0) = db_messages (w_db w) /\ (db_seq (w_db w) <= db_seq (w_db w0))%N
  /\ db_clock (w_db w) <= db_clock (w_db w0).
Proof.
  intros H.
  assert (K : keeps_rows (resolve userId content cid)).
  { unfold resolve, getDefaultModel, getChatHistory.
    repeat first
      [ apply keeps_ret | apply keeps_throw | apply keeps_get_db | apply keeps_chat_create
      | apply keeps_bind; [| intros ?]
      | match goal with
        | |- keeps_rows (match ?x with _ => _ end) => destruct x
        | |- keeps_rows (if ?b then _ else _) => destruct b
        end
      | progress cbv beta iota zeta ]. }
  specialize (K w); rewrite H in K; exact K.
Qed.

Lemma resolve_new userId content w r w0 :
  resolve userId content None w = (inr r, w0) ->
  exists chat,
    w_db w0 = bump (set_chats (w_db w) (db_chats (w_db w) ++ [chat]))
    /\ ch_id chat = cuid (db_seq (w_db w)) /\ ch_userId chat = userId
    /\ fst (fst r) = ch_id chat.
Proof.
  unfold resolve, getDefaultModel, chat_create, bind, get_db, put_db, ret, throw.
  intros H. simpl in H.
  destruct (model_findFirst_enabled (w_db w)); simpl in H; [| discriminate ].
  injection H as <- <-. eexists; repeat split.
Qed.

Lemma init_world m w o w1 : initOpenAIClient m w = (o, w1) -> w1 = w.
Proof.
  unfold initOpenAIClient, ret, throw.
  destruct (am_baseUrl m), (am_apiKey m); try destruct (_ && _);
    intros H; injection H as _ <-; reflexivity.
Qed.

Lemma user_message_ok chatId content w uid w1 :
  user_message_create chatId content w = (inr uid, w1) ->
  exists row,
    w_db w1 = bump (set_messages (w_db w) (db_messages (w_db w) ++ [row]))
    /\ msg_id row = uid /\ uid = cuid (db_seq (w_db w))
    /\ msg_role row = js "USER" /\ msg_chatId row = chatId
    /\ msg_content row = content /\ msg_createdAt row = db_clock (w_db w)
    /\ chat_exists (w_db w) chatId = true.
Proof.
  unfold user_message_create, message_insert, bind, get_db, put_db, ret, throw; simpl.
  destruct (chat_exists (w_db w) chatId) eqn:X; simpl; [| discriminate ].
  intros H; injection H as <- <-. eexists; repeat split; exact X.
Qed.

(** Either branch leaves the database alone, sends its request and throws
    no service error. *)
Lemma call_world env cb (s : bool) rq w o w2 :
  (if s then call_streaming env cb rq else call_buffered env cb rq) w = (o, w2) ->
  w_db w2 = w_db w /\ w_requests w2 = w_requests w ++ [rq] /\ exists x, o = inr x.
Proof.
  destruct s.
  - unfold call_streaming. intros H.
    rewrite (bind_inr _ _ _ tt _ (eq_refl : record_request rq w = (inr tt, _))) in H.
    destruct (stream_loop_spec cb (fst (e_stream env)) acc0
                {| w_db := w_db w; w_events := w_events w; w_requests := w_requests w ++ [rq];
                   w_log := w_log w |}) as [acc' [E _]].
    rewrite (bind_inr _ _ _ _ _ E) in H.
    destruct (snd (e_stream env)).
    + unfold ret in H; injection H as <- <-; simpl; eauto.
    + rewrite (bind_inr _ _ _ tt _ (emit_add cb EvDone _)) in H.
      unfold ret in H; injection H as <- <-; simpl; eauto.
  - unfold call_buffered, bind, record_request, emit, ret; simpl.
    destruct (e_completion env) as [err|comp]; simpl.
    + intros H; injection H as <- <-; simpl; eauto.
    + match goal with |- context [if ?b then _ else _] => destruct b end;
        intros H; injection H as <- <-; simpl; eauto.
Qed.

Lemma on_upstream_error_run env uid err w :
  exists msg,
    on_upstream_error env uid err w
    = (inl (ChatError msg (match err with
                           | APIError (Some st) _ => st
                           | APIError None _ => 500
                           | OtherError => 503
                           end)),
       {| w_db := if e_delete_ok env
                  then match message_delete (w_db w) uid with Some db' => db' | None => w_db w end
                  else w_db w;
          w_events := w_events w; w_requests := w_requests w;
          w_log := w_log w ++ [js "ai call failed"] |}).
Proof.
  unfold on_upstream_error, bind, log_error, get_db, put_db, ret, throw; simpl.
  destruct (e_delete_ok env); [ destruct (message_delete _ uid) |];
    destruct err as [[st|] msg|]; eexists; reflexivity.
Qed.

Lemma call_failure env cb (s : bool) rq w err w2 :
  (if s then call_streaming env cb rq else call_buffered env cb rq) w = (inr (inl err), w2) ->
  upstream_failure env s = Some err.
Proof.
  destruct s; unfold upstream_failure.
  - unfold call_streaming. intros H.
    rewrite (bind_inr _ _ _ tt _ (eq_refl : record_request rq w = (inr tt, _))) in H.
    destruct (stream_loop_spec cb (fst (e_stream env)) acc0
                {| w_db := w_db w; w_events := w_events w; w_requests := w_requests w ++ [rq];
                   w_log := w_log w |}) as [acc' [E _]].
    rewrite (bind_inr _ _ _ _ _ E) in H.
    destruct (snd (e_stream env)).
    + unfold ret in H; injection H as -> _; reflexivity.
    + rewrite (bind_inr _ _ _ tt _ (emit_add cb EvDone _)) in H; discriminate.
  - unfold call_buffered, bind, record_request, emit, ret; simpl.
    destruct (e_completion env) as [e0|comp]; simpl.
    + intros H; injection H as -> _; reflexivity.
    + match goal with |- context [if ?b then _ else _] => destruct b end; discriminate.
Qed.

(** A failed [sendMessage] that reached the provider failed there. *)
Lemma sendMessage_failure ct env userId params cb w e w' :
  sendMessage ct env userId params cb w = (inl e, w') ->
  w_requests w' <> w_requests w ->
  exists pp chatId m hist w0 client w1 uid w1' rq err w2,
    parse_sendMessage params = inr pp
    /\ resolve userId (pp_content pp) (pp_chatId pp) w = (inr (chatId, m, hist), w0)
    /\ initOpenAIClient m w0 = (inr client, w1)
    /\ user_message_create chatId (pp_content pp) w1 = (inr uid, w1')
    /\ rq_stream rq = pp_stream pp
    /\ rq_messages rq = messagesToOpenAIFormat hist
                         ++ [{| om_role := js "user"; om_content := pp_content pp |}]
    /\ (if pp_stream pp then call_streaming env cb rq else call_buffered env cb rq) w1'
       = (inr (inl err), w2)
    /\ on_upstream_error env uid err w2 = (inl e, w').
Proof.
  unfold sendMessage; intros H NR.
  destruct (parse_sendMessage params) as [iss|pp] eqn:P;
    [ unfold throw in H; injection H as _ <-; contradiction |].
  pose proof (proj2 (quiet_resolve userId (pp_content pp) (pp_chatId pp) w)) as Q1.
  destruct (resolve userId (pp_content pp) (pp_chatId pp) w) as [[e0|[[chatId m] hist]] w0] eqn:R;
    simpl in Q1;
    [ rewrite (bind_inl _ _ _ _ _ R) in H; injection H as _ <-; contradiction |].
  rewrite (bind_inr _ _ _ _ _ R) in H; cbv beta iota zeta in H.
  pose proof (proj2 (quiet_init m w0)) as Q2.
  destruct (initOpenAIClient m w0) as [[e0|client] w1] eqn:I; simpl in Q2;
    [ rewrite (bind_inl _ _ _ _ _ I) in H; injection H as _ <-; congruence |].
  rewrite (bind_inr _ _ _ _ _ I) in H; cbv beta iota zeta in H.
  pose proof (proj2 (quiet_user_message chatId (pp_content pp) w1)) as Q3.
  destruct (user_message_create chatId (pp_content pp) w1) as [[e0|uid] w1'] eqn:U; simpl in Q3;
    [ rewrite (bind_inl _ _ _ _ _ U) in H; injection H as _ <-; congruence |].
  rewrite (bind_inr _ _ _ _ _ U) in H; cbv beta iota zeta in H.
  match type of H with
  | bind (if _ then call_streaming _ _ ?rq else _) _ _ = _ => pose (rq0 := rq)
  end.
  destruct ((if pp_stream pp then call_streaming env cb rq0 else call_buffered env cb rq0) w1')
    as [o w2] eqn:C.
  destruct (call_world _ _ _ _ _ _ _ C) as (_ & _ & [x ->]).
  rewrite (bind_inr _ _ _ _ _ C) in H; cbv beta iota zeta in H.
  destruct x as [err|acc].
  - exists pp, chatId, m, hist, w0, client, w1, uid, w1', rq0, err, w2.
    repeat split; assumption.
  - match type of H with
    | bind ?pr _ w2 = _ => destruct (pr w2) as [o w3] eqn:PR
    end.
    pose proof (f_equal fst PR) as O; rewrite persist_reply_ok in O; simpl in O; subst o.
    rewrite (bind_inr _ _ _ _ _ PR) in H; discriminate.
Qed.

Lemma filter_fresh_id (l : list MessageRow) n :
  Forall (fun m => exists k, msg_id m = cuid k /\ (k < n)%N) l ->
  filter (fun m => negb (jstr_eqb (msg_id m) (cuid n))) l = l.
Proof.
  induction 1 as [|x l [k [Ek Lk]] _ IH]; [ reflexivity |].
  simpl. rewrite Ek, cuid_eqb. replace (N.eqb k n) with false by (symmetry; apply N.eqb_neq; lia).
  simpl; f_equal; exact IH.
Qed.

Lemma filter_fresh_chat (l : list MessageRow) n :
  Forall (fun m => exists k, msg_chatId m = cuid k /\ (k < n)%N) l ->
  filter (fun m => jstr_eqb (msg_chatId m) (cuid n)) l = [].
Proof.
  induction 1 as [|x l [k [Ek Lk]] _ IH]; [ reflexivity |].
  simpl. rewrite Ek, cuid_eqb. replace (N.eqb k n) with false by (symmetry; apply N.eqb_neq; lia).
  exact IH.
Qed.

(** What a failure at the provider leaves behind: one request sent, a
    [ChatError] whose status is the provider's (or [500] for an [APIError]
    without one, [503] for any other error), the chats as step 1 left them,
    and the message rows as before the call, plus the user's turn when the
    delete did not reach the database. *)
Lemma upstream_failure_rows ct env userId params cb w e w' :
  ids_issued (w_db w) ->
  sendMessage ct env userId params cb w = (inl e, w') ->
  w_requests w' <> w_requests w ->
  exists pp chatId m hist w0 rq err msg row,
    parse_sendMessage params = inr pp
    /\ resolve userId (pp_content pp) (pp_chatId pp) w = (inr (chatId, m, hist), w0)
    /\ w_requests w' = w_requests w ++ [rq]
    /\ upstream_failure env (rq_stream rq) = Some err
    /\ e = ChatError msg (match err with
                          | APIError (Some st) _ => st
                          | APIError None _ => 500
                          | OtherError => 503
                          end)
    /\ db_chats (w_db w') = db_chats (w_db w0)
    /\ db_messages (w_db w')
       = (if e_delete_ok env then db_messages (w_db w) else db_messages (w_db w) ++ [row])
    /\ msg_role row = js "USER" /\ msg_chatId row = chatId.
Proof.
  intros WF H NR.
  destruct (sendMessage_failure _ _ _ _ _ _ _ _ H NR)
    as (pp & chatId & m & hist & w0 & client & w1 & uid & w1' & rq & err & w2 &
        P & R & I & U & Sr & _ & C & OE).
  destruct (resolve_db _ _ _ _ _ _ R) as [Rm [Rs _]].
  pose proof (init_world _ _ _ _ I); subst w1.
  pose proof (proj2 (quiet_resolve userId (pp_content pp) (pp_chatId pp) w)) as Q1; rewrite R in Q1.
  pose proof (proj2 (quiet_user_message chatId (pp_content pp) w0)) as Q3; rewrite U in Q3.
  simpl in Q1, Q3.
  destruct (user_message_ok _ _ _ _ _ U) as (row & Dw1 & Ir & -> & Rr & Cr & _).
  destruct (call_world _ _ _ _ _ _ _ C) as (Dw2 & Qw2 & _).
  pose proof (call_failure _ _ _ _ _ _ _ C) as F.
  destruct (on_upstream_error_run env (cuid (db_seq (w_db w0))) err w2) as [msg OR].
  rewrite OE in OR; injection OR as -> ->.
  exists pp, chatId, m, hist, w0, rq, err, msg, row.
  split; [ exact P |]. split; [ exact R |].
  split; [ simpl; rewrite Qw2, Q3, Q1; reflexivity |].
  split; [ rewrite Sr; exact F |]. split; [ reflexivity |].
  simpl; rewrite Dw2, Dw1.
  destruct (e_delete_ok env).
  - unfold message_delete; simpl. rewrite existsb_app; simpl. rewrite Ir, jstr_eqb_refl, orb_true_r.
    simpl. rewrite filter_app; simpl. rewrite Ir, jstr_eqb_refl; simpl. rewrite app_nil_r.
    repeat split; try assumption.
    rewrite Rm. apply filter_fresh_id.
    eapply Forall_impl; [| exact WF ]. simpl.
    intros x [[k [Ek Lk]] _]. exists k; split; [ exact Ek | lia ].
  - repeat split; try assumption. rewrite Rm; reflexivity.
Qed.

(** C3 (as the code has it): when a call fails after its request reached the
    provider, the provider reported a failure in the call's mode; the call
    fails with a [ChatError] carrying the provider's HTTP status, [500] for
    an [APIError] without a status and [503] for any other error; when the
    delete reaches the database the message rows are those before the call
    (so every chat's count is its pre-call count); and every row the call
    leaves behind that was not there before is a [USER] row, so no assistant
    message is persisted. *)
Theorem sendMessage_upstream_failure ct env userId params cb w e w' :
  ids_issued (w_db w) ->
  sendMessage ct env userId params cb w = (inl e, w') ->
  w_requests w' <> w_requests w ->
  exists rq err msg,
    w_requests w' = w_requests w ++ [rq]
    /\ upstream_failure env (rq_stream rq) = Some err
    /\ e = ChatError msg (match err with
                          | APIError (Some st) _ => st
                          | APIError None _ => 500
                          | OtherError => 503
                          end)
    /\ (e_delete_ok env = true -> db_messages (w_db w') = db_messages (w_db w))
    /\ (forall row, In row (db_messages (w_db w')) ->
                    In row (db_messages (w_db w)) \/ msg_role row = js "USER").
Proof.
  intros WF H NR.
  destruct (upstream_failure_rows _ _ _ _ _ _ _ _ WF H NR)
    as (pp & chatId & m & hist & w0 & rq & err & msg & row & _ & _ & Rq & F & Ee & _ & Dm & Rr & _).
  exists rq, err, msg. split; [ exact Rq |]. split; [ exact F |]. split; [ exact Ee |].
  rewrite Dm. split.
  - intros ->; reflexivity.
  - intros x Hx. destruct (e_delete_ok env); [ left; exact Hx |].
    apply in_app_or in Hx as [Hx|[<-|[]]]; [ left; exact Hx | right; exact Rr ].
Qed.

Lemma sendMessage_upstream_failure_witness :
  exists e w',
    sendMessage count_units env_conn_lost user1 (params_new (js "hi") None) true
      (world_of db_empty) = (inl e, w')
    /\ exists rq err msg,
      w_requests w' = [] ++ [rq]
      /\ upstream_failure env_conn_lost (rq_stream rq) = Some err
      /\ e = ChatError msg (match err with
                            | APIError (Some st) _ => st
                            | APIError None _ => 500
                            | OtherError => 503
                            end)
      /\ (e_delete_ok env_conn_lost = true -> db_messages (w_db w') = [])
      /\ (forall row, In row (db_messages (w_db w')) -> In row [] \/ msg_role row = js "USER").
Proof.
  destruct (sendMessage count_units env_conn_lost user1 (params_new (js "hi") None) true
              (world_of db_empty)) as [[e|r] w'] eqn:E; [| vm_compute in E; discriminate ].
  exists e, w'. split; [ reflexivity |].
  apply (sendMessage_upstream_failure count_units env_conn_lost user1 (params_new (js "hi") None)
           true (world_of db_empty) e w').
  - apply Forall_nil.
  - exact E.
  - pose proof E as E'; vm_compute in E'; injection E' as _ Ew; rewrite <- Ew.
    vm_compute; discriminate.
Defined.

(** A connection failure, an [APIError] without status, surfaces as a
    [ChatError] with status [500]. *)
Lemma sendMessage_conn_lost_status :
  exists msg w',
    sendMessage count_units env_conn_lost user1 (params_new (js "hi") None) true
      (world_of db_empty) = (inl (ChatError msg 500), w').
Proof. eexists; eexists; vm_compute; reflexivity. Qed.

(** C10: when a call without a chat id fails at the provider and the delete
    reaches the database, the chat created by step 1 stays, owned by the
    caller and with no message row, while the message rows are those before
    the call. *)
Theorem sendMessage_failed_new_chat_kept ct env userId params cb w e w' :
  ids_issued (w_db w) ->
  p_chatId params = None ->
  e_delete_ok env = true ->
  sendMessage ct env userId params cb w = (inl e, w') ->
  w_requests w' <> w_requests w ->
  exists chat,
    db_chats (w_db w') = db_chats (w_db w) ++ [chat]
    /\ ch_userId chat = userId
    /\ chat_messages (w_db w') (ch_id chat) = []
    /\ db_messages (w_db w') = db_messages (w_db w).
Proof.
  intros WF Hc Hd H NR.
  destruct (upstream_failure_rows _ _ _ _ _ _ _ _ WF H NR)
    as (pp & chatId & m & hist & w0 & rq & err & msg & row & P & R & _ & _ & _ & Dc & Dm & _ & _).
  rewrite Hd in Dm.
  destruct (parse_stream _ _ P) as (_ & Pc & _). rewrite Pc, Hc in R.
  destruct (resolve_new _ _ _ _ _ R) as (chat & D0 & Ic & Uc & _).
  exists chat. rewrite Dc, D0. split; [ reflexivity |]. split; [ exact Uc |].
  unfold chat_messages. rewrite Dm, Ic. split; [| reflexivity ].
  apply filter_fresh_chat. eapply Forall_impl; [| exact WF ]. simpl.
  intros x [_ [k [Ek Lk]]]. exists k; split; assumption.
Qed.

Lemma sendMessage_failed_new_chat_kept_witness :
  exists e w',
    sendMessage count_units env_conn_lost user1 (params_new (js "hi") None) true
      (world_of db_empty) = (inl e, w')
    /\ exists chat,
      db_chats (w_db w') = [] ++ [chat]
      /\ ch_userId chat = user1
      /\ chat_messages (w_db w') (ch_id chat) = []
      /\ db_messages (w_db w') = [].
Proof.
  destruct (sendMessage count_units env_conn_lost user1 (params_new (js "hi") None) true
              (world_of db_empty)) as [[e|r] w'] eqn:E; [| vm_compute in E; discriminate ].
  exists e, w'. split; [ reflexivity |].
  apply (sendMessage_failed_new_chat_kept count_units env_conn_lost user1
           (params_new (js "hi") None) true (world_of db_empty) e w').
  - apply Forall_nil.
  - reflexivity.
  - reflexivity.
  - exact E.
  - pose proof E as E'; vm_compute in E'; injection E' as _ Ew; rewrite <- Ew.
    vm_compute; discriminate.
Defined.

(** ** Finalisation *)

Lemma call_with_tx env b cb (s : bool) rq :
  (if s then call_streaming (with_tx env b) cb rq else call_buffered (with_tx env b) cb rq)
  = (if s then call_streaming env cb rq else call_buffered env cb rq).
Proof. destruct s; reflexivity. Qed.

(** The transaction writes the row and stamps the chat, or does nothing. *)
Lemma finalize_tx_ok db row chatId now db' :
  finalize_tx db row chatId now = Some db' ->
  db_messages db' = db_messages db ++ [row]
  /\ exists c, In c (db_chats db') /\ ch_id c = chatId /\ ch_updatedAt c = now.
Proof.
  unfold finalize_tx, message_insert, chat_touch.
  destruct (chat_exists db (msg_chatId row)); [| discriminate ].
  destruct (chat_exists _ chatId) eqn:X; [| discriminate ].
  intros H; injection H as <-; simpl. split; [ reflexivity |].
  unfold chat_exists in X; simpl in X. apply existsb_exists in X as [c [Ic Ec]].
  eexists; split; [ apply in_map_iff; exists c; split; [ reflexivity | exact Ic ] |].
  rewrite Ec; apply jstr_eqb_eq in Ec; simpl; split; [ exact Ec | reflexivity ].
Qed.

(** C7: a successful call builds one [ASSISTANT] row for its chat carrying
    the reply, the reasoning, the model identifiers, the duration and the
    usage it returns. When the transaction commits, the database gains that
    row and the chat's [updatedAt] is the transaction's clock, with nothing
    logged; when it does not, the database is as the upstream call left it
    and [save failed] is logged. In the same world with a failing
    transaction, the call still returns the same response. *)
Theorem sendMessage_persist_logged ct env userId params cb w r w' :
  sendMessage ct env userId params cb w = (inr r, w') ->
  exists db2 log2 chatId row,
    msg_role row = js "ASSISTANT" /\ msg_chatId row = chatId
    /\ msg_content row = r_content r /\ msg_reasoning row = r_reasoning r
    /\ msg_modelId row = Some (r_modelId r) /\ msg_modelName row = Some (r_modelName r)
    /\ msg_duration row = Some (r_duration r)
    /\ msg_promptTokens row = Some (promptTokens (r_usage r))
    /\ msg_completionTokens row = Some (completionTokens (r_usage r))
    /\ msg_totalTokens row = Some (totalTokens (r_usage r))
    /\ (e_tx_ok env = true -> forall db', finalize_tx db2 row chatId (e_now env) = Some db' ->
        w_db w' = db' /\ w_log w' = log2
        /\ db_messages db' = db_messages db2 ++ [row]
        /\ exists c, In c (db_chats db') /\ ch_id c = chatId /\ ch_updatedAt c = e_now env)
    /\ ((if e_tx_ok env then finalize_tx db2 row chatId (e_now env) else None) = None ->
        w_db w' = db2 /\ w_log w' = log2 ++ [js "save failed"])
    /\ sendMessage ct (with_tx env false) userId params cb w
       = (inr r, {| w_db := db2; w_events := w_events w'; w_requests := w_requests w';
                    w_log := log2 ++ [js "save failed"] |}).
Proof.
  intros H.
  destruct (sendMessage_success _ _ _ _ _ _ _ _ H)
    as (pp & chatId & m & hist & w0 & client & w1 & uid & w1' & acc & w2 &
        P & R & I & U & C & PR & ->).
  set (usage := usage_fallback ct _ (acc_content acc) (acc_reasoning acc) (acc_usage acc)) in *.
  set (row := new_message (w_db w2) chatId (js "ASSISTANT") (acc_content acc) (acc_reasoning acc)
                (Some (am_name m)) (Some (am_modelId m)) (Some (duration_of env))
                (Some (promptTokens usage)) (Some (completionTokens usage))
                (Some (totalTokens usage))).
  assert (PRw : persist_reply env chatId m (acc_content acc) (acc_reasoning acc) usage w2
                = (inr tt, match (if e_tx_ok env then finalize_tx (w_db w2) row chatId (e_now env)
                                  else None) with
                           | Some db' => {| w_db := db'; w_events := w_events w2;
                                            w_requests := w_requests w2; w_log := w_log w2 |}
                           | None => {| w_db := w_db w2; w_events := w_events w2;
                                        w_requests := w_requests w2;
                                        w_log := w_log w2 ++ [js "save failed"] |}
                           end)).
  { unfold persist_reply, bind, get_db; simpl.
    destruct (if e_tx_ok env then _ else None); reflexivity. }
  rewrite PR in PRw. injection PRw as Ew'.
  exists (w_db w2), (w_log w2), chatId, row.
  do 10 (split; [ reflexivity |]).
  split; [| split ].
  - intros Tx db' F. rewrite Tx, F in Ew'; subst w'; simpl.
    split; [ reflexivity |]. split; [ reflexivity |]. exact (finalize_tx_ok _ _ _ _ _ F).
  - intros F. rewrite F in Ew'; subst w'; simpl. split; reflexivity.
  - unfold sendMessage. rewrite P.
    rewrite (bind_inr _ _ _ _ _ R); cbv beta iota zeta.
    rewrite (bind_inr _ _ _ _ _ I); cbv beta iota zeta.
    rewrite (bind_inr _ _ _ _ _ U); cbv beta iota zeta.
    rewrite call_with_tx, (bind_inr _ _ _ _ _ C); cbv beta iota zeta.
    unfold bind at 1, persist_reply, bind, get_db, log_error, ret; simpl.
    subst w'. destruct (if e_tx_ok env then _ else None); reflexivity.
Qed.

Lemma sendMessage_persist_logged_witness :
  exists r w',
    sendMessage count_units (env_of (stream_hello, None) (inl OtherError)) user1
      (params_new (js "hi") None) true (world_of db_empty) = (inr r, w')
    /\ exists db2 log2 chatId row,
      msg_role row = js "ASSISTANT" /\ msg_chatId row = chatId
      /\ msg_content row = r_content r /\ msg_reasoning row = r_reasoning r
      /\ msg_modelId row = Some (r_modelId r) /\ msg_modelName row = Some (r_modelName r)
      /\ msg_duration row = Some (r_duration r)
      /\ msg_promptTokens row = Some (promptTokens (r_usage r))
      /\ msg_completionTokens row = Some (completionTokens (r_usage r))
      /\ msg_totalTokens row = Some (totalTokens (r_usage r))
      /\ (true = true -> forall db', finalize_tx db2 row chatId 77 = Some db' ->
          w_db w' = db' /\ w_log w' = log2
          /\ db_messages db' = db_messages db2 ++ [row]
          /\ exists c, In c (db_chats db') /\ ch_id c = chatId /\ ch_updatedAt c = 77)
      /\ ((if true then finalize_tx db2 row chatId 77 else None) = None ->
          w_db w' = db2 /\ w_log w' = log2 ++ [js "save failed"])
      /\ sendMessage count_units (with_tx (env_of (stream_hello, None) (inl OtherError)) false)
           user1 (params_new (js "hi") None) true (world_of db_empty)
         = (inr r, {| w_db := db2; w_events := w_events w'; w_requests := w_requests w';
                      w_log := log2 ++ [js "save failed"] |}).
Proof.
  destruct (sendMessage count_units (env_of (stream_hello, None) (inl OtherError)) user1
              (params_new (js "hi") None) true (world_of db_empty)) as [[e|r] w'] eqn:E;
    [ vm_compute in E; discriminate |].
  exists r, w'. split; [ reflexivity |].
  apply (sendMessage_persist_logged count_units (env_of (stream_hello, None) (inl OtherError))
           user1 (params_new (js "hi") None) true (world_of db_empty) r w').
  exact E.
Defined.

(** ** Context assembly *)

Lemma insert_desc_last x l :
  Forall (fun y => msg_createdAt x < msg_createdAt y) l -> insert_desc x l = l ++ [x].
Proof.
  induction 1 as [|y l Hy _ IH]; [ reflexivity |].
  simpl. replace (Z.ltb (msg_createdAt y) (msg_createdAt x)) with false
    by (symmetry; apply Z.ltb_ge; lia).
  rewrite IH; reflexivity.
Qed.

Lemma sort_desc_rev l :
  StronglySorted (fun a b => msg_createdAt a < msg_createdAt b) l -> sort_desc l = rev l.
Proof.
  induction 1 as [|x l _ IH Hx]; [ reflexivity |].
  simpl. rewrite IH. apply insert_desc_last, Forall_rev, Hx.
Qed.

Lemma ssorted_filter {A} (R : A -> A -> Prop) f l :
  StronglySorted R l -> StronglySorted R (filter f l).
Proof.
  induction 1 as [|x l _ IH Hx]; [ constructor |].
  simpl. destruct (f x); [| exact IH ].
  constructor; [ exact IH |].
  apply Forall_forall; intros y Hy. apply filter_In in Hy as [Hy _].
  exact (proj1 (Forall_forall _ _) Hx y Hy).
Qed.

Lemma ssorted_snoc {A} (R : A -> A -> Prop) l x :
  StronglySorted R l -> Forall (fun y => R y x) l -> StronglySorted R (l ++ [x]).
Proof.
  induction 1 as [|y l _ IH Hy]; intros Hx.
  - constructor; constructor.
  - inversion Hx as [|? ? Ryx Hl]; subst. simpl. constructor; [ exact (IH Hl) |].
    apply Forall_app; split; [ exact Hy | constructor; [ exact Ryx | constructor ] ].
Qed.

Lemma messagesToOpenAIFormat_id ms : messagesToOpenAIFormat ms = ms.
Proof. induction ms as [|[] ms IH]; simpl; [ reflexivity | rewrite IH; reflexivity ]. Qed.

(** With rows in creation order, the history is the chat's last ten rows,
    oldest first. *)
Lemma history_last_ten db cid :
  rows_in_order db ->
  map (fun m => {| om_role := msg_role m; om_content := msg_content m |})
      (rev (firstn 10 (sort_desc (chat_messages db cid))))
  = map row_pair (skipn (List.length (chat_messages db cid) - 10) (chat_messages db cid)).
Proof.
  intros [S _]. unfold chat_messages.
  rewrite sort_desc_rev by (apply ssorted_filter, S).
  rewrite firstn_rev, rev_involutive. reflexivity.
Qed.

Lemma resolve_existing userId content cid w r w0 :
  truthy cid = true ->
  resolve userId content (Some cid) w = (inr r, w0) ->
  w0 = w /\ fst (fst r) = cid
  /\ snd r = map (fun m => {| om_role := msg_role m; om_content := msg_content m |})
                 (rev (firstn 10 (sort_desc (chat_messages (w_db w) cid)))).
Proof.
  intros T H. unfold resolve in H. rewrite T in H.
  rewrite (bind_inr get_db _ w (w_db w) w eq_refl) in H; cbv beta in H.
  destruct (chat_findFirst (w_db w) cid userId) as [chat|]; [| discriminate ].
  match type of H with
  | bind ?mm _ _ = _ =>
      assert (Pm : forall v, snd (mm v) = v);
      [ intros v; unfold ret, getDefaultModel, bind, get_db, throw;
        repeat (simpl; match goal with
                       | |- context [match ?x with _ => _ end] => destruct x
                       end); reflexivity
      | destruct (mm w) as [[e|m] wm] eqn:Em ]
  end.
  - rewrite (bind_inl _ _ _ _ _ Em) in H; discriminate.
  - pose proof (Pm w) as Ew; rewrite Em in Ew; simpl in Ew; subst wm.
    rewrite (bind_inr _ _ _ _ _ Em) in H.
    unfold getChatHistory, bind, get_db, ret in H. injection H as <- <-.
    split; [ reflexivity | split; reflexivity ].
Qed.

(** A call whose request reached the provider sent it once, with the
    history step 1 read and the user's turn. *)
Lemma sent_request ct env userId params cb w o w' :
  sendMessage ct env userId params cb w = (o, w') ->
  w_requests w' <> w_requests w ->
  exists pp chatId m hist w0 rq,
    parse_sendMessage params = inr pp
    /\ resolve userId (pp_content pp) (pp_chatId pp) w = (inr (chatId, m, hist), w0)
    /\ w_requests w' = w_requests w ++ [rq]
    /\ rq_messages rq = messagesToOpenAIFormat hist
                         ++ [{| om_role := js "user"; om_content := pp_content pp |}].
Proof.
  intros H NR.
  assert (Q : forall pp chatId m hist w0 client w1 uid w1',
             resolve userId (pp_content pp) (pp_chatId pp) w = (inr (chatId, m, hist), w0) ->
             initOpenAIClient m w0 = (inr client, w1) ->
             user_message_create chatId (pp_content pp) w1 = (inr uid, w1') ->
             w_requests w1' = w_requests w).
  { intros pp chatId m hist w0 client w1 uid w1' R I U.
    pose proof (proj2 (quiet_resolve userId (pp_content pp) (pp_chatId pp) w)) as Q1.
    pose proof (proj2 (quiet_init m w0)) as Q2.
    pose proof (proj2 (quiet_user_message chatId (pp_content pp) w1)) as Q3.
    rewrite R in Q1; rewrite I in Q2; rewrite U in Q3; simpl in *; congruence. }
  destruct o as [e|r].
  - destruct (sendMessage_failure _ _ _ _ _ _ _ _ H NR)
      as (pp & chatId & m & hist & w0 & client & w1 & uid & w1' & rq & err & w2 &
          P & R & I & U & _ & Mq & C & OE).
    destruct (call_world _ _ _ _ _ _ _ C) as (_ & Cr & _).
    destruct (on_upstream_error_run env uid err w2) as [msg OR'].
    rewrite OE in OR'; injection OR' as _ ->.
    exists pp, chatId, m, hist, w0, rq. repeat split; try assumption.
    simpl; rewrite Cr, (Q _ _ _ _ _ _ _ _ _ R I U); reflexivity.
  - destruct (sendMessage_success _ _ _ _ _ _ _ _ H)
      as (pp & chatId & m & hist & w0 & client & w1 & uid & w1' & acc & w2 &
          P & R & I & U & C & PR & _).
    destruct (call_world _ _ _ _ _ _ _ C) as (_ & Cr & _).
    pose proof (proj2 (quiet_persist env chatId m (acc_content acc) (acc_reasoning acc)
                     (usage_fallback ct (messagesToOpenAIFormat hist
                        ++ [{| om_role := js "user"; om_content := pp_content pp |}])
                        (acc_content acc) (acc_reasoning acc) (acc_usage acc)) w2)) as Q4.
    rewrite PR in Q4; simpl in Q4.
    eexists pp, chatId, m, hist, w0, _. split; [ exact P |]. split; [ exact R |].
    split; [ rewrite Q4, Cr, (Q _ _ _ _ _ _ _ _ _ R I U); reflexivity | reflexivity ].
Qed.

Lemma persist_commit env chatId m c rs u w2 w' :
  e_tx_ok env = true -> chat_exists (w_db w2) chatId = true ->
  persist_reply env chatId m c rs u w2 = (inr tt, w') ->
  exists arow,
    db_messages (w_db w') = db_messages (w_db w2) ++ [arow]
    /\ msg_role arow = js "ASSISTANT" /\ msg_content arow = c /\ msg_chatId arow = chatId
    /\ msg_createdAt arow = db_clock (w_db w2)
    /\ db_clock (w_db w') = Z.succ (db_clock (w_db w2)).
Proof.
  intros Tx Ex H. unfold persist_reply, bind, get_db in H; simpl in H. rewrite Tx in H.
  unfold finalize_tx, message_insert, chat_touch in H. unfold chat_exists in *.
  simpl in H. rewrite Ex in H. simpl in H. rewrite Ex in H. simpl in H.
  injection H as <-. eexists; simpl; repeat split.
Qed.

(** A successful call whose transaction reaches the database appends the
    user's row and then the assistant's row to its chat, and keeps the rows
    in creation order. *)
Lemma success_rows ct env userId params cb w r w' :
  rows_in_order (w_db w) -> e_tx_ok env = true ->
  sendMessage ct env userId params cb w = (inr r, w') ->
  exists pp chatId m hist w0 urow arow,
    parse_sendMessage params = inr pp
    /\ resolve userId (pp_content pp) (pp_chatId pp) w = (inr (chatId, m, hist), w0)
    /\ db_messages (w_db w') = db_messages (w_db w) ++ [urow; arow]
    /\ row_pair urow = {| om_role := js "USER"; om_content := pp_content pp |}
    /\ row_pair arow = {| om_role := js "ASSISTANT"; om_content := r_content r |}
    /\ msg_chatId urow = chatId /\ msg_chatId arow = chatId
    /\ rows_in_order (w_db w').
Proof.
  intros [S B] Tx H.
  destruct (sendMessage_success _ _ _ _ _ _ _ _ H)
    as (pp & chatId & m & hist & w0 & client & w1 & uid & w1' & acc & w2 &
        P & R & I & U & C & PR & ->).
  destruct (resolve_db _ _ _ _ _ _ R) as (Rm & _ & Rc).
  pose proof (init_world _ _ _ _ I); subst w1.
  destruct (user_message_ok _ _ _ _ _ U) as (urow & Dw1 & _ & _ & Ur & Uc & Ut & Ua & Ex).
  destruct (call_world _ _ _ _ _ _ _ C) as (Dw2 & _ & _).
  assert (Ex2 : chat_exists (w_db w2) chatId = true)
    by (unfold chat_exists in *; rewrite Dw2, Dw1; exact Ex).
  destruct (persist_commit _ _ _ _ _ _ _ _ Tx Ex2 PR) as (arow & Dm & Ar & At & Ac & Aa & Ck).
  rewrite Dw2, Dw1 in Dm, Aa, Ck; simpl in Dm, Aa, Ck.
  exists pp, chatId, m, hist, w0, urow, arow.
  split; [ exact P |]. split; [ exact R |].
  split; [ rewrite Dm, Rm, <- app_assoc; reflexivity |].
  split; [ unfold row_pair; rewrite Ur, Ut; reflexivity |].
  split; [ unfold row_pair; rewrite Ar, At; reflexivity |].
  split; [ exact Uc |]. split; [ exact Ac |].
  rewrite Rm in Dm. split; rewrite Dm.
  - apply ssorted_snoc; [ apply ssorted_snoc; [ exact S |] |].
    + eapply Forall_impl; [| exact B ]. intros y Hy; cbv beta in Hy; simpl; lia.
    + apply Forall_app; split; [ eapply Forall_impl; [| exact B ]; intros y Hy; cbv beta in Hy; simpl; lia |].
      constructor; [ simpl; lia | constructor ].
  - rewrite Ck. apply Forall_app; split; [ apply Forall_app; split |].
    + eapply Forall_impl; [| exact B ]. intros y Hy; cbv beta in Hy; simpl; lia.
    + constructor; [ simpl; lia | constructor ].
    + constructor; [ simpl; lia | constructor ].
Qed.

(** The context a call on an existing chat sends. *)
Lemma request_context ct env userId params cb w o w' cid :
  rows_in_order (w_db w) -> p_chatId params = Some cid -> truthy cid = true ->
  sendMessage ct env userId params cb w = (o, w') ->
  w_requests w' <> w_requests w ->
  exists rq,
    w_requests w' = w_requests w ++ [rq]
    /\ rq_messages rq
       = map row_pair (skipn (List.length (chat_messages (w_db w) cid) - 10)
                             (chat_messages (w_db w) cid))
         ++ [{| om_role := js "user"; om_content := js_trim (p_content params) |}].
Proof.
  intros Hw Hc T H NR.
  destruct (sent_request _ _ _ _ _ _ _ _ H NR) as (pp & chatId & m & hist & w0 & rq & P & R & Rq & Mq).
  destruct (parse_stream _ _ P) as (Pc & Pch & _). rewrite Pch, Hc in R.
  destruct (resolve_existing _ _ _ _ _ _ T R) as (_ & _ & Hh). cbv [snd] in Hh.
  exists rq. split; [ exact Rq |].
  rewrite Mq, messagesToOpenAIFormat_id, Hh, history_last_ten, Pc by exact Hw. reflexivity.
Qed.

(** C6: on an existing chat (rows kept in creation order), the context a
    call sends is the chat's last ten rows, oldest first, as role/content
    pairs, followed by the new user turn; and after a successful call whose
    transaction reached the database, the next call on the same chat sends a
    context ending with the first call's user row, its assistant row and
    the new turn, in that order. *)
Theorem sendMessage_context :
  (forall ct env userId params cb w o w' cid,
     rows_in_order (w_db w) -> p_chatId params = Some cid -> truthy cid = true ->
     sendMessage ct env userId params cb w = (o, w') ->
     w_requests w' <> w_requests w ->
     exists rq,
       w_requests w' = w_requests w ++ [rq]
       /\ rq_messages rq
          = map row_pair (skipn (List.length (chat_messages (w_db w) cid) - 10)
                                (chat_messages (w_db w) cid))
            ++ [{| om_role := js "user"; om_content := js_trim (p_content params) |}])
  /\ (forall ct env1 env2 userId cid p1 p2 cb1 cb2 w r1 w1 o2 w2,
     rows_in_order (w_db w) -> p_chatId p1 = Some cid -> p_chatId p2 = Some cid ->
     truthy cid = true -> e_tx_ok env1 = true ->
     sendMessage ct env1 userId p1 cb1 w = (inr r1, w1) ->
     sendMessage ct env2 userId p2 cb2 w1 = (o2, w2) ->
     w_requests w2 <> w_requests w1 ->
     exists rq pre,
       w_requests w2 = w_requests w1 ++ [rq]
       /\ rq_messages rq
          = pre ++ [{| om_role := js "USER"; om_content := js_trim (p_content p1) |};
                    {| om_role := js "ASSISTANT"; om_content := r_content r1 |};
                    {| om_role := js "user"; om_content := js_trim (p_content p2) |}]).
Proof.
  split; [ exact request_context |].
  intros ct env1 env2 userId cid p1 p2 cb1 cb2 w r1 w1 o2 w2 Hw Hc1 Hc2 T Tx H1 H2 NR.
  destruct (success_rows _ _ _ _ _ _ _ _ Hw Tx H1)
    as (pp & chatId & m & hist & w0 & urow & arow & P & R & Dm & Pu & Pa & Cu & Ca & Hw1).
  destruct (parse_stream _ _ P) as (Pc & Pch & _). rewrite Pch, Hc1 in R.
  destruct (resolve_existing _ _ _ _ _ _ T R) as (_ & Ec & _). simpl in Ec; rewrite Ec in Cu, Ca.
  destruct (request_context _ _ _ _ _ _ _ _ _ Hw1 Hc2 T H2 NR) as (rq & Rq & Mq).
  set (L := chat_messages (w_db w) cid).
  assert (L1 : chat_messages (w_db w1) cid = L ++ [urow; arow]).
  { unfold L, chat_messages. rewrite Dm, filter_app. simpl.
    rewrite Cu, Ca, jstr_eqb_refl. reflexivity. }
  rewrite L1, length_app, skipn_app in Mq. simpl List.length in Mq.
  replace (List.length L + 2 - 10 - List.length L)%nat with 0%nat in Mq by lia.
  simpl skipn in Mq at 2. rewrite map_app in Mq. simpl in Mq. rewrite Pu, Pa, Pc in Mq.
  exists rq, (map row_pair (skipn (List.length L + 2 - 10) L)).
  split; [ exact Rq | rewrite Mq, <- app_assoc; reflexivity ].
Qed.

Lemma sendMessage_context_witness :
  exists r1 w1 o2 w2,
    sendMessage count_units (env_of (stream_hello, None) (inl OtherError)) user1
      (params_mode (js "hi") (Some (cuid 0)) true) true (world_of db_chat1) = (inr r1, w1)
    /\ sendMessage count_units (env_of (stream_hello, None) (inl OtherError)) user1
         (params_mode (js "again") (Some (cuid 0)) true) true w1 = (o2, w2)
    /\ (exists rq,
          w_requests w1 = [] ++ [rq]
          /\ rq_messages rq
             = map row_pair (skipn (List.length (chat_messages db_chat1 (cuid 0)) - 10)
                                   (chat_messages db_chat1 (cuid 0)))
               ++ [{| om_role := js "user"; om_content := js_trim (js "hi") |}])
    /\ (exists rq pre,
          w_requests w2 = w_requests w1 ++ [rq]
          /\ rq_messages rq
             = pre ++ [{| om_role := js "USER"; om_content := js_trim (js "hi") |};
                       {| om_role := js "ASSISTANT"; om_content := r_content r1 |};
                       {| om_role := js "user"; om_content := js_trim (js "again") |}]).
Proof.
  destruct (sendMessage count_units (env_of (stream_hello, None) (inl OtherError)) user1
              (params_mode (js "hi") (Some (cuid 0)) true) true (world_of db_chat1))
    as [[e|r1] w1] eqn:E1; [ vm_compute in E1; discriminate |].
  destruct (sendMessage count_units (env_of (stream_hello, None) (inl OtherError)) user1
              (params_mode (js "again") (Some (cuid 0)) true) true w1) as [o2 w2] eqn:E2.
  exists r1, w1, o2, w2. split; [ reflexivity |]. split; [ exact E2 |].
  pose proof E1 as E1'; vm_compute in E1'; injection E1' as _ Ew1.
  split.
  - apply (proj1 sendMessage_context count_units (env_of (stream_hello, None) (inl OtherError))
             user1 (params_mode (js "hi") (Some (cuid 0)) true) true (world_of db_chat1)
             (inr r1) w1 (cuid 0)).
    + split; constructor.
    + reflexivity.
    + reflexivity.
    + exact E1.
    + rewrite <- Ew1; vm_compute; discriminate.
  - apply (proj2 sendMessage_context count_units (env_of (stream_hello, None) (inl OtherError))
             (env_of (stream_hello, None) (inl OtherError)) user1 (cuid 0)
             (params_mode (js "hi") (Some (cuid 0)) true)
             (params_mode (js "again") (Some (cuid 0)) true) true true (world_of db_chat1)
             r1 w1 o2 w2).
    + split; constructor.
    + reflexivity.
    + reflexivity.
    + reflexivity.
    + reflexivity.
    + exact E1.
    + exact E2.
    + pose proof E2 as E2'; rewrite <- Ew1 in E2'; vm_compute in E2'.
      injection E2' as _ Ew2. rewrite <- Ew2, <- Ew1. vm_compute; discriminate.
Defined.

End PipelineFacts.

(** ** Login *)

Module LoginFacts.
Import Auth Samples.

(** C8 (as the code has it): a successful login found the account by its
    email and leaves the user table unchanged (no last-login timestamp or IP
    is written); its token is signed with the configured secret, is valid
    for [7d], and carries [userId] and [name] but no [email]; the returned
    user is the account's id, email and name. *)
Theorem login_success bc pe users email password r users' :
  login bc pe users email password = (inr r, users') ->
  users' = users
  /\ tok_secret (lr_token r) = getEnv pe "JWT_SECRET"
  /\ tok_expiresIn (lr_token r) = js "7d"
  /\ payload_field (lr_token r) (js "email") = None
  /\ exists u,
       user_findUnique users email = Some u
       /\ bc password (u_password u) = true
       /\ payload_field (lr_token r) (js "userId") = Some (JStr (u_id u))
       /\ payload_field (lr_token r) (js "name") = Some (json_of_option (u_name u))
       /\ lr_user r = {| pu_id := u_id u; pu_email := u_email u; pu_name := u_name u |}.
Proof.
  unfold login. destruct (user_findUnique users email) as [u|]; [| discriminate ].
  destruct (bc password (u_password u)) eqn:B; [| discriminate ].
  destruct (truthy (jwt_secret (config_jwt pe))); [| discriminate ].
  intros H; injection H as <- <-.
  split; [ reflexivity |]. split; [ reflexivity |]. split; [ reflexivity |].
  split; [ reflexivity |].
  exists u. repeat split; exact B.
Qed.

Lemma login_success_witness :
  exists r users',
    login bcrypt_match env_secret [user_a] (js "a@x.com") (js "pw") = (inr r, users')
    /\ users' = [user_a]
    /\ tok_secret (lr_token r) = getEnv env_secret "JWT_SECRET"
    /\ tok_expiresIn (lr_token r) = js "7d"
    /\ payload_field (lr_token r) (js "email") = None
    /\ exists u,
         user_findUnique [user_a] (js "a@x.com") = Some u
         /\ bcrypt_match (js "pw") (u_password u) = true
         /\ payload_field (lr_token r) (js "userId") = Some (JStr (u_id u))
         /\ payload_field (lr_token r) (js "name") = Some (json_of_option (u_name u))
         /\ lr_user r = {| pu_id := u_id u; pu_email := u_email u; pu_name := u_name u |}.
Proof.
  destruct (login bcrypt_match env_secret [user_a] (js "a@x.com") (js "pw")) as [[f|r] us] eqn:E;
    [ vm_compute in E; discriminate |].
  exists r, us. split; [ reflexivity |].
  exact (login_success bcrypt_match env_secret [user_a] (js "a@x.com") (js "pw") r us E).
Defined.

End LoginFacts.

(* ================================================================== *)
(** ** Further properties of the routes and services *)

Module SseFacts.
Import Chat Http SseClient.

Ltac nbool :=
  repeat match goal with
  | H : N.leb _ _ = true |- _ => apply N.leb_le in H
  | H : N.leb _ _ = false |- _ => apply N.leb_gt in H
  | H : N.ltb _ _ = true |- _ => apply N.ltb_lt in H
  | H : N.ltb _ _ = false |- _ => apply N.ltb_ge in H
  | H : N.eqb _ _ = true |- _ => apply N.eqb_eq in H
  | H : N.eqb _ _ = false |- _ => apply N.eqb_neq in H
  end.

Ltac nsplit :=
  repeat match goal with
  | |- context [N.leb ?a ?b] => destruct (N.leb a b) eqn:?
  | |- context [N.ltb ?a ?b] => destruct (N.ltb a b) eqn:?
  | |- context [N.eqb ?a ?b] => destruct (N.eqb a b) eqn:?
  end; nbool; cbv beta iota delta [andb orb negb].

Lemma hex_digit_val d : (d < 16)%N -> hex_val (hex_digit d) = Some d.
Proof.
  intros H. unfold hex_digit. destruct (N.ltb d 10) eqn:E; nbool;
  unfold hex_val; nsplit; try lia. all: f_equal; lia.
Qed.

Lemma hex4_digits (n : N) : (n < 65536)%N ->
  (((n / 16 / 16 / 16 mod 16 * 16 + n / 16 / 16 mod 16) * 16 + n / 16 mod 16) * 16
   + n mod 16 = n)%N.
Proof.
  intros H.
  pose proof (N.div_mod n 16 ltac:(discriminate)). pose proof (N.mod_lt n 16 ltac:(discriminate)).
  pose proof (N.div_mod (n / 16) 16 ltac:(discriminate)).
  pose proof (N.mod_lt (n / 16) 16 ltac:(discriminate)).
  pose proof (N.div_mod (n / 16 / 16) 16 ltac:(discriminate)).
  pose proof (N.mod_lt (n / 16 / 16) 16 ltac:(discriminate)).
  revert H H0 H1 H2 H3 H4 H5.
  generalize (n mod 16)%N (n / 16 mod 16)%N (n / 16 / 16 mod 16)%N (n / 16 / 16 / 16)%N.
  intros r0 r1 r2 q3. generalize (n / 16)%N (n / 16 / 16)%N. intros q1 q2. intros.
  rewrite (N.mod_small q3) by lia. lia.
Qed.

Lemma unicode_escape_read c rest : (c < 65536)%N ->
  string_chars (unicode_escape c ++ rest) = cons_fst c (string_chars rest).
Proof.
  intros H. unfold unicode_escape, hex4. cbn [app string_chars].
  simpl (N.eqb 92 34). simpl (N.eqb 92 92). simpl (N.eqb 117 117).
  cbv iota beta.
  rewrite !hex_digit_val by (apply N.mod_lt; discriminate).
  rewrite hex4_digits by exact H. reflexivity.
Qed.

Lemma leading_small c : is_leading c = true -> (c < 65536)%N /\ (32 <= c)%N /\ c <> 34%N /\ c <> 92%N.
Proof. unfold is_leading; intros H; apply andb_true_iff in H as [H1 H2]; nbool; lia. Qed.

Lemma trailing_small c : is_trailing c = true -> (c < 65536)%N /\ (32 <= c)%N /\ c <> 34%N /\ c <> 92%N.
Proof. unfold is_trailing; intros H; apply andb_true_iff in H as [H1 H2]; nbool; lia. Qed.

Lemma plain_read c rest : (32 <= c)%N -> c <> 34%N -> c <> 92%N ->
  string_chars (c :: rest) = cons_fst c (string_chars rest).
Proof.
  intros H1 H2 H3. simpl.
  replace (N.eqb c 34) with false by (symmetry; apply N.eqb_neq; exact H2).
  replace (N.eqb c 92) with false by (symmetry; apply N.eqb_neq; exact H3).
  replace (N.ltb c 32) with false by (symmetry; apply N.ltb_ge; exact H1).
  reflexivity.
Qed.

Lemma escape_unit_read c rest :
  is_leading c = false -> is_trailing c = false ->
  string_chars (escape_unit c ++ rest) = cons_fst c (string_chars rest).
Proof.
  intros L T. unfold escape_unit.
  destruct (N.eqb c 8) eqn:E8; [ nbool; subst; reflexivity |].
  destruct (N.eqb c 9) eqn:E9; [ nbool; subst; reflexivity |].
  destruct (N.eqb c 10) eqn:E10; [ nbool; subst; reflexivity |].
  destruct (N.eqb c 12) eqn:E12; [ nbool; subst; reflexivity |].
  destruct (N.eqb c 13) eqn:E13; [ nbool; subst; reflexivity |].
  destruct (N.eqb c 34) eqn:E34; [ nbool; subst; reflexivity |].
  destruct (N.eqb c 92) eqn:E92; [ nbool; subst; reflexivity |].
  destruct (N.ltb c 32) eqn:E32; nbool.
  - apply unicode_escape_read; lia.
  - apply plain_read; assumption.
Qed.

Lemma quote_units_cons c r :
  quote_units (c :: r)
  = if is_leading c then
      match r with
      | d :: r' => if is_trailing d then c :: d :: quote_units r'
                   else unicode_escape c ++ quote_units r
      | [] => unicode_escape c
      end
    else if is_trailing c then unicode_escape c ++ quote_units r
    else escape_unit c ++ quote_units r.
Proof. reflexivity. Qed.

(** [JSON.stringify] of a string is read back as the same string. *)
Lemma quote_units_read s rest :
  string_chars (quote_units s ++ 34%N :: rest) = Some (s, rest).
Proof.
  remember (List.length s) as n eqn:En. revert s En.
  induction n as [n IH] using (well_founded_induction lt_wf). intros s En.
  destruct s as [|c r]; [ reflexivity |].
  rewrite quote_units_cons.
  destruct (is_leading c) eqn:L.
  - destruct (leading_small c L) as (S1 & S2 & S3 & S4).
    destruct r as [|d r'].
    + rewrite unicode_escape_read by exact S1. reflexivity.
    + cbv beta iota. destruct (is_trailing d) eqn:T.
      * destruct (trailing_small d T) as (T1 & T2 & T3 & T4).
        rewrite <- app_comm_cons, plain_read by assumption.
        rewrite <- app_comm_cons, plain_read by assumption.
        rewrite (IH (List.length r')) by (simpl in En; lia || reflexivity). reflexivity.
      * rewrite <- app_assoc, unicode_escape_read by exact S1.
        rewrite (IH (List.length (d :: r'))) by (simpl in *; lia || reflexivity). reflexivity.
  - destruct (is_trailing c) eqn:T.
    + destruct (trailing_small c T) as (S1 & _).
      rewrite <- app_assoc, unicode_escape_read by exact S1.
      rewrite (IH (List.length r)) by (simpl in *; lia || reflexivity). reflexivity.
    + rewrite <- app_assoc, escape_unit_read by assumption.
      rewrite (IH (List.length r)) by (simpl in *; lia || reflexivity). reflexivity.
Qed.

Definition printable (s : jstr) : Prop := Forall (fun c => (32 <= c)%N) s.

Lemma printable_app a b : printable a -> printable b -> printable (a ++ b).
Proof. intros; apply Forall_app; split; assumption. Qed.

Lemma hex_digit_ge d : (48 <= hex_digit d)%N.
Proof. unfold hex_digit; destruct (N.ltb d 10); lia. Qed.

Lemma unicode_escape_printable c : printable (unicode_escape c).
Proof.
  unfold printable, unicode_escape, hex4; simpl app.
  repeat (apply Forall_cons; [ solve [ lia | eapply N.le_trans; [| apply hex_digit_ge ]; lia ] |]).
  apply Forall_nil.
Qed.

Lemma quote_units_printable s : printable (quote_units s).
Proof.
  remember (List.length s) as n eqn:En. revert s En.
  induction n as [n IH] using (well_founded_induction lt_wf). intros s En.
  destruct s as [|c r]; [ constructor |].
  rewrite quote_units_cons.
  destruct (is_leading c) eqn:L.
  - destruct (leading_small c L) as (S1 & S2 & _).
    destruct r as [|d r'].
    + apply unicode_escape_printable.
    + cbv beta iota. destruct (is_trailing d) eqn:T.
      * destruct (trailing_small d T) as (T1 & T2 & _).
        constructor; [ exact S2 |]. constructor; [ exact T2 |].
        apply (IH (List.length r')); simpl in *; [ lia | reflexivity ].
      * apply printable_app; [ apply unicode_escape_printable |].
        apply (IH (List.length (d :: r'))); simpl in *; [ lia | reflexivity ].
  - assert (Hr : printable (quote_units r))
      by (apply (IH (List.length r)); simpl in *; [ lia | reflexivity ]).
    destruct (is_trailing c); apply printable_app; try exact Hr; [ apply unicode_escape_printable |].
      unfold escape_unit.
      destruct (N.eqb c 8) eqn:E8; [ repeat (apply Forall_cons; [ lia |]); apply Forall_nil |].
      destruct (N.eqb c 9); [ repeat (apply Forall_cons; [ lia |]); apply Forall_nil |].
      destruct (N.eqb c 10); [ repeat (apply Forall_cons; [ lia |]); apply Forall_nil |].
      destruct (N.eqb c 12); [ repeat (apply Forall_cons; [ lia |]); apply Forall_nil |].
      destruct (N.eqb c 13); [ repeat (apply Forall_cons; [ lia |]); apply Forall_nil |].
      destruct (N.eqb c 34); [ repeat (apply Forall_cons; [ lia |]); apply Forall_nil |].
      destruct (N.eqb c 92); [ repeat (apply Forall_cons; [ lia |]); apply Forall_nil |].
      destruct (N.ltb c 32) eqn:E; [ apply unicode_escape_printable |].
      nbool. apply Forall_cons; [ lia | apply Forall_nil ].
Qed.

Lemma printable_check s : forallb (N.leb 32) s = true -> printable s.
Proof.
  intros H. apply Forall_forall. intros c Hc.
  apply (proj1 (forallb_forall _ _) H) in Hc. apply N.leb_le, Hc.
Qed.

Ltac literal_printable := apply printable_check; vm_compute; reflexivity.

Lemma json_quote_printable s : printable (json_quote s).
Proof.
  unfold json_quote. apply printable_app; [ literal_printable |].
  apply printable_app; [ apply quote_units_printable | literal_printable ].
Qed.

Lemma json_type_content_printable t c : printable (json_type_content t c).
Proof.
  unfold json_type_content.
  repeat apply printable_app;
    first [ apply quote_units_printable | apply json_quote_printable | literal_printable ].
Qed.

(** X1: each frame [toSSE] writes is a single [data: ] line closed by a blank
    line: the payload holds no line feed or carriage return, whatever text
    the event carries. *)
Theorem toSSE_single_line ev :
  exists payload,
    toSSE ev = js "data: " ++ payload ++ lf2
    /\ Forall (fun c => c <> 10%N /\ c <> 13%N) payload.
Proof.
  assert (NL : forall p, printable p -> Forall (fun c => c <> 10%N /\ c <> 13%N) p).
  { intros p Hp. eapply Forall_impl; [| exact Hp ]. intros c Hc; simpl in Hc; lia. }
  destruct ev as [c| |m].
  - exists (json_type_content (js "content") c). split; [ reflexivity |].
    apply NL, json_type_content_printable.
  - exists (js "[DONE]"). split; [ reflexivity |]. apply NL; literal_printable.
  - exists (json_type_content (js "error") m). split; [ reflexivity |].
    apply NL, json_type_content_printable.
Qed.

Lemma strip_prefix_app p s : strip_prefix p (p ++ s) = Some s.
Proof. induction p as [|a p IH]; simpl; [ reflexivity | rewrite N.eqb_refl; exact IH ]. Qed.

Lemma parse_json_quote s rest : parse_string (json_quote s ++ rest) = Some (s, rest).
Proof.
  unfold json_quote, parse_string. simpl. rewrite <- app_assoc. apply quote_units_read.
Qed.

Lemma read_frame_json t s : read_frame t (js "data: " ++ json_type_content t s ++ lf2) = Some s.
Proof.
  unfold read_frame, json_type_content.
  match goal with |- context [strip_prefix ?p _] =>
    replace (js "data: " ++ _ ++ lf2) with (p ++ (json_quote s ++ js "}" ++ lf2))
      by (rewrite <- !app_assoc; reflexivity) end.
  rewrite strip_prefix_app, parse_json_quote, jstr_eqb_refl. reflexivity.
Qed.

(** X2: a reader of the event stream gets back exactly the text of a content
    or error event from its frame. *)
Theorem toSSE_read_back content message :
  read_frame (js "content") (toSSE (EvContent content)) = Some content
  /\ read_frame (js "error") (toSSE (EvError message)) = Some message.
Proof. split; apply read_frame_json. Qed.

End SseFacts.

Module CrudFacts.
Import Chat ChatCrud Http Samples Fixtures.

Lemma chat_findFirst_none db chatId userId :
  Forall (fun c => ch_id c = chatId -> ch_userId c <> userId) (db_chats db) ->
  chat_findFirst db chatId userId = None.
Proof.
  unfold chat_findFirst. induction 1 as [|c l Hc _ IH]; [ reflexivity |].
  simpl. destruct (jstr_eqb (ch_id c) chatId) eqn:E1; simpl; [| exact IH ].
  destruct (jstr_eqb (ch_userId c) userId) eqn:E2; [| exact IH ].
  apply jstr_eqb_eq in E1, E2. exfalso; exact (Hc E1 E2).
Qed.

Lemma chat_findFirst_some db chatId userId c :
  chat_findFirst db chatId userId = Some c ->
  In c (db_chats db) /\ ch_id c = chatId /\ ch_userId c = userId.
Proof.
  unfold chat_findFirst; intros H. apply find_some in H as [Hin Hf].
  apply andb_true_iff in Hf as [E1 E2]. apply jstr_eqb_eq in E1, E2. auto.
Qed.

Definition not_found_chat : HttpReply :=
  {| hr_status := 404; hr_code := 404; hr_message := chat_resource ++ not_exists |}.

(** X3: the detail and delete routes refuse a chat the caller does not own
    (missing, or another user's): 404 with [对话不存在], nothing written. *)
Theorem routes_refuse_foreign_chat chat_delete userId chatId w :
  truthy userId = true ->
  Forall (fun c => ch_id c = chatId -> ch_userId c <> userId) (db_chats (w_db w)) ->
  route_detail (Some userId) chatId w = (Failure not_found_chat, w)
  /\ route_delete chat_delete (Some userId) chatId w = (Failure not_found_chat, w).
Proof.
  intros Hu Hf. pose proof (chat_findFirst_none _ _ _ Hf) as N0.
  unfold route_detail, route_delete, controller. rewrite Hu.
  unfold getChat, deleteChat, bind, get_db, throw. rewrite N0. split; reflexivity.
Qed.

Lemma routes_refuse_foreign_chat_witness :
  truthy (js "u2") = true
  /\ Forall (fun c => ch_id c = cuid 0 -> ch_userId c <> js "u2") (db_chats db_chat1)
  /\ route_detail (Some (js "u2")) (cuid 0) (world_of db_chat1)
     = (Failure not_found_chat, world_of db_chat1)
  /\ route_delete chat_delete_rows (Some (js "u2")) (cuid 0) (world_of db_chat1)
     = (Failure not_found_chat, world_of db_chat1).
Proof.
  assert (H1 : truthy (js "u2") = true) by reflexivity.
  assert (H2 : Forall (fun c => ch_id c = cuid 0 -> ch_userId c <> js "u2") (db_chats db_chat1)).
  { apply Forall_cons; [ intros _ E; discriminate E | apply Forall_nil ]. }
  split; [ exact H1 |]. split; [ exact H2 |].
  exact (routes_refuse_foreign_chat chat_delete_rows (js "u2") (cuid 0) (world_of db_chat1) H1 H2).
Defined.


(** X4: a successful [getChat] is read-only, returns a chat of the caller with
    the requested id, and lists that chat's messages newest first: on rows
    stamped in insertion order, the reverse of the conversation. *)
Theorem getChat_newest_first userId chatId w d w' :
  rows_in_order (w_db w) ->
  getChat userId chatId w = (inr d, w') ->
  w' = w
  /\ In (cd_chat d) (db_chats (w_db w)) /\ ch_id (cd_chat d) = chatId /\ ch_userId (cd_chat d) = userId
  /\ cd_messages d = rev (chat_messages (w_db w) chatId).
Proof.
  intros [Hs _] H. unfold getChat, bind, get_db in H.
  destruct (chat_findFirst (w_db w) chatId userId) as [c|] eqn:F; [| discriminate ].
  unfold ret in H. injection H as <- <-.
  destruct (chat_findFirst_some _ _ _ _ F) as (Hin & Hid & Hown).
  split; [ reflexivity |]. simpl. split; [ exact Hin |]. split; [ exact Hid |]. split; [ exact Hown |].
  rewrite Hid. apply PipelineFacts.sort_desc_rev. unfold chat_messages.
  apply PipelineFacts.ssorted_filter, Hs.
Qed.

Lemma getChat_newest_first_witness :
  exists d w',
    getChat user1 (cuid 0) (world_of db_two_msgs) = (inr d, w')
    /\ rows_in_order (w_db (world_of db_two_msgs))
    /\ w' = world_of db_two_msgs
    /\ In (cd_chat d) (db_chats (w_db (world_of db_two_msgs)))
    /\ ch_id (cd_chat d) = cuid 0 /\ ch_userId (cd_chat d) = user1
    /\ cd_messages d = rev (chat_messages (w_db (world_of db_two_msgs)) (cuid 0)).
Proof.
  assert (O : rows_in_order (w_db (world_of db_two_msgs))).
  { split.
    - repeat constructor; simpl; lia.
    - repeat constructor; simpl; lia. }
  destruct (getChat user1 (cuid 0) (world_of db_two_msgs)) as [[e|d] w'] eqn:E.
  - vm_compute in E; discriminate.
  - exists d, w'. split; [ reflexivity |]. split; [ exact O |].
    exact (getChat_newest_first user1 (cuid 0) (world_of db_two_msgs) d w' O E).
Defined.


Lemma title_issues_rejected t :
  js_trim t = [] \/ (255 < js_length (js_trim t))%N ->
  title_issues t = [{| zi_path := [js "title"];
                       zi_message := if truthy (js_trim t) then msg_title_long else msg_title_empty |}].
Proof.
  unfold title_issues. intros [E|L].
  - rewrite E. reflexivity.
  - destruct (js_trim t) as [|c r] eqn:E; [ discriminate L |].
    replace (N.ltb (js_length (c :: r)) 1) with false by (symmetry; apply N.ltb_ge; lia).
    replace (N.ltb 255 (js_length (c :: r))) with true by (symmetry; apply N.ltb_lt; exact L).
    reflexivity.
Qed.

(** X5: creating a chat whose title is blank after trimming, or longer than
    255 code units, answers 400 with the zod message for [title] and
    writes nothing. *)
Theorem route_create_rejects_title userId t modelId w :
  truthy userId = true ->
  js_trim t = [] \/ (255 < js_length (js_trim t))%N ->
  route_create (Some userId) {| cc_title := Some t; cc_modelId := modelId |} w
  = (Failure {| hr_status := 400; hr_code := 400;
                hr_message := validation_failed ++ js "title: "
                              ++ (if truthy (js_trim t) then msg_title_long else msg_title_empty) |},
     w).
Proof.
  intros Hu Ht. unfold route_create, controller. rewrite Hu.
  unfold createChat, parse_createChat; cbn [cc_title].
  rewrite (title_issues_rejected t Ht). reflexivity.
Qed.

Lemma route_create_rejects_title_witness :
  truthy user1 = true
  /\ (js_trim (js "   ") = [] \/ (255 < js_length (js_trim (js "   ")))%N)
  /\ route_create (Some user1) {| cc_title := Some (js "   "); cc_modelId := None |}
       (world_of db_empty)
     = (Failure {| hr_status := 400; hr_code := 400;
                   hr_message := validation_failed ++ js "title: "
                                 ++ (if truthy (js_trim (js "   ")) then msg_title_long
                                     else msg_title_empty) |},
        world_of db_empty).
Proof.
  assert (H1 : truthy user1 = true) by reflexivity.
  assert (H2 : js_trim (js "   ") = [] \/ (255 < js_length (js_trim (js "   ")))%N)
    by (left; reflexivity).
  split; [ exact H1 |]. split; [ exact H2 |].
  exact (route_create_rejects_title user1 (js "   ") None (world_of db_empty) H1 H2).
Defined.

Lemma model_findFirst_id_none db mid :
  Forall (fun m => am_id m = mid -> am_enabled m = false) (db_models db) ->
  model_findFirst_id db mid = None.
Proof.
  unfold model_findFirst_id. induction 1 as [|m l Hm _ IH]; [ reflexivity |].
  simpl. destruct (jstr_eqb (am_id m) mid) eqn:E; simpl; [| exact IH ].
  apply jstr_eqb_eq in E. rewrite (Hm E). exact IH.
Qed.

(** X6: a signed-in user creating a chat with a non-empty [modelId] that
    names no enabled model, and with a title that is absent or valid, is
    answered 400 with [指定的模型不存在或已禁用] and nothing is written. (An
    empty [modelId] is falsy: the code then uses [getDefaultModel] instead.) *)
Theorem route_create_rejects_model userId title mid w :
  truthy userId = true -> truthy mid = true ->
  Forall (fun m => am_id m = mid -> am_enabled m = false) (db_models (w_db w)) ->
  (forall t, title = Some t -> title_issues t = []) ->
  route_create (Some userId) {| cc_title := title; cc_modelId := Some mid |} w
  = (Failure {| hr_status := 400; hr_code := 400; hr_message := msg_model_unavailable |}, w).
Proof.
  intros Hu Hm Hd Ht. unfold route_create, controller. rewrite Hu.
  unfold createChat, parse_createChat; cbn [cc_title cc_modelId].
  assert (P : exists title', match title with
                             | Some t => match title_issues t with
                                         | [] => inr (js_trim t, Some mid)
                                         | iss => inl iss
                                         end
                             | None => inr (default_title, Some mid)
                             end = inr (title', Some mid)).
  { destruct title as [t|]; [ rewrite (Ht t eq_refl) |]; eexists; reflexivity. }
  destruct P as [title' P]. rewrite P. rewrite Hm.
  unfold bind, get_db, throw. rewrite (model_findFirst_id_none _ _ Hd). reflexivity.
Qed.

Lemma route_create_rejects_model_witness :
  truthy user1 = true /\ truthy (js "m9") = true
  /\ Forall (fun m => am_id m = js "m9" -> am_enabled m = false) (db_models (w_db (world_of db_empty)))
  /\ (forall t, Some (js "Plans") = Some t -> title_issues t = [])
  /\ route_create (Some user1) {| cc_title := Some (js "Plans"); cc_modelId := Some (js "m9") |}
       (world_of db_empty)
     = (Failure {| hr_status := 400; hr_code := 400; hr_message := msg_model_unavailable |},
        world_of db_empty).
Proof.
  assert (H1 : truthy user1 = true) by reflexivity.
  assert (H2 : truthy (js "m9") = true) by reflexivity.
  assert (H3 : Forall (fun m => am_id m = js "m9" -> am_enabled m = false)
                 (db_models (w_db (world_of db_empty)))).
  { apply Forall_cons; [ intros E; discriminate E | apply Forall_nil ]. }
  assert (H4 : forall t, Some (js "Plans") = Some t -> title_issues t = []).
  { intros t E; injection E as <-; reflexivity. }
  split; [ exact H1 |]. split; [ exact H2 |]. split; [ exact H3 |]. split; [ exact H4 |].
  exact (route_create_rejects_model user1 (Some (js "Plans")) (js "m9") (world_of db_empty)
           H1 H2 H3 H4).
Defined.


Lemma chat_model_reads (smid : option jstr) w :
  exists o,
    (match smid with
     | Some mid =>
         if truthy mid then
           db <- get_db ;;
           match model_findFirst_id db mid with
           | Some m => ret m
           | None => throw (ChatError msg_model_unavailable 400)
           end
         else getDefaultModel
     | None => getDefaultModel
     end) w = (o, w).
Proof.
  unfold getDefaultModel, bind, get_db, ret, throw.
  destruct smid as [mid|]; [ destruct (truthy mid) |];
    repeat match goal with |- context [match ?x with _ => _ end] => destruct x end;
    eexists; reflexivity.
Qed.

Lemma find_fresh_chat (cs : list ChatRow) seq row userId :
  Forall (fun c => exists k, ch_id c = cuid k /\ (k < seq)%N) cs ->
  ch_id row = cuid seq -> ch_userId row = userId ->
  find (fun c => jstr_eqb (ch_id c) (cuid seq) && jstr_eqb (ch_userId c) userId) (cs ++ [row])
  = Some row.
Proof.
  intros F Hid Hu. induction F as [|c l [k [Ek Lk]] _ IH].
  - simpl. rewrite Hid, Hu, !jstr_eqb_refl. reflexivity.
  - simpl. rewrite Ek, PipelineFacts.cuid_eqb.
    replace (N.eqb k seq) with false by (symmetry; apply N.eqb_neq; lia). exact IH.
Qed.

(** X7: a chat [createChat] has just made is found again by [getChat] for the
    same user, with the stored (trimmed or default) title and no messages;
    creating it appends exactly that row and no message. *)
Theorem createChat_then_getChat userId params w c w1 :
  chats_issued (w_db w) ->
  Forall (fun m => issued (w_db w) (msg_chatId m)) (db_messages (w_db w)) ->
  createChat userId params w = (inr c, w1) ->
  let row := {| ch_id := cr_id c; ch_userId := userId; ch_title := cr_title c;
                ch_modelId := Some (cr_model_id c); ch_modelName := Some (cr_model_name c);
                ch_updatedAt := cr_createdAt c |} in
  cr_title c = match cc_title params with Some t => js_trim t | None => default_title end
  /\ db_chats (w_db w1) = db_chats (w_db w) ++ [row]
  /\ db_messages (w_db w1) = db_messages (w_db w)
  /\ getChat userId (cr_id c) w1 = (inr {| cd_chat := row; cd_messages := [] |}, w1).
Proof.
  intros Hc Hm H row.
  unfold createChat in H.
  destruct (parse_createChat params) as [iss|[title smid]] eqn:P; [ discriminate |].
  cbv beta iota zeta in H.
  destruct (chat_model_reads smid w) as [[e|m] R].
  { rewrite (PipelineFacts.bind_inl _ _ _ _ _ R) in H; discriminate. }
  rewrite (PipelineFacts.bind_inr _ _ _ _ _ R) in H.
  unfold chat_create, bind, get_db, put_db, ret in H. cbv beta iota in H.
  injection H as <- <-.
  assert (Ht : title = match cc_title params with Some t => js_trim t | None => default_title end).
  { unfold parse_createChat in P. destruct (cc_title params) as [t|].
    - destruct (title_issues t); [ injection P as <- _; reflexivity | discriminate ].
    - injection P as <- _; reflexivity. }
  subst row; simpl. split; [ exact Ht |]. split; [ reflexivity |]. split; [ reflexivity |].
  unfold getChat, bind, get_db, chat_findFirst; simpl.
  rewrite (find_fresh_chat _ (db_seq (w_db w))
             {| ch_id := cuid (db_seq (w_db w)); ch_userId := userId; ch_title := title;
                ch_modelId := Some (am_id m); ch_modelName := Some (am_name m);
                ch_updatedAt := db_clock (w_db w) |} userId Hc eq_refl eq_refl).
  unfold ret, chat_messages; simpl.
  rewrite (PipelineFacts.filter_fresh_chat _ _ Hm). reflexivity.
Qed.


Lemma createChat_then_getChat_witness :
  exists c w1,
    createChat user1 {| cc_title := Some (js " Plans "); cc_modelId := None |} (world_of db_chat1)
      = (inr c, w1)
    /\ chats_issued (w_db (world_of db_chat1))
    /\ Forall (fun m => issued (w_db (world_of db_chat1)) (msg_chatId m))
         (db_messages (w_db (world_of db_chat1)))
    /\ let row := {| ch_id := cr_id c; ch_userId := user1; ch_title := cr_title c;
                     ch_modelId := Some (cr_model_id c); ch_modelName := Some (cr_model_name c);
                     ch_updatedAt := cr_createdAt c |} in
       cr_title c = js_trim (js " Plans ")
       /\ db_chats (w_db w1) = db_chats (w_db (world_of db_chat1)) ++ [row]
       /\ db_messages (w_db w1) = db_messages (w_db (world_of db_chat1))
       /\ getChat user1 (cr_id c) w1 = (inr {| cd_chat := row; cd_messages := [] |}, w1).
Proof.
  assert (H1 : chats_issued (w_db (world_of db_chat1))).
  { apply Forall_cons; [ exists 0%N; split; [ reflexivity | simpl; lia ] | apply Forall_nil ]. }
  assert (H2 : Forall (fun m => issued (w_db (world_of db_chat1)) (msg_chatId m))
                 (db_messages (w_db (world_of db_chat1)))) by apply Forall_nil.
  destruct (createChat user1 {| cc_title := Some (js " Plans "); cc_modelId := None |}
              (world_of db_chat1)) as [[e|c] w1] eqn:E.
  - vm_compute in E; discriminate.
  - exists c, w1. split; [ reflexivity |]. split; [ exact H1 |]. split; [ exact H2 |].
    exact (createChat_then_getChat user1 {| cc_title := Some (js " Plans "); cc_modelId := None |}
             (world_of db_chat1) c w1 H1 H2 E).
Defined.

End CrudFacts.

Module PageFacts.
Import Chat ChatCrud Http Samples Fixtures.

Lemma Qle_bool_Z a b : Qle_bool (inject_Z a) (inject_Z b) = Z.leb a b.
Proof.
  destruct (Z.leb a b) eqn:E.
  - apply Qle_bool_iff. rewrite <- Zle_Qle. apply Z.leb_le, E.
  - apply Z.leb_gt in E. destruct (Qle_bool (inject_Z a) (inject_Z b)) eqn:F; [| reflexivity ].
    apply Qle_bool_iff in F. rewrite <- Zle_Qle in F. lia.
Qed.

Lemma Q_is_int_Z a : Q_is_int (inject_Z a) = true.
Proof. unfold Q_is_int; simpl. rewrite Z.mod_1_r. reflexivity. Qed.

Lemma parse_chatList_ints p ps :
  1 <= p -> 1 <= ps <= 100 ->
  parse_chatList {| gp_page := Some (JsFinite (inject_Z p)); gp_pageSize := Some (JsFinite (inject_Z ps)) |} = inr (p, ps).
Proof.
  intros Hp Hps. unfold parse_chatList, chatList_page, chatList_pageSize, number_issues.
  cbn [gp_page gp_pageSize]. rewrite !Q_is_int_Z.
  change 1%Q with (inject_Z 1). rewrite !Qle_bool_Z.
  replace (Z.leb 1 p) with true by (symmetry; apply Z.leb_le; lia).
  replace (Z.leb 1 ps) with true by (symmetry; apply Z.leb_le; lia).
  replace (Z.leb ps 100) with true by (symmetry; apply Z.leb_le; lia).
  cbn [app]. rewrite !Qfloor_Z. reflexivity.
Qed.

Lemma ceiling_bounds total ps :
  0 <= total -> 1 <= ps ->
  let t := Qceiling (inject_Z total / inject_Z ps) in
  0 <= t /\ (t - 1) * ps < total /\ total <= t * ps.
Proof.
  intros H0 H1 t.
  assert (Pos : (0 < inject_Z ps)%Q) by (change (inject_Z 0 < inject_Z ps)%Q; rewrite <- Zlt_Qlt; lia).
  assert (NZ : ~ (inject_Z ps == 0)%Q) by (intros E; rewrite E in Pos; apply (Qlt_irrefl 0), Pos).
  pose proof (Qle_ceiling (inject_Z total / inject_Z ps)) as Up. fold t in Up.
  pose proof (Qceiling_lt (inject_Z total / inject_Z ps)) as Lo. fold t in Lo.
  assert (U : total <= t * ps).
  { apply (Qmult_le_r _ _ (inject_Z ps) Pos) in Up.
    rewrite (Qmult_comm (inject_Z total / inject_Z ps)), Qmult_div_r in Up by exact NZ.
    rewrite <- inject_Z_mult, <- Zle_Qle in Up. exact Up. }
  assert (L : (t - 1) * ps < total).
  { apply (Qmult_lt_r _ _ (inject_Z ps) Pos) in Lo.
    rewrite (Qmult_comm (inject_Z total / inject_Z ps)), Qmult_div_r in Lo by exact NZ.
    rewrite <- inject_Z_mult, <- Zlt_Qlt in Lo. exact Lo. }
  nia.
Qed.

Lemma getChatList_run userId p ps w :
  1 <= p -> 1 <= ps <= 100 ->
  getChatList userId {| gp_page := Some (JsFinite (inject_Z p)); gp_pageSize := Some (JsFinite (inject_Z ps)) |} w =
  (inr {| cl_list := formatChatList (w_db w) (getChatListQuery (w_db w) userId p ps);
          cl_page := p; cl_pageSize := ps;
          cl_total := Z.of_nat (List.length (user_chats (w_db w) userId));
          cl_totalPages := Qceiling (inject_Z (Z.of_nat (List.length (user_chats (w_db w) userId)))
                                     / inject_Z ps) |}, w).
Proof.
  intros Hp Hps. unfold getChatList. rewrite parse_chatList_ints by assumption. reflexivity.
Qed.

Lemma page_items_eq userId ps w p :
  1 <= p -> 1 <= ps <= 100 ->
  page_items userId ps w p =
  map (formatChat (w_db w))
    (firstn (Z.to_nat ps) (skipn (Z.to_nat ((p - 1) * ps)) (sort_chats_desc (user_chats (w_db w) userId)))).
Proof.
  intros Hp Hps. unfold page_items. rewrite getChatList_run by assumption. reflexivity.
Qed.

Lemma chunks_concat {A} (l : list A) n t :
  (List.length l <= t * n)%nat ->
  List.concat (map (fun i => firstn n (skipn (i * n) l)) (seq 0 t)) = l.
Proof.
  revert l. induction t as [| t IH]; intros l Hl.
  - destruct l; [ reflexivity | simpl in Hl; lia ].
  - rewrite <- cons_seq, <- seq_shift, map_cons, map_map. cbn [List.concat Nat.mul].
    replace (map (fun x => firstn n (skipn (n + x * n) l)) (seq 0 t))
      with (map (fun x => firstn n (skipn (x * n) (skipn n l))) (seq 0 t)).
    2:{ apply map_ext; intros i. rewrite skipn_skipn. f_equal. f_equal. lia. }
    rewrite IH by (rewrite length_skipn; lia).
    apply firstn_skipn.
Qed.

Lemma insert_chat_desc_sorted c l :
  Sorted (fun a b => ch_updatedAt b <= ch_updatedAt a) l ->
  Sorted (fun a b => ch_updatedAt b <= ch_updatedAt a) (insert_chat_desc c l).
Proof.
  induction 1 as [| x r Hr IH Hd ]; cbn [insert_chat_desc].
  - repeat constructor.
  - destruct (Z.ltb (ch_updatedAt x) (ch_updatedAt c)) eqn:E.
    + apply Z.ltb_lt in E. constructor; [ constructor; assumption | constructor; lia ].
    + apply Z.ltb_ge in E. constructor; [ exact IH |].
      destruct r as [| y r ]; cbn [insert_chat_desc].
      * constructor; lia.
      * destruct (Z.ltb (ch_updatedAt y) (ch_updatedAt c)); constructor; [ lia | inversion Hd; assumption ].
Qed.

Lemma sort_chats_desc_sorted l :
  Sorted (fun a b => ch_updatedAt b <= ch_updatedAt a) (sort_chats_desc l).
Proof. induction l; cbn [sort_chats_desc]; [ constructor | apply insert_chat_desc_sorted; assumption ]. Qed.

Lemma formatChatList_sorted db l :
  Sorted (fun a b => ch_updatedAt b <= ch_updatedAt a) l ->
  Sorted (fun a b => li_updatedAt b <= li_updatedAt a) (formatChatList db l).
Proof.
  induction 1 as [| x r Hr IH Hd ]; cbn [formatChatList map]; constructor; [ exact IH |].
  destruct Hd; constructor. exact H.
Qed.

Lemma formatChatList_sorted_strict db l :
  Sorted (fun a b => ch_updatedAt b < ch_updatedAt a) l ->
  Sorted (fun a b => li_updatedAt b < li_updatedAt a) (formatChatList db l).
Proof.
  induction 1 as [| x r Hr IH Hd ]; cbn [formatChatList map]; constructor; [ exact IH |].
  destruct Hd; constructor. exact H.
Qed.

Lemma insert_chat_desc_perm c l : Permutation (insert_chat_desc c l) (c :: l).
Proof.
  induction l as [| x r IH ]; cbn [insert_chat_desc]; [ reflexivity |].
  destruct (Z.ltb _ _); [ reflexivity |].
  eapply perm_trans; [ apply perm_skip, IH | apply perm_swap ].
Qed.

Lemma sort_chats_desc_perm l : Permutation (sort_chats_desc l) l.
Proof.
  induction l as [| x r IH ]; cbn [sort_chats_desc]; [ reflexivity |].
  eapply perm_trans; [ apply insert_chat_desc_perm | apply perm_skip, IH ].
Qed.

Lemma sorted_strict_of_nodup (l : list ChatRow) :
  Sorted (fun a b => ch_updatedAt b <= ch_updatedAt a) l ->
  NoDup (map ch_updatedAt l) ->
  Sorted (fun a b => ch_updatedAt b < ch_updatedAt a) l.
Proof.
  induction 1 as [| x r Hr IH Hd ]; intros Hn; constructor.
  - apply IH. inversion Hn; assumption.
  - destruct Hd as [| y r' Hy ]; constructor.
    inversion Hn as [| ? ? Hx _ ]. cbn [map In] in Hx.
    assert (ch_updatedAt y <> ch_updatedAt x) by (intros E; apply Hx; left; exact E). lia.
Qed.

(** Two orderings of the same chats, both strictly by [updatedAt]
    descending, are the same list. *)
Lemma strictly_sorted_unique (l1 l2 : list ChatRow) :
  Permutation l1 l2 ->
  StronglySorted (fun a b => ch_updatedAt b < ch_updatedAt a) l1 ->
  StronglySorted (fun a b => ch_updatedAt b < ch_updatedAt a) l2 ->
  l1 = l2.
Proof.
  revert l2. induction l1 as [| a r1 IH ]; intros l2 Hp S1 S2.
  - symmetry. apply Permutation_nil, Hp.
  - destruct l2 as [| b r2 ]; [ apply Permutation_sym, Permutation_nil in Hp; discriminate |].
    apply StronglySorted_inv in S1 as [S1 F1]. apply StronglySorted_inv in S2 as [S2 F2].
    assert (Ha : In a (b :: r2)) by (eapply Permutation_in; [ exact Hp | left; reflexivity ]).
    assert (Hb : In b (a :: r1)) by (eapply Permutation_in; [ apply Permutation_sym, Hp | left; reflexivity ]).
    assert (E : a = b).
    { destruct Ha as [Ea | Ha]; [ symmetry; exact Ea |].
      destruct Hb as [Eb | Hb]; [ exact Eb |].
      rewrite Forall_forall in F1, F2. specialize (F1 b Hb). specialize (F2 a Ha). lia. }
    subst b. f_equal. apply IH; [ eapply Permutation_cons_inv; exact Hp | exact S1 | exact S2 ].
Qed.

Lemma sorted_orders_agree (l1 l2 : list ChatRow) :
  Permutation l1 l2 -> NoDup (map ch_updatedAt l1) ->
  Sorted (fun a b => ch_updatedAt b <= ch_updatedAt a) l1 ->
  Sorted (fun a b => ch_updatedAt b <= ch_updatedAt a) l2 ->
  l1 = l2.
Proof.
  intros Hp Hn S1 S2.
  assert (Hn2 : NoDup (map ch_updatedAt l2)) by (eapply Permutation_NoDup; [ apply Permutation_map, Hp | exact Hn ]).
  apply strictly_sorted_unique; [ exact Hp | |];
    (apply Sorted_StronglySorted; [ intros x y z H1 H2; lia |]); apply sorted_strict_of_nodup; assumption.
Qed.

(** X8: [getChatList] pages through a user's chats whose [updatedAt] are
    pairwise distinct: for any page size the route accepts (1 to 100), every
    page from 1 on succeeds without touching the store and reports as [total]
    the number of the user's chats (and the same [totalPages]); the pages 1 to
    [totalPages] put end to end are the user's chats in every order the
    database may return for [orderBy: { updatedAt: 'desc' }] (every
    reordering of them by non-increasing [updatedAt]), hence each chat exactly
    once, strictly newest update first; no page holds more than [pageSize]
    entries, and a page past [totalPages] is empty. *)
Theorem getChatList_pages userId ps w :
  1 <= ps <= 100 ->
  NoDup (map ch_updatedAt (user_chats (w_db w) userId)) ->
  exists r,
    getChatList userId {| gp_page := Some (JsFinite (inject_Z 1)); gp_pageSize := Some (JsFinite (inject_Z ps)) |} w
      = (inr r, w)
    /\ cl_total r = Z.of_nat (List.length (user_chats (w_db w) userId))
    /\ (forall p, 1 <= p ->
          exists r', getChatList userId {| gp_page := Some (JsFinite (inject_Z p));
                                           gp_pageSize := Some (JsFinite (inject_Z ps)) |} w = (inr r', w)
                     /\ cl_total r' = cl_total r /\ cl_totalPages r' = cl_totalPages r)
    /\ (forall l, Permutation l (user_chats (w_db w) userId) ->
          Sorted (fun a b => ch_updatedAt b <= ch_updatedAt a) l ->
          List.concat (map (page_items userId ps w) (map Z.of_nat (seq 1 (Z.to_nat (cl_totalPages r)))))
          = formatChatList (w_db w) l)
    /\ Permutation
         (List.concat (map (page_items userId ps w) (map Z.of_nat (seq 1 (Z.to_nat (cl_totalPages r))))))
         (formatChatList (w_db w) (user_chats (w_db w) userId))
    /\ Sorted (fun a b => li_updatedAt b < li_updatedAt a)
         (List.concat (map (page_items userId ps w) (map Z.of_nat (seq 1 (Z.to_nat (cl_totalPages r))))))
    /\ (forall p, 1 <= p -> (List.length (page_items userId ps w p) <= Z.to_nat ps)%nat)
    /\ (forall p, cl_totalPages r < p -> page_items userId ps w p = []).
Proof.
  intros Hps Hnd.
  set (l := sort_chats_desc (user_chats (w_db w) userId)).
  set (total := Z.of_nat (List.length (user_chats (w_db w) userId))).
  assert (Hperm : Permutation l (user_chats (w_db w) userId)) by apply sort_chats_desc_perm.
  assert (Hlen : List.length l = List.length (user_chats (w_db w) userId)) by apply (Permutation_length Hperm).
  assert (Hsort : Sorted (fun a b => ch_updatedAt b <= ch_updatedAt a) l) by apply sort_chats_desc_sorted.
  assert (Hndl : NoDup (map ch_updatedAt l))
    by (eapply Permutation_NoDup; [ apply Permutation_map, Permutation_sym, Hperm | exact Hnd ]).
  destruct (ceiling_bounds total ps) as (T0 & TL & TU); [ unfold total; lia | lia |].
  set (T := Qceiling (inject_Z total / inject_Z ps)) in *.
  assert (Hcat : List.concat (map (page_items userId ps w) (map Z.of_nat (seq 1 (Z.to_nat T))))
                 = formatChatList (w_db w) l).
  { rewrite map_map.
    rewrite (map_ext_in _ (fun i => map (formatChat (w_db w)) (firstn (Z.to_nat ps) (skipn ((i - 1) * Z.to_nat ps) l)))).
    2:{ intros i Hi. apply in_seq in Hi. rewrite page_items_eq by lia. fold l. do 3 f_equal.
      replace (Z.of_nat i - 1) with (Z.of_nat (i - 1)) by lia.
      rewrite Z2Nat.inj_mul, Nat2Z.id by lia. reflexivity. }
    rewrite <- (map_map (fun i => firstn (Z.to_nat ps) (skipn ((i - 1) * Z.to_nat ps) l)) (map (formatChat (w_db w)))).
    rewrite <- concat_map. unfold formatChatList. f_equal.
    rewrite <- seq_shift, map_map.
    replace (map (fun x => firstn (Z.to_nat ps) (skipn ((S x - 1) * Z.to_nat ps) l)) (seq 0 (Z.to_nat T)))
      with (map (fun x => firstn (Z.to_nat ps) (skipn (x * Z.to_nat ps) l)) (seq 0 (Z.to_nat T)))
      by (apply map_ext; intros; f_equal; f_equal; lia).
    apply chunks_concat. rewrite Hlen. unfold total in TU. nia. }
  eexists. split; [ rewrite getChatList_run by lia; reflexivity |].
  cbn [cl_total cl_totalPages]. fold total. fold T.
  split; [ reflexivity |].
  split.
  { intros p Hp. eexists. split; [ rewrite getChatList_run by lia; reflexivity |]. split; reflexivity. }
  rewrite Hcat.
  split.
  { intros l' Hp' Hs'. f_equal. apply sorted_orders_agree; [ | exact Hndl | exact Hsort | exact Hs' ].
    eapply perm_trans; [ exact Hperm | apply Permutation_sym, Hp' ]. }
  split; [ apply Permutation_map, Hperm |].
  split; [ apply formatChatList_sorted_strict, sorted_strict_of_nodup; assumption |].
  split.
  - intros p Hp. rewrite page_items_eq by lia. rewrite length_map, length_firstn. lia.
  - intros p Hp. rewrite page_items_eq by lia. rewrite skipn_all2; [ rewrite firstn_nil; reflexivity |]. fold l.
    rewrite Hlen. unfold total in TU. nia.
Qed.

Lemma Qle_bool_false x y : (y < x)%Q -> Qle_bool x y = false.
Proof.
  intros H. destruct (Qle_bool x y) eqn:E; [| reflexivity ].
  apply Qle_bool_iff in E. exfalso. apply (Qlt_not_le y x H E).
Qed.

Lemma number_issues_bad field max n :
  n = JsNaN \/ (exists pos, n = JsInfinity pos) \/
  (exists q, n = JsFinite q /\
     (Q_is_int q = false \/ (q < 1)%Q \/ (exists m, max = Some m /\ (inject_Z m < q)%Q))) ->
  number_issues field max n <> [].
Proof.
  intros [-> | [(pos & ->) | (q & -> & [H | [H | (m & -> & H)]])]]; unfold number_issues.
  - discriminate.
  - discriminate.
  - rewrite H. discriminate.
  - rewrite (Qle_bool_false _ _ H). destruct (Q_is_int q); discriminate.
  - rewrite (Qle_bool_false _ _ H). destruct (Q_is_int q), (Qle_bool 1 q); discriminate.
Qed.

Lemma number_issues_path field max n :
  Forall (fun i => zi_path i = [js field]) (number_issues field max n).
Proof.
  unfold number_issues. destruct n as [q | | pos].
  - destruct (Q_is_int q), (Qle_bool 1 q), max as [m |]; try destruct (Qle_bool q (inject_Z m));
      cbn [app]; repeat constructor.
  - repeat constructor.
  - destruct pos, max; cbn [app]; repeat constructor.
Qed.

(** X9: A list request whose [page] is [NaN] (as [Number] gives for a
    non-numeric string), an infinity, not an integer or below 1, or whose
    [pageSize] is [NaN], an infinity, not an integer or outside 1 to 100, is
    refused by [getChatListSchema]: the issues are those of [page] followed by
    those of [pageSize], as zod reports them (one type issue for [NaN],
    otherwise one issue per failing check among [int], [min(1)] and
    [max(100)]), there is at least one, each names its field as its path, and
    the route answers 400 with the controller's message listing exactly these
    issues, leaving the store untouched. *)
Theorem route_list_rejects_bad_paging u params w :
  truthy u = true ->
  (exists n, gp_page params = Some n /\
     (n = JsNaN \/ (exists pos, n = JsInfinity pos) \/
      (exists q, n = JsFinite q /\ (Q_is_int q = false \/ (q < 1)%Q)))) \/
  (exists n, gp_pageSize params = Some n /\
     (n = JsNaN \/ (exists pos, n = JsInfinity pos) \/
      (exists q, n = JsFinite q /\ (Q_is_int q = false \/ (q < 1)%Q \/ (100 # 1 < q)%Q)))) ->
  parse_chatList params
    = inl (number_issues "page" None (chatList_page params)
           ++ number_issues "pageSize" (Some 100) (chatList_pageSize params))
  /\ number_issues "page" None (chatList_page params)
     ++ number_issues "pageSize" (Some 100) (chatList_pageSize params) <> []
  /\ Forall (fun i => zi_path i = [js "page"]) (number_issues "page" None (chatList_page params))
  /\ Forall (fun i => zi_path i = [js "pageSize"]) (number_issues "pageSize" (Some 100) (chatList_pageSize params))
  /\ route_list (Some u) params w =
     (Failure {| hr_status := 400; hr_code := 400;
                 hr_message := validation_failed ++ js_join (js "; ")
                   (map issue_line (number_issues "page" None (chatList_page params)
                                    ++ number_issues "pageSize" (Some 100) (chatList_pageSize params))) |}, w).
Proof.
  intros Hu Hbad.
  assert (Hne : number_issues "page" None (chatList_page params)
                ++ number_issues "pageSize" (Some 100) (chatList_pageSize params) <> []).
  { destruct Hbad as [(n & Hn & Hb) | (n & Hn & Hb)].
    - unfold chatList_page; rewrite Hn. intros E. apply app_eq_nil in E. destruct E as [E _].
      revert E. apply number_issues_bad.
      destruct Hb as [Hb | [Hb | (q & Hq & Hb)]]; [ left; exact Hb | right; left; exact Hb |].
      right; right. exists q. split; [ exact Hq | tauto ].
    - unfold chatList_pageSize; rewrite Hn. intros E. apply app_eq_nil in E. destruct E as [_ E].
      revert E. apply number_issues_bad.
      destruct Hb as [Hb | [Hb | (q & Hq & Hb)]]; [ left; exact Hb | right; left; exact Hb |].
      right; right. exists q. split; [ exact Hq |].
      destruct Hb as [Hb | [Hb | Hb]]; auto.
      right; right. exists 100. split; [ reflexivity | exact Hb ]. }
  assert (Hp : parse_chatList params
               = inl (number_issues "page" None (chatList_page params)
                      ++ number_issues "pageSize" (Some 100) (chatList_pageSize params))).
  { unfold parse_chatList.
    destruct (number_issues "page" None (chatList_page params)
              ++ number_issues "pageSize" (Some 100) (chatList_pageSize params)); [ contradiction | reflexivity ]. }
  split; [ exact Hp |]. split; [ exact Hne |].
  split; [ apply number_issues_path |]. split; [ apply number_issues_path |].
  unfold route_list, controller. rewrite Hu. unfold getChatList. rewrite Hp. reflexivity.
Qed.


Import Fixtures.

Lemma getChatList_pages_witness :
  1 <= 2 <= 100 /\ NoDup (map ch_updatedAt (user_chats (w_db (world_of db_three_chats)) user1)) /\
  exists r,
    getChatList user1 {| gp_page := Some (JsFinite (inject_Z 1)); gp_pageSize := Some (JsFinite (inject_Z 2)) |}
      (world_of db_three_chats) = (inr r, world_of db_three_chats)
    /\ cl_total r = Z.of_nat (List.length (user_chats (w_db (world_of db_three_chats)) user1))
    /\ (forall p, 1 <= p ->
          exists r', getChatList user1 {| gp_page := Some (JsFinite (inject_Z p));
                                          gp_pageSize := Some (JsFinite (inject_Z 2)) |} (world_of db_three_chats)
                     = (inr r', world_of db_three_chats)
                     /\ cl_total r' = cl_total r /\ cl_totalPages r' = cl_totalPages r)
    /\ (forall l, Permutation l (user_chats (w_db (world_of db_three_chats)) user1) ->
          Sorted (fun a b => ch_updatedAt b <= ch_updatedAt a) l ->
          List.concat (map (page_items user1 2 (world_of db_three_chats))
                           (map Z.of_nat (seq 1 (Z.to_nat (cl_totalPages r)))))
          = formatChatList (w_db (world_of db_three_chats)) l)
    /\ Permutation
         (List.concat (map (page_items user1 2 (world_of db_three_chats))
                           (map Z.of_nat (seq 1 (Z.to_nat (cl_totalPages r))))))
         (formatChatList (w_db (world_of db_three_chats)) (user_chats (w_db (world_of db_three_chats)) user1))
    /\ Sorted (fun a b => li_updatedAt b < li_updatedAt a)
         (List.concat (map (page_items user1 2 (world_of db_three_chats))
                           (map Z.of_nat (seq 1 (Z.to_nat (cl_totalPages r))))))
    /\ (forall p, 1 <= p -> (List.length (page_items user1 2 (world_of db_three_chats) p)
                             <= Z.to_nat 2)%nat)
    /\ (forall p, cl_totalPages r < p -> page_items user1 2 (world_of db_three_chats) p = []).
Proof.
  assert (H1 : 1 <= 2 <= 100) by lia.
  assert (H2 : NoDup (map ch_updatedAt (user_chats (w_db (world_of db_three_chats)) user1)))
    by (vm_compute; repeat constructor; cbn [In]; lia).
  split; [ exact H1 |]. split; [ exact H2 |].
  exact (getChatList_pages user1 2 (world_of db_three_chats) H1 H2).
Defined.

Lemma route_list_rejects_bad_paging_witness :
  truthy user1 = true
  /\ ((exists n, gp_page {| gp_page := Some JsNaN; gp_pageSize := Some (JsFinite (1 # 2)) |} = Some n /\
         (n = JsNaN \/ (exists pos, n = JsInfinity pos) \/
          (exists q, n = JsFinite q /\ (Q_is_int q = false \/ (q < 1)%Q)))) \/
      (exists n, gp_pageSize {| gp_page := Some JsNaN; gp_pageSize := Some (JsFinite (1 # 2)) |} = Some n /\
         (n = JsNaN \/ (exists pos, n = JsInfinity pos) \/
          (exists q, n = JsFinite q /\ (Q_is_int q = false \/ (q < 1)%Q \/ (100 # 1 < q)%Q)))))
  /\ route_list (Some user1) {| gp_page := Some JsNaN; gp_pageSize := Some (JsFinite (1 # 2)) |}
       (world_of db_three_chats)
     = (Failure {| hr_status := 400; hr_code := 400;
                   hr_message := validation_failed ++ js_join (js "; ")
                     [js "page: " ++ zod_msg_nan; js "pageSize: " ++ zod_msg_int;
                      js "pageSize: " ++ zod_msg_min1] |},
        world_of db_three_chats).
Proof.
  assert (H1 : truthy user1 = true) by reflexivity.
  assert (H2 : (exists n, gp_page {| gp_page := Some JsNaN; gp_pageSize := Some (JsFinite (1 # 2)) |} = Some n /\
         (n = JsNaN \/ (exists pos, n = JsInfinity pos) \/
          (exists q, n = JsFinite q /\ (Q_is_int q = false \/ (q < 1)%Q)))) \/
      (exists n, gp_pageSize {| gp_page := Some JsNaN; gp_pageSize := Some (JsFinite (1 # 2)) |} = Some n /\
         (n = JsNaN \/ (exists pos, n = JsInfinity pos) \/
          (exists q, n = JsFinite q /\ (Q_is_int q = false \/ (q < 1)%Q \/ (100 # 1 < q)%Q)))))
    by (left; exists JsNaN; split; [ reflexivity | left; reflexivity ]).
  split; [ exact H1 |]. split; [ exact H2 |].
  destruct (route_list_rejects_bad_paging user1 {| gp_page := Some JsNaN; gp_pageSize := Some (JsFinite (1 # 2)) |}
              (world_of db_three_chats) H1 H2) as (_ & _ & _ & _ & R).
  rewrite R. vm_compute. reflexivity.
Defined.
End PageFacts.

Module RouteFacts.
Import Chat Http SseClient SseRoute Samples SseFacts PipelineFacts.

Lemma skipn_new_events w evs : skipn (List.length (w_events w)) (w_events w ++ evs) = evs.
Proof. rewrite skipn_app, skipn_all, Nat.sub_diag; reflexivity. Qed.

Lemma sendMessage_callback_events ct env u params w r w' :
  sendMessage ct env u params true w = (inr r, w') ->
  exists pieces done,
    w_events w' = w_events w ++ map EvContent pieces ++ done
    /\ (done = [EvDone] \/ done = [])
    /\ (r_content r <> [] -> done = [EvDone])
    /\ (p_stream params <> Some false -> done = [EvDone])
    /\ List.concat pieces = r_content r.
Proof.
  intros H.
  destruct (sendMessage_success _ _ _ _ _ _ _ _ H)
    as (pp & chatId & m & hist & w0 & client & w1 & uid & w1' & acc & w2 &
        P & R & I & U & C & PR & ->).
  pose proof (proj1 (quiet_resolve u (pp_content pp) (pp_chatId pp) w)) as Q1; rewrite R in Q1.
  pose proof (proj1 (quiet_init m w0)) as Q2; rewrite I in Q2.
  pose proof (proj1 (quiet_user_message chatId (pp_content pp) w1)) as Q3; rewrite U in Q3.
  match type of PR with persist_reply _ _ _ _ _ ?us _ = _ =>
    pose proof (proj1 (quiet_persist env chatId m (acc_content acc) (acc_reasoning acc) us w2)) as Q4 end.
  rewrite PR in Q4. simpl in Q1, Q2, Q3, Q4. cbn [r_content].
  destruct (parse_stream _ _ P) as (_ & _ & S).
  destruct (pp_stream pp) eqn:Tst.
  - destruct (call_streaming_ok _ _ _ _ _ _ C) as (_ & Cc & _ & _ & Ce & _).
    exists (content_deltas (fst (e_stream env))), [EvDone].
    split; [ rewrite Q4, Ce, Q3, Q2, Q1; reflexivity |].
    split; [ left; reflexivity |]. split; [ reflexivity |]. split; [ reflexivity |].
    symmetry; exact Cc.
  - destruct (call_buffered_completion _ _ _ _ _ _ C) as [comp Ec].
    destruct (call_buffered_ok _ _ _ _ _ _ _ Ec C) as (_ & _ & _ & Ce & _).
    cbn [andb] in Ce.
    destruct (truthy (acc_content acc)) eqn:T.
    + exists [acc_content acc], [EvDone].
      split; [ rewrite Q4, Ce, Q3, Q2, Q1; reflexivity |].
      split; [ left; reflexivity |]. split; [ reflexivity |].
      split; [ intros Hs; exfalso; rewrite S in Tst; destruct (p_stream params) as [[]|]; congruence |].
      simpl; apply app_nil_r.
    + assert (E0 : acc_content acc = []) by (destruct (acc_content acc); [ reflexivity | discriminate ]).
      exists [], [].
      split; [ rewrite Q4, Ce, Q3, Q2, Q1; reflexivity |].
      split; [ right; reflexivity |].
      split; [ intros X; contradiction |].
      split; [ intros Hs; exfalso; rewrite S in Tst; destruct (p_stream params) as [[]|]; congruence |].
      rewrite E0; reflexivity.
Qed.

Lemma read_meta_frame stringify r : read_frame (js "content") (meta_frame stringify r) = None.
Proof. reflexivity. Qed.

Lemma read_done_frame : read_frame (js "content") (toSSE EvDone) = None.
Proof. reflexivity. Qed.

Lemma frames_content_app a b : frames_content (a ++ b) = frames_content a ++ frames_content b.
Proof. unfold frames_content. rewrite map_app, concat_app. reflexivity. Qed.

Lemma frames_content_pieces pieces :
  frames_content (map toSSE (map EvContent pieces)) = List.concat pieces.
Proof.
  induction pieces as [| p r IH]; [ reflexivity |].
  change (frames_content (toSSE (EvContent p) :: map toSSE (map EvContent r))
          = p ++ List.concat r).
  rewrite <- IH. unfold frames_content at 1. cbn [map List.concat].
  unfold toSSE at 1. rewrite read_frame_json. reflexivity.
Qed.

(** X10: A signed-in user's successful message request is answered with a stream
    that opens with an empty content frame, carries one content frame per
    piece of the reply in order, then at most one [data: [DONE]] frame, and
    ends with the meta frame of the returned result. The [DONE] frame is
    there whenever the reply has content, and whenever the request did not
    set [stream: false] (even for an empty reply); a client that concatenates
    the content frames reads exactly the result's [content]. *)
Theorem route_sendMessage_stream ct stringify sent env u params w r w' :
  truthy u = true ->
  sendMessage ct env u params true w = (inr r, w') ->
  exists pieces done,
    route_sendMessage ct stringify sent env (Some u) params w
    = (SseEnded (map toSSE (EvContent [] :: map EvContent pieces ++ done)
                 ++ [meta_frame stringify r]), w')
    /\ (done = [EvDone] \/ done = [])
    /\ (r_content r <> [] -> done = [EvDone])
    /\ (p_stream params <> Some false -> done = [EvDone])
    /\ List.concat pieces = r_content r
    /\ frames_content (map toSSE (EvContent [] :: map EvContent pieces ++ done)
                       ++ [meta_frame stringify r]) = r_content r.
Proof.
  intros Hu H.
  destruct (sendMessage_callback_events _ _ _ _ _ _ _ H) as (pieces & done & Ev & Hd & Hne & Hst & Hc).
  exists pieces, done.
  split.
  - unfold route_sendMessage. rewrite Hu, H. unfold new_events. rewrite Ev, skipn_new_events.
    reflexivity.
  - split; [ exact Hd |]. split; [ exact Hne |]. split; [ exact Hst |]. split; [ exact Hc |].
    rewrite frames_content_app. cbn [map app].
    change (toSSE (EvContent []) :: map toSSE (map EvContent pieces ++ done))
      with (map toSSE (map EvContent ([] :: pieces) ++ done)).
    rewrite map_app, frames_content_app, frames_content_pieces.
    unfold frames_content. cbn [map List.concat]. rewrite read_meta_frame.
    destruct Hd as [-> | ->]; cbn [map List.concat]; [ rewrite read_done_frame |];
      rewrite ?app_nil_r; exact Hc.
Qed.


Import Fixtures.


Lemma route_sendMessage_stream_witness :
  exists r w',
    sendMessage count_units (env_of (stream_hello, None) (inl OtherError)) user1
      (params_new (js "hi") None) true (world_of db_empty) = (inr r, w')
    /\ truthy user1 = true
    /\ exists pieces done,
      route_sendMessage count_units (fun _ => js "{}") true
        (env_of (stream_hello, None) (inl OtherError)) (Some user1) (params_new (js "hi") None)
        (world_of db_empty)
      = (SseEnded (map toSSE (EvContent [] :: map EvContent pieces ++ done)
                   ++ [meta_frame (fun _ => js "{}") r]), w')
      /\ (done = [EvDone] \/ done = [])
      /\ (r_content r <> [] -> done = [EvDone])
      /\ (p_stream (params_new (js "hi") None) <> Some false -> done = [EvDone])
      /\ List.concat pieces = r_content r
      /\ frames_content (map toSSE (EvContent [] :: map EvContent pieces ++ done)
                         ++ [meta_frame (fun _ => js "{}") r]) = r_content r.
Proof.
  destruct (sendMessage count_units (env_of (stream_hello, None) (inl OtherError)) user1
              (params_new (js "hi") None) true (world_of db_empty)) as [[e|r] w'] eqn:E.
  - vm_compute in E; discriminate.
  - exists r, w'. split; [ reflexivity |]. split; [ reflexivity |].
    exact (route_sendMessage_stream count_units (fun _ => js "{}") true
             (env_of (stream_hello, None) (inl OtherError)) user1 (params_new (js "hi") None)
             (world_of db_empty) r w' eq_refl E).
Defined.
End RouteFacts.

Module TokenFacts.
Import Tiktoken.

Lemma sum_message_tokens_spec {Encoder} (encode : Encoder -> jstr -> option (list N)) enc ms t k :
  sum_message_tokens Encoder encode enc ms t = Some k <->
  exists tl, Forall2 (fun m toks => encode enc (message_str m) = Some toks) ms tl
             /\ k = t + Z.of_nat (list_sum (map (@List.length N) tl)).
Proof.
  revert t. induction ms as [| m r IH]; intros t; cbn [sum_message_tokens].
  - split.
    + intros E; injection E as <-. exists []. split; [ constructor | simpl; lia ].
    + intros ([| x tl] & F & ->); inversion F; subst. f_equal. simpl. lia.
  - destruct (encode enc (message_str m)) as [toks|] eqn:E.
    + rewrite IH. split.
      * intros (tl & F & ->). exists (toks :: tl). split; [ constructor; assumption |].
        unfold list_sum; cbn [map fold_right]. lia.
      * intros ([| x tl] & F & ->); inversion F as [| ? ? ? ? Hx Ht ]; subst.
        rewrite E in Hx; injection Hx as <-. exists tl. split; [ exact Ht |].
        unfold list_sum; cbn [map fold_right]. lia.
    + split; [ discriminate |].
      intros ([| x tl] & F & _); inversion F as [| ? ? ? ? Hx Ht ]; subst. congruence.
Qed.

Lemma run_ops_no_encoder {Encoder} efm (encode : Encoder -> jstr -> option (list N)) ops :
  efm encodingName = None -> run_ops Encoder efm encode ops = [].
Proof.
  intros N0. unfold run_ops.
  assert (G : getEncoder Encoder efm [] = (None, [])).
  { unfold getEncoder, map_has. cbn [map_get]. rewrite N0. reflexivity. }
  induction ops as [| o r IH ]; [ reflexivity |]. cbn [fold_left].
  replace (run_op Encoder efm encode [] o) with (@nil (string * Encoder)); [ exact IH |].
  destruct o; cbn [run_op]; [ unfold countTokens; rewrite G | rewrite G | ]; reflexivity.
Qed.

(** X11: [countMessageTokens] counts, for each message in order, the tokens of
    [<|im_start|>role\ncontent<|im_end|>], adds the tokens of one more
    [<|im_end|>], and leaves the encoder cache as [getEncoder] leaves it; it
    returns a number exactly when [getEncoder] and every one of these
    encodings succeed, and throws otherwise (where [countTokens] would return
    0): when [getEncoder] throws, so does [countMessageTokens], and when the
    library's [encoding_for_model('cl100k_base')] throws, as the installed
    tiktoken's does ('cl100k_base' names an encoding, not a model), every
    call throws, whatever ran before, and the cache stays empty. *)
Theorem countMessageTokens_sum {Encoder} efm (encode : Encoder -> jstr -> option (list N)) cache ms :
  (forall enc cache',
     getEncoder Encoder efm cache = (Some enc, cache') ->
     snd (countMessageTokens Encoder efm encode cache ms) = cache'
     /\ forall k, fst (countMessageTokens Encoder efm encode cache ms) = Some k <->
          exists tl eos,
            Forall2 (fun m toks => encode enc (message_str m) = Some toks) ms tl
            /\ encode enc im_end = Some eos
            /\ k = Z.of_nat (list_sum (map (@List.length N) tl) + List.length eos))
  /\ (fst (getEncoder Encoder efm cache) = None ->
      countMessageTokens Encoder efm encode cache ms = (None, snd (getEncoder Encoder efm cache)))
  /\ (efm encodingName = None -> forall ops,
      run_ops Encoder efm encode ops = []
      /\ countMessageTokens Encoder efm encode (run_ops Encoder efm encode ops) ms = (None, [])).
Proof.
  split; [| split ].
  - intros enc cache' G. unfold countMessageTokens. rewrite G. split; [ reflexivity |].
    intros k. cbn [fst].
    destruct (sum_message_tokens Encoder encode enc ms 0) as [total|] eqn:S.
    + apply sum_message_tokens_spec in S as (tl & F & ->).
      destruct (encode enc im_end) as [eos|] eqn:E.
      * split.
        -- intros K; injection K as <-. exists tl, eos. split; [ exact F |]. split; [ reflexivity | lia ].
        -- intros (tl' & eos' & F' & E' & ->). injection E' as <-.
           assert (tl' = tl) as ->.
           { clear - F F'. revert tl tl' F F'. induction ms as [| m r IH]; intros tl tl' F F';
               inversion F; inversion F'; subst; [ reflexivity |]. f_equal; [ congruence | eauto ]. }
           f_equal. lia.
      * split; [ discriminate | intros (tl' & eos' & _ & E' & _); congruence ].
    + split; [ discriminate |].
      intros (tl & eos & F & _ & _).
      assert (Some (0 + Z.of_nat (list_sum (map (@List.length N) tl))) = None) as X.
      { rewrite <- S. symmetry. apply sum_message_tokens_spec. exists tl. split; [ exact F | reflexivity ]. }
      discriminate.
  - intros G. unfold countMessageTokens. destruct (getEncoder Encoder efm cache) as [[enc|] c].
    + discriminate.
    + reflexivity.
  - intros N0 ops. rewrite (run_ops_no_encoder efm encode ops N0). split; [ reflexivity |].
    unfold countMessageTokens, getEncoder, map_has. cbn [map_get]. rewrite N0. reflexivity.
Qed.

(** X16: with a tiktoken whose [encoding_for_model('cl100k_base')] throws, as
    the installed library's does, [countTokens] returns 0 for every text,
    whatever ran before in the process, and leaves the cache empty. *)
Theorem countTokens_no_encoder {Encoder} efm (encode : Encoder -> jstr -> option (list N)) ops text :
  efm encodingName = None ->
  countTokens Encoder efm encode (run_ops Encoder efm encode ops) text = (0%Z, []).
Proof.
  intros N0. rewrite (run_ops_no_encoder efm encode ops N0).
  unfold countTokens, getEncoder, map_has. cbn [map_get]. rewrite N0. reflexivity.
Qed.


Lemma countTokens_no_encoder_witness :
  (fun _ : string => @None unit) encodingName = None
  /\ countTokens unit (fun _ => None) (fun _ s => Some s)
       (run_ops unit (fun _ => None) (fun _ s => Some s) [OpCountTokens (js "a"); OpCountMessageTokens])
       (js "hello") = (0%Z, []).
Proof.
  assert (H : (fun _ : string => @None unit) encodingName = None) by reflexivity.
  split; [ exact H |].
  exact (countTokens_no_encoder (fun _ => None) (fun _ s => Some s)
           [OpCountTokens (js "a"); OpCountMessageTokens] (js "hello") H).
Defined.
End TokenFacts.

Module AuthFacts.
Import Auth AuthMiddleware.

Lemma js_split_nosep sep s : ~ In sep s -> js_split sep s = [s].
Proof.
  induction s as [| c r IH]; intros H; [ reflexivity |].
  cbn [js_split]. rewrite IH by (intros X; apply H; right; exact X).
  destruct (N.eqb c sep) eqn:E; [ apply N.eqb_eq in E; subst; exfalso; apply H; left; reflexivity | reflexivity ].
Qed.

Lemma js_split_app sep a b : ~ In sep a -> js_split sep (a ++ sep :: b) = a :: js_split sep b.
Proof.
  induction a as [| c r IH]; intros H; cbn [app js_split].
  - rewrite N.eqb_refl. reflexivity.
  - cbn [app js_split] in IH. rewrite IH by (intros X; apply H; right; exact X).
    destruct (N.eqb c sep) eqn:E; [ apply N.eqb_eq in E; subst; exfalso; apply H; left; reflexivity | reflexivity ].
Qed.

Lemma js_split_parts sep s : Forall (fun p => ~ In sep p) (js_split sep s).
Proof.
  induction s as [| c r IH]; cbn [js_split]; [ repeat constructor; intros [] |].
  destruct (N.eqb c sep) eqn:E; [ constructor; [ intros [] | exact IH ] |].
  destruct (js_split sep r) as [| p ps]; [ repeat constructor; intros [X|[]]; subst; rewrite N.eqb_refl in E; discriminate |].
  inversion IH as [| ? ? Hp Hps ]; subst. constructor; [| exact Hps ].
  intros [X | X]; [ subst; rewrite N.eqb_refl in E; discriminate | exact (Hp X) ].
Qed.

Lemma js_split_ne sep s : js_split sep s <> [].
Proof.
  destruct s as [| c r]; cbn [js_split]; [ discriminate |].
  destruct (N.eqb c sep); [ discriminate |]. destruct (js_split sep r); discriminate.
Qed.

Lemma js_split_join sep s : js_join [sep] (js_split sep s) = s.
Proof.
  induction s as [| c r IH]; [ reflexivity |]. cbn [js_split].
  pose proof (js_split_ne sep r) as NE.
  destruct (N.eqb c sep) eqn:E.
  - apply N.eqb_eq in E; subst. destruct (js_split sep r) as [| p ps]; [ contradiction |].
    change (js_join [sep] ([] :: p :: ps)) with ([] ++ [sep] ++ js_join [sep] (p :: ps)).
    rewrite IH. reflexivity.
  - destruct (js_split sep r) as [| p ps]; [ contradiction |].
    destruct ps as [| q qs]; cbn [js_join] in *; rewrite <- IH; reflexivity.
Qed.

Lemma bearer_no_space : ~ In 32%N (js "Bearer").
Proof. cbv. intros X; repeat destruct X as [X | X]; try discriminate; exact X. Qed.

Definition bearer_form (h token : jstr) : Prop :=
  h = js "Bearer " ++ token /\ token <> [] /\ ~ In 32%N token.

Lemma bearer_split token : ~ In 32%N token -> js_split 32 (js "Bearer " ++ token) = [js "Bearer"; token].
Proof.
  intros H. change (js "Bearer " ++ token) with (js "Bearer" ++ 32%N :: token).
  rewrite js_split_app by exact bearer_no_space. rewrite js_split_nosep by exact H. reflexivity.
Qed.

(** X12: [authenticate] passes a request on to token verification exactly when
    its [Authorization] header is [Bearer <token>]: the word [Bearer] with
    that case, one space, and a non-empty token with no space in it. Any
    other header is refused with status 401, whatever the verifier and the
    configuration: '未提供认证令牌' when it is empty, '认证令牌不能为空' for
    [Bearer ] alone, and the format message otherwise. *)
Theorem authenticate_header jwt_verify pe h :
  (exists token, bearer_form h token
                 /\ authenticate jwt_verify pe (Some h) = verify_token jwt_verify pe token)
  \/ ((forall token, ~ bearer_form h token)
      /\ exists m, authenticate jwt_verify pe (Some h) = inl (business_error m 401)
                  /\ (m = msg_no_token \/ m = msg_bad_format \/ m = msg_empty_token)).
Proof.
  assert (NF : forall token, bearer_form h token -> js_split 32 h = [js "Bearer"; token]).
  { intros token (-> & _ & Ht). apply bearer_split, Ht. }
  unfold authenticate.
  destruct (truthy h) eqn:T; cbn [negb].
  2:{ right. split.
      - intros token (-> & _). discriminate.
      - eexists; split; [ reflexivity | left; reflexivity ]. }
  pose proof (js_split_join 32 h) as J. pose proof (js_split_parts 32 h) as P.
  destruct (js_split 32 h) as [| p0 [| token [| x r]]] eqn:S.
  - exfalso; exact (js_split_ne _ _ S).
  - right; split; [ intros token F; apply NF in F; try rewrite S in F; discriminate |].
    eexists; split; [ reflexivity | right; left; reflexivity ].
  - destruct (jstr_eqb p0 (js "Bearer")) eqn:B; cbn [negb].
    + apply jstr_eqb_eq in B; subst p0.
      destruct (truthy token) eqn:Tt; cbn [negb].
      * left. exists token. split; [| reflexivity ].
        split; [ rewrite <- J; reflexivity |].
        split; [ destruct token; discriminate |].
        inversion P as [| ? ? _ P' ]; inversion P'; assumption.
      * right; split.
        -- intros token' F. pose proof (NF _ F) as G. destruct F as (_ & Hne & _).
           assert (token = token') as <- by congruence. destruct token; [ exact (Hne eq_refl) | discriminate ].
        -- eexists; split; [ reflexivity | right; right; reflexivity ].
    + right; split.
      * intros token' F. apply NF in F. try rewrite S in F. injection F as -> _. rewrite jstr_eqb_refl in B; discriminate.
      * eexists; split; [ reflexivity | right; left; reflexivity ].
  - right; split; [ intros token' F; apply NF in F; try rewrite S in F; discriminate |].
    eexists; split; [ reflexivity | right; left; reflexivity ].
Qed.

(** X13: A token [login] issues, sent back as [Bearer <token>], is accepted by
    [authenticate] (the secret is set, [jwt.verify] returns the payload that
    was signed, and the serialised token is non-empty with no space, as JWTs
    are): [request.user] then carries the user's id and name, and its
    [email] is [undefined], since [login] signs no email. *)
Theorem login_then_authenticate bcrypt_compare jwt_verify (jwt_string : Token -> jstr)
    pe users email password r users' :
  login bcrypt_compare pe users email password = (inr r, users') ->
  truthy (jwt_secret (config_jwt pe)) = true ->
  jwt_verify (jwt_string (lr_token r)) (jwt_secret (config_jwt pe)) = Verified (lr_token r) ->
  jwt_string (lr_token r) <> [] ->
  ~ In 32%N (jwt_string (lr_token r)) ->
  authenticate jwt_verify pe (Some (js "Bearer " ++ jwt_string (lr_token r)))
  = inr {| ru_userId := Some (JStr (pu_id (lr_user r)));
           ru_name := Some (json_of_option (pu_name (lr_user r)));
           ru_email := None |}.
Proof.
  intros L Hs Hv Hne Hsp.
  unfold authenticate. rewrite bearer_split by exact Hsp.
  replace (truthy (js "Bearer " ++ jwt_string (lr_token r))) with true by reflexivity.
  rewrite jstr_eqb_refl. cbn [negb].
  replace (truthy (jwt_string (lr_token r))) with true
    by (destruct (jwt_string (lr_token r)); [ contradiction | reflexivity ]).
  cbn [negb]. unfold verify_token. rewrite Hs. cbn [negb]. rewrite Hv.
  unfold login in L. destruct (user_findUnique users email) as [u|]; [| discriminate ].
  destruct (bcrypt_compare password (u_password u)); [| discriminate ].
  rewrite Hs in L. injection L as <- _. reflexivity.
Qed.

Import Samples Fixtures.


Lemma login_then_authenticate_witness :
  exists r us,
    login bcrypt_match env_secret [user_a] (js "a@x.com") (js "pw") = (inr r, us)
    /\ truthy (jwt_secret (config_jwt env_secret)) = true
    /\ jwt_verify_a ((fun _ => js "h.p.s") (lr_token r)) (jwt_secret (config_jwt env_secret))
       = Verified (lr_token r)
    /\ (fun _ => js "h.p.s") (lr_token r) <> []
    /\ ~ In 32%N ((fun _ => js "h.p.s") (lr_token r))
    /\ authenticate jwt_verify_a env_secret
         (Some (js "Bearer " ++ (fun _ => js "h.p.s") (lr_token r)))
       = inr {| ru_userId := Some (JStr (pu_id (lr_user r)));
                ru_name := Some (json_of_option (pu_name (lr_user r)));
                ru_email := None |}.
Proof.
  destruct (login bcrypt_match env_secret [user_a] (js "a@x.com") (js "pw")) as [[e|r] us] eqn:E.
  - vm_compute in E; discriminate.
  - assert (R : r = {| lr_token := token_a;
                       lr_user := {| pu_id := js "u1"; pu_email := js "a@x.com";
                                     pu_name := Some (js "Ann") |} |})
      by (vm_compute in E; injection E as <- _; reflexivity).
    assert (H1 : truthy (jwt_secret (config_jwt env_secret)) = true) by reflexivity.
    assert (H2 : jwt_verify_a ((fun _ => js "h.p.s") (lr_token r)) (jwt_secret (config_jwt env_secret))
                 = Verified (lr_token r)) by (rewrite R; reflexivity).
    assert (H3 : (fun _ : Token => js "h.p.s") (lr_token r) <> []) by discriminate.
    assert (H4 : ~ In 32%N ((fun _ : Token => js "h.p.s") (lr_token r)))
      by (cbv; intros X; repeat destruct X as [X | X]; try discriminate; exact X).
    exists r, us. split; [ reflexivity |].
    split; [ exact H1 |]. split; [ exact H2 |]. split; [ exact H3 |]. split; [ exact H4 |].
    exact (login_then_authenticate bcrypt_match jwt_verify_a (fun _ => js "h.p.s") env_secret
             [user_a] (js "a@x.com") (js "pw") r us E H1 H2 H3 H4).
Defined.
End AuthFacts.

Module UserFacts.
Import Auth Http UserPassword.

Lemma find_map_set (users : list UserRow) id hashed u :
  user_findUnique_id users id = Some u ->
  user_findUnique_id
    (map (fun r => if jstr_eqb (u_id r) id then set_password r hashed else r) users) id
  = Some (set_password u hashed).
Proof.
  unfold user_findUnique_id. induction users as [| r rs IH]; cbn [find map]; [ discriminate |].
  destruct (jstr_eqb (u_id r) id) eqn:E; cbn [find].
  - intros H; injection H as <-. cbn [u_id set_password]. rewrite E. reflexivity.
  - rewrite E. exact IH.
Qed.

Lemma find_existsb (users : list UserRow) id u :
  user_findUnique_id users id = Some u -> existsb (fun r => jstr_eqb (u_id r) id) users = true.
Proof.
  unfold user_findUnique_id. intros H. apply find_some in H as [Hin He].
  apply existsb_exists. exists u. split; assumption.
Qed.

(** X14: [POST /api/user/password] changes the stored hash only when it reports
    success (status 200): the caller is signed in, both passwords are
    non-empty, the old one matched the stored hash, and then exactly the
    caller's row gets the hash of the new password, which the password
    check then accepts (given bcrypt accepts a password against its own
    hash). Every other reply (401, 400 for a missing or wrong password)
    leaves the user table as it was. *)
Theorem route_changePassword_spec bcrypt_compare bcrypt_hash userId body salt users :
  let (rep, users') := route_changePassword bcrypt_compare bcrypt_hash userId body salt users in
  (hr_status rep = 200
   /\ exists u oldPassword newPassword,
        userId = Some u /\ truthy u = true
        /\ pb_oldPassword body = Some oldPassword /\ pb_newPassword body = Some newPassword
        /\ truthy oldPassword = true /\ truthy newPassword = true
        /\ verifyPassword bcrypt_compare users u oldPassword = true
        /\ users' = map (fun r => if jstr_eqb (u_id r) u
                                  then set_password r (bcrypt_hash newPassword salt) else r) users
        /\ (bcrypt_compare newPassword (bcrypt_hash newPassword salt) = true ->
            verifyPassword bcrypt_compare users' u newPassword = true))
  \/ (hr_status rep <> 200 /\ users' = users).
Proof.
  unfold route_changePassword.
  destruct userId as [u|]; [| right; split; [ discriminate | reflexivity ] ].
  destruct (truthy u) eqn:Tu; [| right; split; [ discriminate | reflexivity ] ].
  destruct (pb_oldPassword body) as [oldp|] eqn:Ho; [| right; split; [ discriminate | reflexivity ] ].
  destruct (pb_newPassword body) as [newp|] eqn:Hn; [| right; split; [ discriminate | reflexivity ] ].
  destruct (truthy oldp) eqn:To; [| right; split; [ discriminate | reflexivity ] ].
  destruct (truthy newp) eqn:Tn; [| right; split; [ discriminate | reflexivity ] ].
  cbn [andb].
  destruct (verifyPassword bcrypt_compare users u oldp) eqn:V; [| right; split; [ discriminate | reflexivity ] ].
  assert (F : exists row, user_findUnique_id users u = Some row).
  { unfold verifyPassword in V. destruct (user_findUnique_id users u) as [row|]; [ eauto | discriminate ]. }
  destruct F as [row F].
  unfold changePassword, user_update_password. rewrite (find_existsb _ _ _ F).
  left. split; [ reflexivity |].
  exists u, oldp, newp. repeat split; try assumption.
  intros Hc. unfold verifyPassword. rewrite (find_map_set _ _ _ _ F). exact Hc.
Qed.

End UserFacts.

Module StatsFacts.
Import Chat ChatCrud UserStatsM PageFacts.

Lemma jstr_eqb_sym a b : jstr_eqb a b = jstr_eqb b a.
Proof.
  destruct (jstr_eqb a b) eqn:E, (jstr_eqb b a) eqn:F; try reflexivity.
  - apply jstr_eqb_eq in E; subst; rewrite jstr_eqb_refl in F; discriminate.
  - apply jstr_eqb_eq in F; subst; rewrite jstr_eqb_refl in E; discriminate.
Qed.

Definition hits (x : Id) (c : ChatRow) : nat := if jstr_eqb x (ch_id c) then 1 else 0.

Lemma hits_absent x u cs :
  ~ In x (map ch_id cs) ->
  list_sum (map (hits x) (filter (fun c => jstr_eqb (ch_userId c) u) cs)) = 0%nat.
Proof.
  induction cs as [| c r IH]; intros H; [ reflexivity |].
  cbn [filter]. assert (Hx : x <> ch_id c) by (intros ->; apply H; left; reflexivity).
  assert (IH' := IH (fun X => H (or_intror X))).
  destruct (jstr_eqb (ch_userId c) u); [| exact IH' ].
  cbn [map list_sum fold_right]. unfold list_sum in IH'. rewrite IH'.
  unfold hits. destruct (jstr_eqb x (ch_id c)) eqn:E; [ apply jstr_eqb_eq in E; contradiction | reflexivity ].
Qed.

Lemma hits_owner m u cs :
  NoDup (map ch_id cs) ->
  list_sum (map (hits (msg_chatId m)) (filter (fun c => jstr_eqb (ch_userId c) u) cs))
  = if match find (fun c => jstr_eqb (ch_id c) (msg_chatId m)) cs with
       | Some c => jstr_eqb (ch_userId c) u
       | None => false
       end then 1%nat else 0%nat.
Proof.
  induction cs as [| c r IH]; intros ND; [ reflexivity |].
  cbn [map] in ND. inversion ND as [| ? ? Hn ND' ]; subst.
  cbn [find filter].
  destruct (jstr_eqb (ch_id c) (msg_chatId m)) eqn:E.
  - apply jstr_eqb_eq in E. rewrite <- E in *.
    destruct (jstr_eqb (ch_userId c) u).
    + cbn [map list_sum fold_right]. unfold hits at 1. rewrite jstr_eqb_refl.
      pose proof (hits_absent (ch_id c) u r Hn) as Z0. unfold list_sum in Z0. rewrite Z0. reflexivity.
    + apply hits_absent, Hn.
  - specialize (IH ND').
    destruct (jstr_eqb (ch_userId c) u); [| exact IH ].
    cbn [map list_sum fold_right]. unfold hits at 1.
    rewrite jstr_eqb_sym, E. unfold list_sum in IH. rewrite IH. reflexivity.
Qed.

Lemma count_by_owner (cs : list ChatRow) (ms : list MessageRow) u :
  NoDup (map ch_id cs) ->
  List.length (filter (fun m => match find (fun c => jstr_eqb (ch_id c) (msg_chatId m)) cs with
                                | Some c => jstr_eqb (ch_userId c) u
                                | None => false
                                end) ms)
  = list_sum (map (fun c => List.length (filter (fun m => jstr_eqb (msg_chatId m) (ch_id c)) ms))
                  (filter (fun c => jstr_eqb (ch_userId c) u) cs)).
Proof.
  intros ND. induction ms as [| m ms IH].
  - cbn [filter List.length]. induction (filter _ cs); [ reflexivity | exact IHl ].
  - pose proof (hits_owner m u cs ND) as Hm.
    transitivity ((if match find (fun c => jstr_eqb (ch_id c) (msg_chatId m)) cs with
                      | Some c => jstr_eqb (ch_userId c) u | None => false end then 1 else 0)
                  + list_sum (map (fun c => List.length (filter (fun m => jstr_eqb (msg_chatId m) (ch_id c)) ms))
                                  (filter (fun c => jstr_eqb (ch_userId c) u) cs)))%nat.
    + rewrite <- IH. cbn [filter]. destruct (match _ with Some c => _ | None => false end); reflexivity.
    + rewrite <- Hm. clear.
      induction (filter (fun c => jstr_eqb (ch_userId c) u) cs) as [| c r IH]; [ reflexivity |].
      unfold list_sum in IH |- *. cbn [map fold_right filter] in IH |- *.
      unfold hits at 1. destruct (jstr_eqb (msg_chatId m) (ch_id c)); cbn [List.length]; lia.
Qed.

Lemma sum_Z_of_nat {A} (f : A -> nat) l :
  Z.of_nat (list_sum (map f l)) = fold_right Z.add 0 (map (fun x => Z.of_nat (f x)) l).
Proof. induction l as [| x r IH]; [ reflexivity |]. cbn [map fold_right list_sum]. unfold list_sum in *. lia. Qed.

(** X15: [getUserStats] agrees with the chat list: for a known user (chat ids
    being unique, as primary keys are), [totalChats] is the [total] the
    chat list reports for any valid page request, and [totalMessages] is
    the sum of the [messageCount]s of all the user's chats in that list. *)
Theorem getUserStats_agrees_with_list users db userId s :
  NoDup (map ch_id (db_chats db)) ->
  getUserStats users db userId = inr s ->
  (forall w p ps, w_db w = db -> 1 <= p -> 1 <= ps <= 100 ->
     exists r, getChatList userId {| gp_page := Some (JsFinite (inject_Z p)); gp_pageSize := Some (JsFinite (inject_Z ps)) |} w
               = (inr r, w) /\ cl_total r = us_totalChats s)
  /\ us_totalMessages s
     = fold_right Z.add 0 (map li_messageCount (formatChatList db (user_chats db userId))).
Proof.
  intros ND G. unfold getUserStats in G.
  destruct (find (fun u => jstr_eqb (ut_id u) userId) users) as [ut|]; [| discriminate ].
  injection G as <-. split.
  - intros w p ps <- Hp Hps. eexists. split; [ apply getChatList_run; assumption | reflexivity ].
  - cbn [us_totalMessages]. unfold message_of_user.
    rewrite (count_by_owner _ _ _ ND), sum_Z_of_nat.
    unfold formatChatList, user_chats. rewrite map_map. reflexivity.
Qed.


Import Samples Fixtures.


Lemma getUserStats_agrees_with_list_witness :
  exists s,
    getUserStats [totals_u1] db_three_chats user1 = inr s
    /\ NoDup (map ch_id (db_chats db_three_chats))
    /\ (forall w p ps, w_db w = db_three_chats -> 1 <= p -> 1 <= ps <= 100 ->
         exists r, getChatList user1 {| gp_page := Some (JsFinite (inject_Z p)); gp_pageSize := Some (JsFinite (inject_Z ps)) |} w
                   = (inr r, w) /\ cl_total r = us_totalChats s)
    /\ us_totalMessages s
       = fold_right Z.add 0 (map li_messageCount (formatChatList db_three_chats (user_chats db_three_chats user1))).
Proof.
  assert (ND : NoDup (map ch_id (db_chats db_three_chats))).
  { cbn. repeat constructor; cbn; intros X; repeat destruct X as [X | X]; try discriminate; exact X. }
  destruct (getUserStats [totals_u1] db_three_chats user1) as [e|s] eqn:E.
  - vm_compute in E; discriminate.
  - exists s. split; [ reflexivity |]. split; [ exact ND |].
    exact (getUserStats_agrees_with_list [totals_u1] db_three_chats user1 s ND E).
Defined.
End StatsFacts.
